(** * edxval.models: a shallow embedding of the VAL persistence layer

    The Python module [edxval/models.py] declares six Django models, a
    validation mixin, one image-attach helper, one query helper, a derived
    property and a post-save receiver.  The declarations are embedded as data
    (field descriptors, validators), the module's own functions line by line
    over an explicit world state (database tables, log, clock, stored files,
    open streams), and the framework operations they call (field cleaning,
    [full_clean], [save], [get], [get_or_create], [filter], [closing],
    [os.path.splitext], [re]) as executable functions that follow the
    behaviour of the Django 1.8 line the module is written against
    ([django.core.urlresolvers], [ForeignKey] without [on_delete]) and of
    the Python standard library.  The two helpers imported from
    [edxval.utils] (upload path and storage backend) and the C library's
    [mktime] under the time zone of the process are parameters. *)

From stdpp Require Import base list strings gmap pretty.
From Stdlib Require Import ZArith Ascii String PrimFloat.

Open Scope string_scope.
Open Scope Z_scope.

(** ** Python values *)

(** Attribute values as the ORM hands them around after [to_python]:
    [None], text, integers, booleans and IEEE doubles. *)
Inductive Value :=
| VNone
| VStr (s : string)
| VInt (z : Z)
| VBool (b : bool)
| VFloat (f : float).

(** [django.core.validators.EMPTY_VALUES = (None, '', [], (), {})]. *)
Definition is_empty_value (v : Value) : bool :=
  match v with
  | VNone => true
  | VStr s => bool_decide (s = "")
  | _ => false
  end.

(** ** Regular expressions (the fragment of [re] the module uses) *)

Module Re.

Inductive regex :=
| Caret
| Dollar
| CharSet (ranges : list (ascii * ascii))
| Star (r : regex)
| Cat (r1 r2 : regex)
| Eps.

Definition in_range (c : ascii) (rg : ascii * ascii) : bool :=
  (nat_of_ascii (fst rg) <=? nat_of_ascii c)%nat
  && (nat_of_ascii c <=? nat_of_ascii (snd rg))%nat.

Definition in_set (ranges : list (ascii * ascii)) (c : ascii) : bool :=
  existsb (in_range c) ranges.

(** *** Compiling a pattern

    Only what [URL_REGEX] needs: [^], [$], a bracketed set of literals,
    ranges and backslash escapes, and a postfix star. *)

Fixpoint parse_set (p : list ascii) (acc : list (ascii * ascii))
  : option (list (ascii * ascii) * list ascii) :=
  match p with
  | [] => None
  | c :: rest =>
      if bool_decide (c = "]"%char) then Some (rev acc, rest)
      else if bool_decide (c = "\"%char) then
        match rest with
        | e :: rest' => parse_set rest' ((e, e) :: acc)
        | [] => None
        end
      else
        match rest with
        | d :: hi :: rest' =>
            if bool_decide (d = "-"%char) then
              if bool_decide (hi = "]"%char)
              then Some (rev ((d, d) :: (c, c) :: acc), rest')
              else parse_set rest' ((c, hi) :: acc)
            else parse_set rest ((c, c) :: acc)
        | _ => parse_set rest ((c, c) :: acc)
        end
  end.

(** [parse_seq fuel p] reads atoms left to right; [fuel] bounds the
    number of atoms and is taken to be the pattern length. *)
Fixpoint parse_seq (fuel : nat) (p : list ascii) : option regex :=
  match fuel with
  | O => match p with [] => Some Eps | _ => None end
  | S fuel =>
      match p with
      | [] => Some Eps
      | c :: rest =>
          let atom :=
            if bool_decide (c = "^"%char) then Some (Caret, rest)
            else if bool_decide (c = "$"%char) then Some (Dollar, rest)
            else if bool_decide (c = "["%char) then
                   match parse_set rest [] with
                   | Some (rs, rest') => Some (CharSet rs, rest')
                   | None => None
                   end
            else if bool_decide (c = "*"%char) then None
            else Some (CharSet [(c, c)], rest) in
          match atom with
          | None => None
          | Some (a, "*"%char :: rest') =>
              match parse_seq fuel rest' with
              | Some r => Some (Cat (Star a) r)
              | None => None
              end
          | Some (a, rest') =>
              match parse_seq fuel rest' with
              | Some r => Some (Cat a r)
              | None => None
              end
          end
      end
  end.

Definition compile (pattern : string) : option regex :=
  let p := list_ascii_of_string pattern in
  parse_seq (List.length p) p.

(** *** Matching

    [ends r s i] lists the positions at which a match of [r] that starts
    at position [i] of [s] can end. Without [re.MULTILINE], [^] holds at
    position 0 only, and [$] at the end of the subject or just before a
    newline that is its last character. *)

Fixpoint star_ends (fuel : nat) (step : nat -> list nat) (i : nat) : list nat :=
  match fuel with
  | O => [i]
  | S fuel =>
      i :: flat_map (star_ends fuel step)
             (List.filter (fun j => (i <? j)%nat) (step i))
  end.

Definition newline : ascii := ascii_of_nat 10.

Fixpoint ends (r : regex) (s : list ascii) (i : nat) : list nat :=
  match r with
  | Eps => [i]
  | Caret => if (i =? 0)%nat then [i] else []
  | Dollar =>
      if (i =? List.length s)%nat then [i]
      else if (S i =? List.length s)%nat && bool_decide (s !! i = Some newline)
           then [i] else []
  | CharSet rs =>
      match s !! i with
      | Some c => if in_set rs c then [S i] else []
      | None => []
      end
  | Star r' => star_ends (List.length s) (ends r' s) i
  | Cat r1 r2 => flat_map (ends r2 s) (ends r1 s i)
  end.

(** [regex.search(text)]: a match starting anywhere. *)
Definition search (r : regex) (text : string) : bool :=
  let s := list_ascii_of_string text in
  existsb (fun i => negb (bool_decide (ends r s i = [])))
          (seq 0 (S (List.length s))).

End Re.

(** [URL_REGEX = r'^[a-zA-Z0-9\-_]*$'] *)
Definition URL_REGEX : string := "^[a-zA-Z0-9\-_]*$".

(** ** Exceptions *)

(** The exception classes that cross the module's boundary.  A
    [ValidationError] carries its error dict: field name (or [__all__]) to
    error codes. *)
Inductive Exception :=
| ValidationError (error_dict : list (string * list string))
| IntegrityError (constraint : string)
| DoesNotExist
| MultipleObjectsReturned
| ValueError (msg : string)
| AttributeError (msg : string)
| IOError (msg : string).

Definition is_validation_error (e : Exception) : bool :=
  match e with ValidationError _ => true | _ => false end.

Definition is_integrity_error (e : Exception) : bool :=
  match e with IntegrityError _ => true | _ => false end.

(** ** Validators ([django.core.validators]) *)

Inductive Validator :=
| RegexValidator (regex message code : string)
| MinValueValidator (limit_value : Z)
| MaxLengthValidator (limit_value : nat).

(** Integer limits are compared with doubles as doubles (exact below 2^53). *)
Fixpoint float_of_positive (p : positive) : float :=
  match p with
  | xH => 1%float
  | xO q => PrimFloat.mul 2%float (float_of_positive q)
  | xI q => PrimFloat.add (PrimFloat.mul 2%float (float_of_positive q)) 1%float
  end.

Definition float_of_Z (z : Z) : float :=
  match z with
  | Z0 => 0%float
  | Zpos p => float_of_positive p
  | Zneg p => PrimFloat.opp (float_of_positive p)
  end.

(** [validator(value)]: the error codes raised, [[]] when the value passes.
    Values reach a validator after the field's [to_python], so a regex or a
    length limit sees text and a numeric limit sees a number. *)
Definition run_validator (v : Validator) (value : Value) : list string :=
  match v, value with
  | RegexValidator regex _ code, VStr s =>
      match Re.compile regex with
      | Some r => if Re.search r s then [] else [code]
      | None => [code]
      end
  | MinValueValidator limit, VFloat a =>
      if PrimFloat.ltb a (float_of_Z limit) then ["min_value"] else []
  | MinValueValidator limit, VInt a =>
      if a <? limit then ["min_value"] else []
  | MaxLengthValidator limit, VStr s =>
      if (limit <? String.length s)%nat then ["max_length"] else []
  | _, _ => []
  end.

(** ** Field descriptors ([django.db.models.fields]) *)

Inductive ModelName :=
| MProfile | MVideo | MCourseVideo | MEncodedVideo | MVideoImage | MSubtitle.

Inductive FieldType :=
| AutoField
| CharField_t (max_length : nat)
| FloatField_t
| BooleanField_t
| DateTimeField_t (auto_now auto_now_add : bool)
| ForeignKey_t (to : ModelName)
| OneToOneField_t (to : ModelName)
| ImageField_t.

Record Field := {
  name : string;
  ftype : FieldType;
  null : bool;
  blank : bool;
  unique : bool;
  editable : bool;
  validators : list Validator
}.

(** The constructors with Django's defaults for the options the module
    leaves out. *)
Definition id_field : Field :=
  {| name := "id"; ftype := AutoField; null := false; blank := true;
     unique := true; editable := true; validators := [] |}.

(** [CharField.__init__] appends [MaxLengthValidator(max_length)] to the
    validators it was given. *)
Definition CharField (name : string) (max_length : nat) (unique blank : bool)
    (validators : list Validator) : Field :=
  {| name := name; ftype := CharField_t max_length; null := false;
     blank := blank; unique := unique; editable := true;
     validators := (validators ++ [MaxLengthValidator max_length])%list |}.

Definition FloatField (name : string) (validators : list Validator) : Field :=
  {| name := name; ftype := FloatField_t; null := false; blank := false;
     unique := false; editable := true; validators := validators |}.

(** [BooleanField.__init__] sets [blank=True]. *)
Definition BooleanField (name : string) : Field :=
  {| name := name; ftype := BooleanField_t; null := false; blank := true;
     unique := false; editable := true; validators := [] |}.

(** [auto_now] or [auto_now_add] makes the field [editable=False, blank=True]. *)
Definition DateTimeField (name : string) (auto_now auto_now_add : bool) : Field :=
  {| name := name; ftype := DateTimeField_t auto_now auto_now_add; null := false;
     blank := auto_now || auto_now_add; unique := false;
     editable := negb (auto_now || auto_now_add); validators := [] |}.

Definition ForeignKey (name : string) (to : ModelName) : Field :=
  {| name := name; ftype := ForeignKey_t to; null := false; blank := false;
     unique := false; editable := true; validators := [] |}.

Definition OneToOneField (name : string) (to : ModelName) : Field :=
  {| name := name; ftype := OneToOneField_t to; null := false; blank := false;
     unique := true; editable := true; validators := [] |}.

(** ** Model instances and tables *)

(** One record per model class. A primary key or a foreign key is [None]
    while the instance (or the related instance) is unsaved; timestamps are
    microseconds since the epoch. Attributes whose name is shared between
    classes ([id], [created], [modified], [video], [profile]) carry the class
    as a prefix. *)
Record Profile := {
  profile_pk : option Z;
  profile_name : string
}.

Record Video := {
  video_pk : option Z;
  video_created : option Z;
  edx_video_id : string;
  client_video_id : string;
  duration : option float;
  status : string
}.

Record CourseVideo := {
  cv_pk : option Z;
  course_id : string;
  cv_video_id : option Z;
  is_hidden : bool
}.

Record EncodedVideo := {
  ev_pk : option Z;
  ev_created : option Z;
  ev_modified : option Z;
  url : string;
  file_size : Z;
  bitrate : Z;
  ev_profile_id : option Z;
  ev_video_id : option Z
}.

Record VideoImage := {
  vi_pk : option Z;
  vi_created : option Z;
  vi_modified : option Z;
  vi_course_video_id : option Z;
  image : option string
}.

Record Subtitle := {
  sub_pk : option Z;
  sub_created : option Z;
  sub_modified : option Z;
  sub_video_id : option Z;
  fmt : string;
  language : string;
  content : string
}.

Record DB := {
  profiles : list Profile;
  videos : list Video;
  course_videos : list CourseVideo;
  encoded_videos : list EncodedVideo;
  video_images : list VideoImage;
  subtitles : list Subtitle
}.

Definition empty_db : DB :=
  {| profiles := []; videos := []; course_videos := []; encoded_videos := [];
     video_images := []; subtitles := [] |}.

(** The primary keys present in a model's table. *)
Definition table_pks (d : DB) (m : ModelName) : list Z :=
  match m with
  | MProfile => omap profile_pk (profiles d)
  | MVideo => omap video_pk (videos d)
  | MCourseVideo => omap cv_pk (course_videos d)
  | MEncodedVideo => omap ev_pk (encoded_videos d)
  | MVideoImage => omap vi_pk (video_images d)
  | MSubtitle => omap sub_pk (subtitles d)
  end.

(** ** The world: database, log sink, clock, file storage, open streams *)

Record LogRecord := {
  levelname : string;
  message : string
}.

Record UploadedFile := {
  file_bytes : list Byte.byte;
  closed : bool
}.

Record World := {
  db : DB;
  log : list LogRecord;
  clock : nat -> Z;
  ticks : nat;
  files : gmap string (list Byte.byte);
  streams : gmap nat UploadedFile
}.

Definition set_db (d : DB) (w : World) : World :=
  {| db := d; log := log w; clock := clock w; ticks := ticks w;
     files := files w; streams := streams w |}.

Definition set_log (l : list LogRecord) (w : World) : World :=
  {| db := db w; log := l; clock := clock w; ticks := ticks w;
     files := files w; streams := streams w |}.

Definition set_ticks (n : nat) (w : World) : World :=
  {| db := db w; log := log w; clock := clock w; ticks := n;
     files := files w; streams := streams w |}.

Definition set_files (f : gmap string (list Byte.byte)) (w : World) : World :=
  {| db := db w; log := log w; clock := clock w; ticks := ticks w;
     files := f; streams := streams w |}.

Definition set_streams (s : gmap nat UploadedFile) (w : World) : World :=
  {| db := db w; log := log w; clock := clock w; ticks := ticks w;
     files := files w; streams := s |}.

(** ** Actions: state passing with exceptions

    An action takes the world and gives back a result and the world it
    leaves behind; a raised exception keeps the writes made before it. *)
Inductive Result (A : Type) :=
| Return (a : A)
| Raise (e : Exception).
Arguments Return {A} a.
Arguments Raise {A} e.

Definition Act (A : Type) : Type := World -> Result A * World.

Definition ret {A} (a : A) : Act A := fun w => (Return a, w).

Definition raise {A} (e : Exception) : Act A := fun w => (Raise e, w).

Definition bind {A B} (m : Act A) (k : A -> Act B) : Act B :=
  fun w =>
    match m w with
    | (Return a, w') => k a w'
    | (Raise e, w') => (Raise e, w')
    end.

(** [try: m except <handles>: handler] *)
Definition try_except {A} (m : Act A) (handles : Exception -> bool)
    (handler : Exception -> Act A) : Act A :=
  fun w =>
    match m w with
    | (Raise e, w') => if handles e then handler e w' else (Raise e, w')
    | r => r
    end.

(** [try: m finally: cleanup] *)
Definition try_finally {A} (m : Act A) (cleanup : Act unit) : Act A :=
  fun w =>
    match m w with
    | (r, w') =>
        match cleanup w' with
        | (Return _, w'') => (r, w'')
        | (Raise e, w'') => (Raise e, w'')
        end
    end.

Declare Scope act_scope.
Delimit Scope act_scope with act.
Notation "x <- m ;; k" := (bind m (fun x => k))
  (at level 100, m at next level, right associativity) : act_scope.
Notation "m ;;; k" := (bind m (fun _ => k))
  (at level 100, right associativity) : act_scope.
Open Scope act_scope.

Definition get_db : Act DB := fun w => (Return (db w), w).

Definition put_db (d : DB) : Act unit := fun w => (Return tt, set_db d w).

(** [timezone.now()]: the next reading of the clock. *)
Definition now : Act Z :=
  fun w => (Return (clock w (ticks w)), set_ticks (S (ticks w)) w).

(** ** The model interface ([django.db.models.Model]) *)

(** Python's [==] on attribute values. *)
Definition value_eqb (a b : Value) : bool :=
  match a, b with
  | VNone, VNone => true
  | VStr s, VStr t => bool_decide (s = t)
  | VInt x, VInt y => x =? y
  | VBool x, VBool y => bool_decide (x = y)
  | VFloat x, VFloat y => PrimFloat.eqb x y
  | _, _ => false
  end.

Definition opt_value {A} (f : A -> Value) (o : option A) : Value :=
  match o with Some a => f a | None => VNone end.

(** What a model class provides: its [_meta] (fields, [unique_together]),
    attribute access by field name, its table behind [cls.objects], the
    [pre_save] of its automatic fields and its [post_save] receivers. *)
Class Model (M : Type) := {
  model_name : ModelName;
  meta_fields : list Field;
  unique_together : list (list string);
  getattr : M -> string -> Value;
  pk : M -> option Z;
  set_pk : option Z -> M -> M;
  objects : DB -> list M;
  set_objects : list M -> DB -> DB;
  pre_save : bool -> M -> Act M;
  post_save : M -> bool -> Act unit
}.

Section Framework.
Context {M : Type} {HM : Model M}.

(** *** Field cleaning *)

(** [Field.validate] followed, for a relation, by the existence check of
    [ForeignKey.validate]. *)
Definition field_validate (d : DB) (f : Field) (value : Value) : list string :=
  if negb (editable f) then []
  else if value_eqb value VNone && negb (null f) then ["null"]
  else if negb (blank f) && is_empty_value value then ["blank"]
  else
    match ftype f, value with
    | ForeignKey_t to, VInt k | OneToOneField_t to, VInt k =>
        if bool_decide (k ∈ table_pks d to) then [] else ["invalid"]
    | _, _ => []
    end.

(** [Field.run_validators]: skipped on an empty value. *)
Definition field_run_validators (f : Field) (value : Value) : list string :=
  if is_empty_value value then []
  else flat_map (fun v => run_validator v value) (validators f).

(** [Field.clean]: [validate] raises before the validators run. *)
Definition field_clean (d : DB) (f : Field) (value : Value) : list string :=
  match field_validate d f value with
  | [] => field_run_validators f value
  | errors => errors
  end.

(** *** [Model.clean_fields], [Model.validate_unique], [Model.full_clean] *)

(** The errors [clean_fields] records for one field: a blank-able field
    holding an empty value is skipped. *)
Definition field_errors (d : DB) (self : M) (f : Field) : list string :=
  let raw_value := getattr self (name f) in
  if blank f && is_empty_value raw_value then []
  else field_clean d f raw_value.

Fixpoint clean_fields_loop (d : DB) (self : M) (fs : list Field)
  : list (string * list string) :=
  match fs with
  | [] => []
  | f :: fs' =>
      match field_errors d self f with
      | [] => clean_fields_loop d self fs'
      | errs => (name f, errs) :: clean_fields_loop d self fs'
      end
  end.

Definition clean_fields (d : DB) (self : M) : list (string * list string) :=
  clean_fields_loop d self meta_fields.

(** [_get_unique_checks]: [unique_together] first, then the unique fields. *)
Definition unique_checks : list (list string) :=
  (unique_together ++ map (fun f => [name f]) (List.filter unique meta_fields))%list.

Definition same_pk (a b : M) : bool :=
  match pk a, pk b with
  | Some x, Some y => x =? y
  | _, _ => false
  end.

(** Another row agrees with [self] on every field of the check: what a
    [UNIQUE] index refuses. *)
Definition unique_conflict (rows : list M) (self : M) (check : list string) : bool :=
  existsb (fun r => negb (same_pk r self)
                    && forallb (fun n => value_eqb (getattr r n) (getattr self n)) check)
          rows.

(** [f.primary_key]: every model of the module has the automatic [id]. *)
Definition primary_key (f : Field) : bool :=
  match ftype f with AutoField => true | _ => false end.

Definition is_primary_key (n : string) : bool :=
  existsb (fun f => bool_decide (name f = n) && primary_key f) meta_fields.

(** The query of [_perform_unique_checks] for an instance whose
    [_state.adding] is [adding] ([True] from construction until the instance
    is saved, [False] on an instance loaded from the database): some stored
    row agrees with [self] on every field of the check.  The row with the
    key of [self] is left out only when [self] is being edited. *)
Definition unique_lookup (rows : list M) (self : M) (adding : bool)
    (check : list string) : bool :=
  existsb (fun r => (adding || negb (same_pk r self))
                    && forallb (fun n => value_eqb (getattr r n) (getattr self n)) check)
          rows.

(** [_perform_unique_checks]: a check is skipped when a field of it failed
    cleaning ([exclude]), holds [None], or is the primary key of an instance
    being edited. A single-field failure is filed under the field, a
    [unique_together] failure under [__all__]. *)
Definition unique_check_errors (d : DB) (self : M) (adding : bool)
    (exclude : list string) (check : list string) : list (string * list string) :=
  if existsb (fun n => bool_decide (n ∈ exclude)) check then []
  else if existsb (fun n => value_eqb (getattr self n) VNone) check then []
  else if negb adding && existsb is_primary_key check then []
  else if unique_lookup (objects d) self adding check then
    match check with
    | [n] => [(n, ["unique"])]
    | _ => [("__all__", ["unique_together"])]
    end
  else [].

Definition validate_unique (d : DB) (self : M) (adding : bool)
    (exclude : list string) : list (string * list string) :=
  flat_map (unique_check_errors d self adding exclude) unique_checks.

(** [full_clean] on an instance whose [_state.adding] is [adding]: collect
    the errors of [clean_fields] and, for the fields that passed, of
    [validate_unique]; raise when there is any.  No write. *)
Definition full_clean (adding : bool) (self : M) : Act unit :=
  d <- get_db ;;
  let errors := clean_fields d self in
  let errors := (errors ++ validate_unique d self adding (map fst errors))%list in
  match errors with
  | [] => ret tt
  | _ => raise (ValidationError errors)
  end.

(** *** Writing a row ([Model.save]) *)

Definition has_pk (k : Z) (r : M) : bool :=
  match pk r with Some x => x =? k | None => false end.

(** The key an [AutoField] receives on insertion. *)
Definition next_pk (rows : list M) : Z :=
  1 + foldr Z.max 0 (omap pk rows).

(** The constraints the table enforces, from the declared schema: [NOT NULL]
    on every column that is not nullable, [UNIQUE] on every unique column
    and on every [unique_together] tuple. *)
Definition db_constraint_violation (rows : list M) (self : M) : option string :=
  match List.filter (fun f => negb (null f) && value_eqb (getattr self (name f)) VNone)
                    meta_fields with
  | f :: _ => Some ("NOT NULL constraint failed: " ++ name f)
  | [] =>
      match List.filter (unique_conflict rows self) unique_checks with
      | check :: _ => Some ("UNIQUE constraint failed: " ++ String.concat ", " check)
      | [] => None
      end
  end.

Definition replace_row (self : M) (rows : list M) : list M :=
  map (fun r => if same_pk r self then self else r) rows.

(** The instance as [INSERT] stores it. *)
Definition keyed (rows : list M) (self : M) : M :=
  match pk self with
  | Some _ => self
  | None => set_pk (Some (next_pk rows)) self
  end.

(** [INSERT]: assign the key when the instance has none, check the key and
    the constraints, append. *)
Definition db_insert (self : M) : Act M :=
  d <- get_db ;;
  let self := keyed (objects d) self in
  if existsb (fun r => same_pk r self) (objects d) then
    raise (IntegrityError "UNIQUE constraint failed: id")
  else
    match db_constraint_violation (objects d) self with
    | Some c => raise (IntegrityError c)
    | None => put_db (set_objects (objects d ++ [self])%list d) ;;; ret self
    end.

(** [UPDATE ... WHERE pk = self.pk], on a row known to exist. *)
Definition db_update (self : M) : Act M :=
  d <- get_db ;;
  match db_constraint_violation (objects d) self with
  | Some c => raise (IntegrityError c)
  | None => put_db (set_objects (replace_row self (objects d)) d) ;;; ret self
  end.

(** [Model.save(force_insert)]: with a key set and no [force_insert], try the
    update and fall back to an insert when no row has the key; send
    [post_save] with the [created] flag once the row is written.  The value
    is the instance as [save] leaves it (key and automatic fields set). *)
Definition save_base (force_insert : bool) (self : M) : Act M :=
  d <- get_db ;;
  let try_update :=
    match pk self with
    | Some k => negb force_insert
    | None => false
    end in
  if try_update then
    self <- pre_save false self ;;
    if existsb (fun r => same_pk r self) (objects d) then
      self <- db_update self ;;
      post_save self false ;;; ret self
    else
      self <- pre_save true self ;;
      self <- db_insert self ;;
      post_save self true ;;; ret self
  else
    self <- pre_save true self ;;
    self <- db_insert self ;;
    post_save self true ;;; ret self.

Definition save (self : M) : Act M := save_base false self.

End Framework.

(** *** Construction and lookup by keyword *)

(** The attribute values [cls(kwargs)] sets, given the clock readings its
    defaults take, and the row test behind [cls.objects.get(kwargs)];
    [Kwargs] is the keyword set the class accepts. *)
Class ModelInit (M : Type) {HM : Model M} := {
  Kwargs : Type;
  default_clock_reads : nat;
  init : Kwargs -> list Z -> M;
  lookup : Kwargs -> M -> bool
}.

Fixpoint nows (n : nat) : Act (list Z) :=
  match n with
  | O => ret []
  | S n' => t <- now ;; ts <- nows n' ;; ret (t :: ts)
  end.

(** [cls(kwargs)]: the constructor reads the clock once per field whose
    default is [now] and writes nothing. *)
Definition construct {M} {HM : Model M} {HI : ModelInit M} (kwargs : Kwargs) : Act M :=
  ts <- nows default_clock_reads ;;
  ret (init kwargs ts).

(** [cls.objects.get(kwargs)] *)
Definition objects_get {M} {HM : Model M} {HI : ModelInit M} (kwargs : Kwargs) : Act M :=
  d <- get_db ;;
  match List.filter (lookup kwargs) (objects d) with
  | [] => raise DoesNotExist
  | [r] => ret r
  | _ => raise MultipleObjectsReturned
  end.

Definition is_DoesNotExist (e : Exception) : bool :=
  match e with DoesNotExist => true | _ => false end.

(** [cls.objects.create(kwargs)]: build and [save(force_insert=True)]. *)
Definition objects_create {M} {HM : Model M} {HI : ModelInit M} (kwargs : Kwargs) : Act M :=
  obj <- construct kwargs ;;
  save_base true obj.

(** [cls.objects.get_or_create(kwargs)]: on an [IntegrityError] from the
    insert the lookup is tried once more before the error is re-raised. *)
Definition objects_get_or_create {M} {HM : Model M} {HI : ModelInit M} (kwargs : Kwargs)
  : Act (M * bool) :=
  try_except
    (obj <- objects_get kwargs ;; ret (obj, false))
    is_DoesNotExist
    (fun _ =>
       try_except
         (obj <- objects_create kwargs ;; ret (obj, true))
         is_integrity_error
         (fun exc =>
            try_except
              (obj <- objects_get kwargs ;; ret (obj, false))
              is_DoesNotExist
              (fun _ => raise exc))).

(** ** Logging *)

(** The [%s] substitution of [msg % args]. *)
Fixpoint percent_format (msg : string) (args : list string) : string :=
  match msg with
  | EmptyString => EmptyString
  | String c rest =>
      match rest with
      | String c' rest' =>
          if Ascii.eqb c "%" && Ascii.eqb c' "s" then
            match args with
            | a :: args' => a ++ percent_format rest' args'
            | [] => String c (String c' (percent_format rest' []))
            end
          else String c (percent_format rest args)
      | EmptyString => String c EmptyString
      end
  end.

(** [logger.info(msg, args)] *)
Definition logger_info (msg : string) (args : list string) : Act unit :=
  fun w =>
    (Return tt,
     set_log (log w ++ [{| levelname := "INFO";
                           message := percent_format msg args |}])%list w).

(** ** The receiver of [post_save] for [Video] *)

Definition video_status_update_callback (instance : Video) (created : bool)
  : Act unit :=
  let video := instance in
  if created then
    logger_info "VAL: Video created with id [%s] and status [%s]"
                [edx_video_id video; status video]
  else
    logger_info "VAL: Status changed to [%s] for video [%s]"
                [status video; edx_video_id video].

(** ** The model classes *)

(** *** Profile *)

Definition profile_name_field : Field :=
  CharField "profile_name" 50 true false
    [RegexValidator URL_REGEX "profile_name has invalid characters"
                    "invalid profile_name"].

Definition Profile_fields : list Field :=
  [ id_field; profile_name_field ].

Definition Profile_getattr (self : Profile) (n : string) : Value :=
  if bool_decide (n = "id") then opt_value VInt (profile_pk self)
  else if bool_decide (n = "profile_name") then VStr (profile_name self)
  else VNone.

#[export] Instance Profile_Model : Model Profile := {|
  model_name := MProfile;
  meta_fields := Profile_fields;
  unique_together := [];
  getattr := Profile_getattr;
  pk := profile_pk;
  set_pk k self := {| profile_pk := k; profile_name := profile_name self |};
  objects := profiles;
  set_objects rows d :=
    {| profiles := rows; videos := videos d; course_videos := course_videos d;
       encoded_videos := encoded_videos d; video_images := video_images d;
       subtitles := subtitles d |};
  pre_save _ self := ret self;
  post_save _ _ := ret tt
|}.

(** *** Video *)

Definition edx_video_id_field : Field :=
  CharField "edx_video_id" 100 true false
    [RegexValidator URL_REGEX "edx_video_id has invalid characters"
                    "invalid edx_video_id"].

Definition Video_fields : list Field :=
  [ id_field;
    DateTimeField "created" false true;
    edx_video_id_field;
    CharField "client_video_id" 255 false true [];
    FloatField "duration" [MinValueValidator 0];
    CharField "status" 255 false false [] ].

Definition Video_getattr (self : Video) (n : string) : Value :=
  if bool_decide (n = "id") then opt_value VInt (video_pk self)
  else if bool_decide (n = "created") then opt_value VInt (video_created self)
  else if bool_decide (n = "edx_video_id") then VStr (edx_video_id self)
  else if bool_decide (n = "client_video_id") then VStr (client_video_id self)
  else if bool_decide (n = "duration") then opt_value VFloat (duration self)
  else if bool_decide (n = "status") then VStr (status self)
  else VNone.

Definition Video_set_created (t : option Z) (self : Video) : Video :=
  {| video_pk := video_pk self; video_created := t;
     edx_video_id := edx_video_id self; client_video_id := client_video_id self;
     duration := duration self; status := status self |}.

(** [created = DateTimeField(auto_now_add=True)]: stamped on insertion. *)
Definition Video_pre_save (add : bool) (self : Video) : Act Video :=
  if add then t <- now ;; ret (Video_set_created (Some t) self)
  else ret self.

#[export] Instance Video_Model : Model Video := {|
  model_name := MVideo;
  meta_fields := Video_fields;
  unique_together := [];
  getattr := Video_getattr;
  pk := video_pk;
  set_pk k self :=
    {| video_pk := k; video_created := video_created self;
       edx_video_id := edx_video_id self; client_video_id := client_video_id self;
       duration := duration self; status := status self |};
  objects := videos;
  set_objects rows d :=
    {| profiles := profiles d; videos := rows; course_videos := course_videos d;
       encoded_videos := encoded_videos d; video_images := video_images d;
       subtitles := subtitles d |};
  pre_save := Video_pre_save;
  post_save := video_status_update_callback
|}.

(** *** CourseVideo *)

Definition CourseVideo_fields : list Field :=
  [ id_field;
    CharField "course_id" 255 false false [];
    ForeignKey "video" MVideo;
    BooleanField "is_hidden" ].

Definition CourseVideo_getattr (self : CourseVideo) (n : string) : Value :=
  if bool_decide (n = "id") then opt_value VInt (cv_pk self)
  else if bool_decide (n = "course_id") then VStr (course_id self)
  else if bool_decide (n = "video") then opt_value VInt (cv_video_id self)
  else if bool_decide (n = "is_hidden") then VBool (is_hidden self)
  else VNone.

#[export] Instance CourseVideo_Model : Model CourseVideo := {|
  model_name := MCourseVideo;
  meta_fields := CourseVideo_fields;
  unique_together := [["course_id"; "video"]];
  getattr := CourseVideo_getattr;
  pk := cv_pk;
  set_pk k self :=
    {| cv_pk := k; course_id := course_id self; cv_video_id := cv_video_id self;
       is_hidden := is_hidden self |};
  objects := course_videos;
  set_objects rows d :=
    {| profiles := profiles d; videos := videos d; course_videos := rows;
       encoded_videos := encoded_videos d; video_images := video_images d;
       subtitles := subtitles d |};
  pre_save _ self := ret self;
  post_save _ _ := ret tt
|}.

(** The keywords [CourseVideo] takes; an absent keyword leaves the field at
    its default ([''], no video, [False]) and out of a lookup. *)
Record CourseVideoKwargs := {
  kw_course_id : option string;
  kw_video : option Video;
  kw_is_hidden : option bool
}.

Definition CourseVideo_init (kwargs : CourseVideoKwargs) (_ : list Z) : CourseVideo :=
  {| cv_pk := None;
     course_id := default "" (kw_course_id kwargs);
     cv_video_id := v ← kw_video kwargs; video_pk v;
     is_hidden := default false (kw_is_hidden kwargs) |}.

Definition CourseVideo_lookup (kwargs : CourseVideoKwargs) (row : CourseVideo) : bool :=
  match kw_course_id kwargs with
  | Some c => bool_decide (course_id row = c)
  | None => true
  end
  && match kw_video kwargs with
     | Some v => bool_decide (is_Some (video_pk v) ∧ cv_video_id row = video_pk v)
     | None => true
     end
  && match kw_is_hidden kwargs with
     | Some h => bool_decide (is_hidden row = h)
     | None => true
     end.

#[export] Instance CourseVideo_ModelInit : ModelInit CourseVideo := {|
  Kwargs := CourseVideoKwargs;
  default_clock_reads := 0;
  init := CourseVideo_init;
  lookup := CourseVideo_lookup
|}.

(** ** ModelFactoryWithValidation *)

Section ModelFactoryWithValidation.
Context {M : Type} {HM : Model M} {HI : ModelInit M}.

(** [create_with_validation]: build, [full_clean], [save].  The instance
    was just constructed, so its [_state.adding] is [True].  The body has no
    [return] statement, so a call that completes evaluates to [None]. *)
Definition create_with_validation (kwargs : Kwargs) : Act (option M) :=
  ret_val <- construct kwargs ;;
  full_clean true ret_val ;;;
  _ <- save ret_val ;;
  ret None.

(** [get_or_create_with_validation]: the pair [(object, created)]. *)
Definition get_or_create_with_validation (kwargs : Kwargs)
  : Act (option M * bool) :=
  try_except
    (obj <- objects_get kwargs ;; ret (Some obj, false))
    is_DoesNotExist
    (fun _ => obj <- create_with_validation kwargs ;; ret (obj, true)).

End ModelFactoryWithValidation.

(** ** Video.by_youtube_id *)

Definition opt_Z_eqb (a b : option Z) : bool :=
  match a, b with
  | Some x, Some y => x =? y
  | _, _ => false
  end.

(** The rows of
    [filter(encoded_videos__profile__profile_name='youtube',
            encoded_videos__url=youtube_id)]:
    [Video] joined with its encodings and each encoding with its profile,
    both conditions on the same encoding; one row per matching encoding. *)
Definition youtube_filter (d : DB) (youtube_id : string) : list Video :=
  v ← videos d;
  ev ← encoded_videos d;
  p ← profiles d;
  if opt_Z_eqb (ev_video_id ev) (video_pk v)
     && opt_Z_eqb (ev_profile_id ev) (profile_pk p)
     && bool_decide (profile_name p = "youtube")
     && bool_decide (url ev = youtube_id)
  then [v] else [].

(** A [Video] with the caches [prefetch_related] fills. *)
Record PrefetchedVideo := {
  pv_video : Video;
  pv_encoded_videos : list EncodedVideo;
  pv_courses : list CourseVideo;
  pv_subtitles : list Subtitle
}.

(** [prefetch_related('encoded_videos', 'courses', 'subtitles')] *)
Definition prefetch_related (d : DB) (v : Video) : PrefetchedVideo :=
  {| pv_video := v;
     pv_encoded_videos :=
       List.filter (fun ev => opt_Z_eqb (ev_video_id ev) (video_pk v)) (encoded_videos d);
     pv_courses :=
       List.filter (fun cv => opt_Z_eqb (cv_video_id cv) (video_pk v)) (course_videos d);
     pv_subtitles :=
       List.filter (fun s => opt_Z_eqb (sub_video_id s) (video_pk v)) (subtitles d) |}.

(** The query set, as evaluated against the database [d]. *)
Definition Video_by_youtube_id (youtube_id : string) (d : DB) : list PrefetchedVideo :=
  let qset := map (prefetch_related d) (youtube_filter d youtube_id) in
  qset.

(** ** VideoImage *)

Definition VideoImage_fields : list Field :=
  [ id_field;
    DateTimeField "created" false true;
    DateTimeField "modified" true false;
    OneToOneField "course_video" MCourseVideo;
    {| name := "image"; ftype := ImageField_t; null := true; blank := true;
       unique := false; editable := true; validators := [MaxLengthValidator 500] |} ].

Definition VideoImage_getattr (self : VideoImage) (n : string) : Value :=
  if bool_decide (n = "id") then opt_value VInt (vi_pk self)
  else if bool_decide (n = "created") then opt_value VInt (vi_created self)
  else if bool_decide (n = "modified") then opt_value VInt (vi_modified self)
  else if bool_decide (n = "course_video") then opt_value VInt (vi_course_video_id self)
  else if bool_decide (n = "image") then opt_value VStr (image self)
  else VNone.

Definition VideoImage_set_modified (t : option Z) (self : VideoImage) : VideoImage :=
  {| vi_pk := vi_pk self; vi_created := vi_created self; vi_modified := t;
     vi_course_video_id := vi_course_video_id self; image := image self |}.

Definition VideoImage_set_image (n : option string) (self : VideoImage) : VideoImage :=
  {| vi_pk := vi_pk self; vi_created := vi_created self;
     vi_modified := vi_modified self;
     vi_course_video_id := vi_course_video_id self; image := n |}.

(** [TimeStampedModel]: [modified] is stamped by every [save]. *)
Definition VideoImage_pre_save (add : bool) (self : VideoImage) : Act VideoImage :=
  t <- now ;; ret (VideoImage_set_modified (Some t) self).

#[export] Instance VideoImage_Model : Model VideoImage := {|
  model_name := MVideoImage;
  meta_fields := VideoImage_fields;
  unique_together := [];
  getattr := VideoImage_getattr;
  pk := vi_pk;
  set_pk k self :=
    {| vi_pk := k; vi_created := vi_created self; vi_modified := vi_modified self;
       vi_course_video_id := vi_course_video_id self; image := image self |};
  objects := video_images;
  set_objects rows d :=
    {| profiles := profiles d; videos := videos d; course_videos := course_videos d;
       encoded_videos := encoded_videos d; video_images := rows;
       subtitles := subtitles d |};
  pre_save := VideoImage_pre_save;
  post_save _ _ := ret tt
|}.

(** The one keyword the module passes: [course_video=<CourseVideo>].
    [created] and [modified] both default to [now]. *)
Definition VideoImage_init (course_video : CourseVideo) (ts : list Z) : VideoImage :=
  {| vi_pk := None; vi_created := ts !! 0%nat; vi_modified := ts !! 1%nat;
     vi_course_video_id := cv_pk course_video; image := None |}.

Definition VideoImage_lookup (course_video : CourseVideo) (row : VideoImage) : bool :=
  opt_Z_eqb (vi_course_video_id row) (cv_pk course_video).

#[export] Instance VideoImage_ModelInit : ModelInit VideoImage := {|
  Kwargs := CourseVideo;
  default_clock_reads := 2;
  init := VideoImage_init;
  lookup := VideoImage_lookup
|}.

(** *** [os.path.splitext] (posixpath) *)

Fixpoint rfind_from (c : ascii) (p : list ascii) (i acc : Z) : Z :=
  match p with
  | [] => acc
  | x :: rest => rfind_from c rest (i + 1) (if Ascii.eqb x c then i else acc)
  end.

(** [p.rfind(c)]: the last index of [c], [-1] when there is none. *)
Definition rfind (c : ascii) (p : list ascii) : Z := rfind_from c p 0 (-1).

(** [genericpath._splitext] with [sep='/'] and [extsep='.']: split at the
    last dot when it comes after the last separator and some character
    between the two is not a dot. *)
Definition splitext (p : string) : string * string :=
  let l := list_ascii_of_string p in
  let sepIndex := rfind "/" l in
  let dotIndex := rfind "." l in
  if (sepIndex <? dotIndex)
     && existsb (fun c => negb (Ascii.eqb c "."))
          (take (Z.to_nat (dotIndex - (sepIndex + 1))) (drop (Z.to_nat (sepIndex + 1)) l))
  then (string_of_list_ascii (take (Z.to_nat dotIndex) l),
        string_of_list_ascii (drop (Z.to_nat dotIndex) l))
  else (p, "").

(** [t.strftime("%s")]: the format goes to the C library with the calendar
    fields of [t] ([t.timetuple()], whole seconds), and the library's [%s]
    answers [mktime] of those fields, that is, reads them as local time of
    the process.  [mktime] takes the fields counted as seconds and answers
    seconds since the epoch, in decimal; it is the process's time zone that
    decides it. *)
Definition strftime_s (mktime : Z -> Z) (t : Z) : string :=
  pretty (mktime (t `div` 1000000)).

(** The name [create_or_update] gives the file:
    ['{timestamp}{ext}'.format(timestamp=video_image.modified.strftime("%s"),
                               ext=file_extension)]. *)
Definition image_file_name (mktime : Z -> Z) (modified : Z) (file_name : string)
  : string :=
  let '(_, file_extension) := splitext file_name in
  strftime_s mktime modified ++ file_extension.

(** [mktime] of a process whose zone is a fixed number of seconds east of
    UTC (no daylight-saving change): zero for a server on UTC. *)
Definition fixed_offset_mktime (utcoff : Z) : Z -> Z := fun s => s - utcoff.

(** *** Streams *)

(** [thing.close()] *)
Definition stream_close (h : nat) : Act unit :=
  fun w =>
    (Return tt,
     set_streams (alter (fun f => {| file_bytes := file_bytes f; closed := true |})
                        h (streams w)) w).

(** [with closing(thing): body] *)
Definition closing {A} (thing : nat) (body : Act A) : Act A :=
  try_finally body (stream_close thing).

Definition is_closed (h : nat) (w : World) : Prop :=
  exists f, streams w !! h = Some f /\ closed f = true.

Section ImageStorage.

(** What the module is run with: the C library's [mktime] under the
    process's time zone, and the two collaborators imported from
    [edxval.utils], the [upload_to] callable and the backend returned by
    [get_video_image_storage()].  The backend's [save(name, content)] is
    handed the stream itself, open or closed; it answers the name it stored
    the content under or raises, and either way leaves the stored files as
    it made them. *)
Variable mktime : Z -> Z.
Variable video_image_path : VideoImage -> string -> string.
Variable storage_save :
  gmap string (list Byte.byte) -> string -> UploadedFile ->
  Result string * gmap string (list Byte.byte).

(** [storage.save(name, content)] on the stream behind the handle. *)
Definition backend_save (name : string) (content : nat) : Act string :=
  fun w =>
    match streams w !! content with
    | Some f =>
        match storage_save (files w) name f with
        | (Return stored, fs) => (Return stored, set_files fs w)
        | (Raise e, fs) => (Raise e, set_files fs w)
        end
    | None => (Raise (ValueError "I/O operation on closed file"), w)
    end.

(** [video_image.image.save(name, content)] ([FieldFile.save], with
    [save=True]): name through [upload_to], the stream to the backend, the
    answered name on the instance, then [instance.save()]. *)
Definition image_save (video_image : VideoImage) (name : string) (content : nat)
  : Act VideoImage :=
  let name := video_image_path video_image name in
  stored <- backend_save name content ;;
  let video_image := VideoImage_set_image (Some stored) video_image in
  save video_image.

(** [VideoImage.create_or_update] *)
Definition VideoImage_create_or_update (course_video : CourseVideo)
    (image_data : nat) (file_name : string) : Act (VideoImage * bool) :=
  r <- objects_get_or_create (M := VideoImage) course_video ;;
  let '(video_image, created) := r in
  video_image <-
    closing image_data
      (let image_file := image_data in
       match vi_modified video_image with
       | None => raise (AttributeError "'NoneType' object has no attribute 'strftime'")
       | Some modified =>
           let file_name := image_file_name mktime modified file_name in
           video_image <- image_save video_image file_name image_file ;;
           save video_image
       end) ;;
  ret (video_image, created).

(** The body of the [with] block, from the record [get_or_create] gave. *)
Definition attach_body (video_image : VideoImage) (image_data : nat)
    (file_name : string) : Act VideoImage :=
  match vi_modified video_image with
  | None => raise (AttributeError "'NoneType' object has no attribute 'strftime'")
  | Some modified =>
      video_image <- image_save video_image
                       (image_file_name mktime modified file_name) image_data ;;
      save video_image
  end.

(** Stream [h] went to the backend under the upload path of [name], and the
    record holds the name the backend answered. *)
Definition stored_under (fetched : VideoImage) (name : string) (h : nat)
    (w0 : World) (vi : VideoImage) : Prop :=
  exists up stored fs',
    streams w0 !! h = Some up
    /\ storage_save (files w0) (video_image_path fetched name) up
       = (Return stored, fs')
    /\ image vi = Some stored.

End ImageStorage.

(** ** Subtitle.content_type *)

(** A property with a getter only. *)
Definition content_type (self : Subtitle) : string :=
  if bool_decide (fmt self = "sjson") then "application/json" else "text/plain".

(** * Vocabulary of the properties *)

(** The field with the required-field rule lifted ([blank=True]). *)
Definition with_blank (f : Field) : Field :=
  {| name := name f; ftype := ftype f; null := null f; blank := true;
     unique := unique f; editable := editable f; validators := validators f |}.

(** The two log lines, with the format fields filled in. *)
Definition created_message (video : Video) : string :=
  "VAL: Video created with id [" ++ edx_video_id video ++ "] and status ["
  ++ status video ++ "]".

Definition status_changed_message (video : Video) : string :=
  "VAL: Status changed to [" ++ status video ++ "] for video ["
  ++ edx_video_id video ++ "]".

Definition info (msg : string) : LogRecord :=
  {| levelname := "INFO"; message := msg |}.

Definition video_row_exists (v : Video) (d : DB) : bool :=
  existsb (fun r => same_pk r v) (videos d).

(** The video has an encoding whose profile is named "youtube" and whose
    url is [youtube_id]. *)
Definition has_youtube_encoding (d : DB) (youtube_id : string) (v : Video) : Prop :=
  exists ev p,
    ev ∈ encoded_videos d /\ p ∈ profiles d
    /\ is_Some (video_pk v) /\ ev_video_id ev = video_pk v
    /\ is_Some (profile_pk p) /\ ev_profile_id ev = profile_pk p
    /\ profile_name p = "youtube" /\ url ev = youtube_id.

(** The pair the [unique_together] constraint ranges over. *)
Definition cv_key (r : CourseVideo) : string * option Z :=
  (course_id r, cv_video_id r).

(** A table as the database keeps it: no pair twice, no key twice, every
    row keyed. *)
Record CourseVideo_table_ok (rows : list CourseVideo) : Prop := {
  keys_unique : NoDup (map cv_key rows);
  pks_unique : NoDup (map cv_pk rows);
  pks_set : Forall (fun r => is_Some (cv_pk r)) rows
}.

(** The action touches neither the open streams nor the clock. *)
Definition keeps {A} (m : Act A) : Prop :=
  forall w, streams (snd (m w)) = streams w /\ clock (snd (m w)) = clock w.

(** The set [[a-zA-Z0-9\-_]] of [URL_REGEX]. *)
Definition url_ranges : list (ascii * ascii) :=
  [("a", "z"); ("A", "Z"); ("0", "9"); ("-", "-"); ("_", "_")]%char.

Definition url_char (c : ascii) : Prop := Re.in_set url_ranges c = true.

(** Every position from [i] up to [j] of [s] holds a character of the set. *)
Definition in_class_between (ranges : list (ascii * ascii)) (s : list ascii)
    (i j : nat) : Prop :=
  forall t, (i <= t < j)%nat ->
    exists c, s !! t = Some c /\ Re.in_set ranges c = true.

(** * Sample worlds *)

Definition blank_course_kwargs : CourseVideoKwargs :=
  {| kw_course_id := None; kw_video := None; kw_is_hidden := None |}.

Definition quiet_world (d : DB) : World :=
  {| db := d; log := []; clock := fun n => 1000000 * Z.of_nat n; ticks := 0;
     files := ∅; streams := ∅ |}.

Definition lecture_video : Video :=
  {| video_pk := Some 1; video_created := Some 0; edx_video_id := "lecture-1";
     client_video_id := ""; duration := Some 12.5%float; status := "Uploading" |}.

Definition lecture_kwargs : CourseVideoKwargs :=
  {| kw_course_id := Some "course-v1:edX+Demo+2017";
     kw_video := Some lecture_video; kw_is_hidden := None |}.

Definition lecture_row : CourseVideo :=
  {| cv_pk := Some 1; course_id := "course-v1:edX+Demo+2017";
     cv_video_id := Some 1; is_hidden := false |}.

Definition one_video_db : DB :=
  {| profiles := []; videos := [lecture_video]; course_videos := [];
     encoded_videos := []; video_images := []; subtitles := [] |}.

Definition sjson_subtitle : Subtitle :=
  {| sub_pk := Some 1; sub_created := Some 0; sub_modified := Some 0;
     sub_video_id := Some 1; fmt := "sjson"; language := "en"; content := "" |}.

Definition srt_subtitle : Subtitle :=
  {| sub_pk := Some 2; sub_created := Some 0; sub_modified := Some 0;
     sub_video_id := Some 1; fmt := "srt"; language := "en"; content := "" |}.

Definition new_video : Video :=
  {| video_pk := None; video_created := None; edx_video_id := "intro-2";
     client_video_id := "intro.mp4"; duration := Some 3%float;
     status := "Uploading" |}.

Definition new_video_stored : Video :=
  {| video_pk := Some 1; video_created := Some 0; edx_video_id := "intro-2";
     client_video_id := "intro.mp4"; duration := Some 3%float;
     status := "Uploading" |}.

(** The stored lecture with another client file name and the same status. *)
Definition renamed_lecture : Video :=
  {| video_pk := Some 1; video_created := Some 0; edx_video_id := "lecture-1";
     client_video_id := "lecture-final.mp4"; duration := Some 12.5%float;
     status := "Uploading" |}.

Definition flat_path (_ : VideoImage) (name : string) : string := name.

(** A backend in the manner of [FileSystemStorage], overwriting: it creates
    the file under the name asked for, then copies the content; a closed
    stream refuses the read and the empty file stays. *)
Definition overwriting_storage (fs : gmap string (list Byte.byte)) (name : string)
    (content : UploadedFile) : Result string * gmap string (list Byte.byte) :=
  if closed content then
    (Raise (ValueError "I/O operation on closed file"), <[name := []]> fs)
  else (Return name, <[name := file_bytes content]> fs).

Definition full_storage (fs : gmap string (list Byte.byte)) (name : string)
    (content : UploadedFile) : Result string * gmap string (list Byte.byte) :=
  (Raise (IOError "No space left on device"), fs).

(** A server on UTC, and one five hours west of it. *)
Definition utc : Z -> Z := fixed_offset_mktime 0.

Definition five_hours_west : Z -> Z := fixed_offset_mktime (-18000).

Definition upload (b : Byte.byte) : UploadedFile :=
  {| file_bytes := [b]; closed := false |}.

Definition old_image : VideoImage :=
  {| vi_pk := Some 1; vi_created := Some 50000000; vi_modified := Some 50000000;
     vi_course_video_id := Some 1; image := None |}.

Definition attach_db (images : list VideoImage) : DB :=
  {| profiles := []; videos := [lecture_video]; course_videos := [lecture_row];
     encoded_videos := []; video_images := images; subtitles := [] |}.

Definition attach_world (images : list VideoImage) : World :=
  {| db := attach_db images; log := [];
     clock := fun n => 100000000 + 100000 * Z.of_nat n; ticks := 0;
     files := ∅;
     streams := {[ 1%nat := upload Byte.x01; 2%nat := upload Byte.x02 ]} |}.

Definition unsaved_course : CourseVideo :=
  {| cv_pk := None; course_id := "course-v1:edX+Demo+2017"; cv_video_id := Some 1;
     is_hidden := false |}.

Definition created_image : VideoImage :=
  {| vi_pk := Some 1; vi_created := Some 100000000; vi_modified := Some 100400000;
     vi_course_video_id := Some 1; image := Some "100.png" |}.

Definition replaced_image : VideoImage :=
  {| vi_pk := Some 1; vi_created := Some 100000000; vi_modified := Some 100600000;
     vi_course_video_id := Some 1; image := Some "100.png" |}.

Definition first_attach : Result (VideoImage * bool) * World :=
  VideoImage_create_or_update utc flat_path overwriting_storage lecture_row 1 "a.png"
    (attach_world []).

Definition second_attach : Result (VideoImage * bool) * World :=
  VideoImage_create_or_update utc flat_path overwriting_storage lecture_row 2 "b.png"
    (snd first_attach).

Definition youtube_profile : Profile :=
  {| profile_pk := Some 1; profile_name := "youtube" |}.

Definition mobile_profile : Profile :=
  {| profile_pk := Some 2; profile_name := "mobile" |}.

Definition youtube_encoding : EncodedVideo :=
  {| ev_pk := Some 1; ev_created := Some 0; ev_modified := Some 0;
     url := "abc123"; file_size := 0; bitrate := 0;
     ev_profile_id := Some 1; ev_video_id := Some 1 |}.

Definition mobile_encoding : EncodedVideo :=
  {| ev_pk := Some 2; ev_created := Some 0; ev_modified := Some 0;
     url := "abc123"; file_size := 1024; bitrate := 300;
     ev_profile_id := Some 2; ev_video_id := Some 2 |}.

Definition other_video : Video :=
  {| video_pk := Some 2; video_created := Some 0; edx_video_id := "lecture-2";
     client_video_id := ""; duration := Some 1%float; status := "Complete" |}.

Definition youtube_db : DB :=
  {| profiles := [youtube_profile; mobile_profile];
     videos := [lecture_video; other_video];
     course_videos := [lecture_row];
     encoded_videos := [youtube_encoding; mobile_encoding];
     video_images := []; subtitles := [srt_subtitle] |}.

Definition linked_db : DB :=
  {| profiles := []; videos := [lecture_video]; course_videos := [lecture_row];
     encoded_videos := []; video_images := []; subtitles := [] |}.

Definition duplicate_link : CourseVideo :=
  {| cv_pk := None; course_id := "course-v1:edX+Demo+2017";
     cv_video_id := Some 1; is_hidden := true |}.

(** * Vocabulary of the further properties *)

(** Text [URL_REGEX] lets through: characters of the set, then at most one
    newline. *)
Definition url_text (text : string) : Prop :=
  exists body,
    Forall url_char body
    /\ (list_ascii_of_string text = body
        \/ list_ascii_of_string text = (body ++ [Re.newline])%list).

(** The character occurs in the text; the text is made of dots only. *)
Definition has_char (c : ascii) (s : string) : Prop := c ∈ list_ascii_of_string s.

Definition only_dots (s : string) : Prop :=
  Forall (fun c => c = "."%char) (list_ascii_of_string s).

(** What [full_clean] asks of a [CourseVideo]: a course id that is not blank
    and fits its column, a video that is stored, and a (course id, video)
    pair no other row holds. *)
Definition valid_course_video (d : DB) (c : CourseVideo) : Prop :=
  course_id c <> ""
  /\ (String.length (course_id c) <= 255)%nat
  /\ (exists k, cv_video_id c = Some k /\ k ∈ table_pks d MVideo)
  /\ forall q, q ∈ course_videos d -> same_pk q c = false -> cv_key q <> cv_key c.

(** * Further sample worlds *)

Definition lecture_first_call : Result (option CourseVideo * bool) * World :=
  get_or_create_with_validation (M := CourseVideo) lecture_kwargs
    (quiet_world one_video_db).

(** The record [get_or_create] makes for the lecture's course video in
    [attach_world []]: created at the first clock reading, stamped by its
    insert at the third. *)
Definition fresh_image : VideoImage :=
  {| vi_pk := Some 1; vi_created := Some 100000000; vi_modified := Some 100200000;
     vi_course_video_id := Some 1; image := None |}.

Definition fresh_image_run : Result (VideoImage * bool) * World :=
  objects_get_or_create (M := VideoImage) lecture_row (attach_world []).

(** A second profile asking for the name "youtube". *)
Definition second_youtube_profile : Profile :=
  {| profile_pk := None; profile_name := "youtube" |}.

(** Attaching to the lecture's course video when it already has a record. *)
Definition replacing_attach : Result (VideoImage * bool) * World :=
  VideoImage_create_or_update utc flat_path overwriting_storage lecture_row 1 "a.png"
    (attach_world [old_image]).

Definition replaced_old_image : VideoImage :=
  {| vi_pk := Some 1; vi_created := Some 50000000; vi_modified := Some 100100000;
     vi_course_video_id := Some 1; image := Some "50.png" |}.

(** The encoding is one [by_youtube_id] asks for: its url is the id, its
    video is stored and its profile is stored under the name "youtube". *)
Definition youtube_match (d : DB) (youtube_id : string) (ev : EncodedVideo) : bool :=
  bool_decide (url ev = youtube_id)
  && existsb (fun v => opt_Z_eqb (ev_video_id ev) (video_pk v)) (videos d)
  && existsb (fun p => opt_Z_eqb (ev_profile_id ev) (profile_pk p)
                       && bool_decide (profile_name p = "youtube"))
       (profiles d).

(** Two youtube encodings of the lecture under one url. *)
Definition second_youtube_encoding : EncodedVideo :=
  {| ev_pk := Some 3; ev_created := Some 0; ev_modified := Some 0;
     url := "abc123"; file_size := 2048; bitrate := 600;
     ev_profile_id := Some 1; ev_video_id := Some 1 |}.

Definition twice_encoded_db : DB :=
  {| profiles := [youtube_profile; mobile_profile];
     videos := [lecture_video; other_video];
     course_videos := [lecture_row];
     encoded_videos := [youtube_encoding; mobile_encoding; second_youtube_encoding];
     video_images := []; subtitles := [] |}.

(** * Tables under their declared constraints *)

(** Two instances agree on every field of a uniqueness check. *)
Definition agree {M} {HM : Model M} (check : list string) (a b : M) : bool :=
  forallb (fun n => value_eqb (getattr a n) (getattr b n)) check.

(** A table as its constraints keep it: every row keyed, no key twice, and
    no two rows with different keys agreeing on a unique field or on a
    [unique_together] tuple. *)
Record table_ok {M} {HM : Model M} (rows : list M) : Prop := {
  table_pks_unique : NoDup (map pk rows);
  table_pks_set : Forall (fun r => is_Some (pk r)) rows;
  table_unique : forall check a b,
    check ∈ unique_checks -> a ∈ rows -> b ∈ rows ->
    same_pk a b = false -> agree check a b = false
}.

(** The action keeps a property of the database, however it ends. *)
Definition db_inv {A} (I : DB -> Prop) (m : Act A) : Prop :=
  forall w, I (db w) -> I (db (snd (m w))).

(** * Properties *)

(** ** Actions *)

Lemma bind_Return {A B} (m : Act A) (k : A -> Act B) w a w' :
  m w = (Return a, w') -> bind m k w = k a w'.
Proof. unfold bind. by intros ->. Qed.

Lemma bind_Raise {A B} (m : Act A) (k : A -> Act B) w e w' :
  m w = (Raise e, w') -> bind m k w = (Raise e, w').
Proof. unfold bind. by intros ->. Qed.

Lemma set_ticks_same (w : World) : set_ticks (ticks w) w = w.
Proof. by destruct w. Qed.

(** The constructor's clock readings: the next [n] values of the clock. *)
Lemma nows_spec (n : nat) (w : World) :
  nows n w = (Return (map (clock w) (seq (ticks w) n)),
              set_ticks (ticks w + n) w).
Proof.
  revert w. induction n as [|n IH]; intros w; simpl.
  - unfold ret. by rewrite Nat.add_0_r, set_ticks_same.
  - unfold bind, now. rewrite IH. destruct w as [d l c t fs ss].
    unfold ret, set_ticks; simpl.
    by replace (S (t + n)) with (t + S n)%nat by lia.
Qed.

Lemma construct_spec {M} {HM : Model M} {HI : ModelInit M} (kwargs : Kwargs) (w : World) :
  construct kwargs w =
  (Return (init kwargs (map (clock w) (seq (ticks w) default_clock_reads))),
   set_ticks (ticks w + default_clock_reads) w).
Proof. unfold construct, bind. by rewrite nows_spec. Qed.

(** ** Validation *)

(** A field that fails cleaning is in the error dict of [clean_fields], with
    the codes it failed on. *)
Lemma clean_fields_loop_reports {M} {HM : Model M} (d : DB) (self : M)
    (fs : list Field) (f : Field) :
  f ∈ fs -> field_errors d self f <> [] ->
  (name f, field_errors d self f) ∈ clean_fields_loop d self fs.
Proof.
  intros Hin Herr. induction fs as [|g fs IH]; [by apply elem_of_nil in Hin|].
  apply elem_of_cons in Hin as [<-|Hin]; simpl.
  - destruct (field_errors d self f) eqn:E; [done|]. by left.
  - destruct (field_errors d self g); [by apply IH|]. right. by apply IH.
Qed.

Lemma full_clean_raises {M} {HM : Model M} (adding : bool) (self : M)
    (w : World) (f : Field) :
  f ∈ meta_fields -> field_errors (db w) self f <> [] ->
  exists errors,
    full_clean adding self w = (Raise (ValidationError errors), w)
    /\ (name f, field_errors (db w) self f) ∈ errors.
Proof.
  intros Hin Herr.
  pose proof (clean_fields_loop_reports (db w) self meta_fields f Hin Herr) as Hrep.
  unfold full_clean, bind, get_db.
  fold (clean_fields (db w) self) in Hrep.
  set (errs := (clean_fields (db w) self ++ _)%list).
  assert (Hin' : (name f, field_errors (db w) self f) ∈ errs)
    by (apply elem_of_app; by left).
  exists errs. split; [|done].
  destruct errs; [by apply elem_of_nil in Hin'|done].
Qed.

(** The declared rules at work on [Video]: the character class on
    [edx_video_id], the minimum on [duration], the required [status]. *)
Example full_clean_reports_each_rule :
  fst (full_clean true
         {| video_pk := None; video_created := None; edx_video_id := "a b";
            client_video_id := ""; duration := Some (-3.5)%float; status := "" |}
         (quiet_world empty_db))
  = Raise (ValidationError [("edx_video_id", ["invalid edx_video_id"]);
                            ("duration", ["min_value"]);
                            ("status", ["blank"])]).
Proof. reflexivity. Qed.

(** C2. When some declared field of the candidate fails its cleaning rule
    (required, regex, minimum value, ...), [create_with_validation] raises a
    [ValidationError] whose error dict names that field, and running the
    call leaves the database, the stored files and the log exactly as they
    were: validation comes before the write and the write is never reached. *)
Theorem create_with_validation_invalid {M} {HM : Model M} {HI : ModelInit M}
    (kwargs : Kwargs) (w : World) (f : Field) :
  let candidate :=
    init kwargs (map (clock w) (seq (ticks w) default_clock_reads)) in
  f ∈ meta_fields ->
  field_errors (db w) candidate f <> [] ->
  exists errors w',
    create_with_validation kwargs w = (Raise (ValidationError errors), w')
    /\ (name f, field_errors (db w) candidate f) ∈ errors
    /\ is_integrity_error (ValidationError errors) = false
    /\ db w' = db w /\ files w' = files w /\ log w' = log w.
Proof.
  intros candidate Hin Herr.
  set (w1 := set_ticks (ticks w + default_clock_reads) w).
  destruct (full_clean_raises true candidate w1 f Hin Herr) as (errors & Hfc & Hmem).
  exists errors, w1. split; [|by repeat split].
  unfold create_with_validation.
  rewrite (bind_Return _ _ _ _ _ (construct_spec kwargs w)).
  fold candidate w1. by rewrite (bind_Raise _ _ _ _ _ Hfc).
Qed.

Lemma create_with_validation_invalid_witness :
  exists errors w',
    create_with_validation (M := CourseVideo) blank_course_kwargs
      (quiet_world empty_db)
    = (Raise (ValidationError errors), w')
    /\ ("course_id", ["blank"]) ∈ errors
    /\ is_integrity_error (ValidationError errors) = false
    /\ db w' = empty_db /\ files w' = ∅ /\ log w' = [].
Proof.
  apply (create_with_validation_invalid (HI := CourseVideo_ModelInit)
           blank_course_kwargs
           (quiet_world empty_db) (CharField "course_id" 255 false false [])).
  - vm_compute. right. left.
  - vm_compute. discriminate.
Defined.

(** ** get_or_create_with_validation *)

Lemma objects_get_spec {M} {HM : Model M} {HI : ModelInit M}
    (kwargs : Kwargs) (w : World) :
  objects_get kwargs w =
  match List.filter (lookup kwargs) (objects (db w)) with
  | [] => (Raise DoesNotExist, w)
  | [r] => (Return r, w)
  | _ => (Raise MultipleObjectsReturned, w)
  end.
Proof.
  unfold objects_get, bind, get_db.
  by destruct (List.filter (lookup kwargs) (objects (db w))) as [|r [|r' rs]].
Qed.

(** When exactly one row matches the keywords, that row comes back with
    [created = False] and nothing is written. *)
Lemma get_or_create_with_validation_existing {M} {HM : Model M} {HI : ModelInit M}
    (kwargs : Kwargs) (w : World) (row : M) :
  List.filter (lookup kwargs) (objects (db w)) = [row] ->
  get_or_create_with_validation kwargs w = (Return (Some row, false), w).
Proof.
  intros Hrow. unfold get_or_create_with_validation, try_except, bind.
  by rewrite objects_get_spec, Hrow.
Qed.

(** Whenever the call answers [created = True], the object of the pair is
    [None]: [create_with_validation] has no value to hand back. *)
Lemma get_or_create_with_validation_created {M} {HM : Model M} {HI : ModelInit M}
    (kwargs : Kwargs) (w w' : World) (obj : option M) :
  get_or_create_with_validation kwargs w = (Return (obj, true), w') ->
  obj = None /\ List.filter (lookup kwargs) (objects (db w)) = [].
Proof.
  unfold get_or_create_with_validation, try_except, bind at 1.
  rewrite objects_get_spec.
  destruct (List.filter (lookup kwargs) (objects (db w))) as [|r [|r' rs]];
    simpl; unfold ret; try discriminate.
  unfold create_with_validation, bind.
  destruct (construct kwargs w) as [[c|e] w1]; [|discriminate].
  destruct (full_clean true c w1) as [[[]|e] w2]; [|discriminate].
  destruct (save c w2) as [[c'|e] w3]; [|discriminate].
  unfold ret. by intros [= <- _].
Qed.

(** C1, at a database that holds one video and no course link. The first
    call writes the row and answers [(None, True)], not the row; the second
    call with the same keywords answers [(row, False)] and the table still
    holds the row once. *)
Theorem get_or_create_with_validation_twice :
  let first := get_or_create_with_validation (M := CourseVideo) lecture_kwargs
                 (quiet_world one_video_db) in
  let second := get_or_create_with_validation (M := CourseVideo) lecture_kwargs
                  (snd first) in
  fst first = Return (None, true)
  /\ course_videos (db (snd first)) = [lecture_row]
  /\ fst second = Return (Some lecture_row, false)
  /\ course_videos (db (snd second)) = [lecture_row].
Proof. vm_compute. by repeat split. Qed.

(** ** The character-class pattern *)

Section StarOfSet.
Variable ranges : list (ascii * ascii).
Variable s : list ascii.

#[local] Abbreviation in_class := (in_class_between ranges s).

Lemma set_ends (i j : nat) :
  In j (Re.ends (Re.CharSet ranges) s i) <->
  j = S i /\ exists c, s !! i = Some c /\ Re.in_set ranges c = true.
Proof.
  simpl. destruct (s !! i) as [c|] eqn:E.
  - destruct (Re.in_set ranges c) eqn:Hc; simpl.
    + split; [intros [<-|[]]; eauto|intros [-> _]; by left].
    + split; [done|]. intros (_ & c' & [= <-] & ?). congruence.
  - split; [done|]. by intros (_ & c' & [=] & _).
Qed.

Lemma star_ends_spec (fuel i j : nat) :
  In j (Re.star_ends fuel (Re.ends (Re.CharSet ranges) s) i) <->
  (i <= j <= i + fuel)%nat /\ in_class i j.
Proof.
  revert i. induction fuel as [|fuel IH]; intros i.
  - simpl. split.
    + intros [<-|[]]. split; [lia|]. intros t Ht. lia.
    + intros [Hj _]. left. lia.
  - cbn [Re.star_ends]. split.
    + intros [<-|(k & [Hk Hlt]%filter_In & Hin)%in_flat_map].
      * split; [lia|]. intros t Ht. lia.
      * apply set_ends in Hk as (-> & c & Hc & Hset).
        apply IH in Hin as [Hj Hcls]. split; [lia|].
        intros t Ht. destruct (decide (t = i)) as [->|]; [eauto|].
        apply Hcls. lia.
    + intros [Hj Hcls]. destruct (decide (j = i)) as [->|Hne]; [by left|].
      right. apply in_flat_map. exists (S i). split.
      * apply filter_In. split; [|apply Nat.ltb_lt; lia].
        apply set_ends. split; [done|]. apply Hcls. lia.
      * apply IH. split; [lia|]. intros t Ht. apply Hcls. lia.
Qed.

End StarOfSet.

Lemma url_regex_compiles :
  Re.compile URL_REGEX =
  Some (Re.Cat Re.Caret
          (Re.Cat (Re.Star (Re.CharSet url_ranges)) (Re.Cat Re.Dollar Re.Eps))).
Proof. reflexivity. Qed.

Lemma nonempty_In {A} (l : list A) : l <> [] <-> exists x, In x l.
Proof.
  destruct l as [|x l]; split; try done.
  - by intros [x []].
  - intros _. exists x. by left.
Qed.

Lemma dollar_ends (s : list ascii) (j k : nat) :
  In k (Re.ends Re.Dollar s j) <->
  k = j /\ (j = List.length s \/ (S j = List.length s /\ s !! j = Some Re.newline)).
Proof.
  cbn [Re.ends]. destruct (j =? List.length s)%nat eqn:E1.
  - apply Nat.eqb_eq in E1. split; [intros [<-|[]]; eauto|intros [-> _]; by left].
  - apply Nat.eqb_neq in E1.
    destruct (S j =? List.length s)%nat eqn:E2; cbn [andb].
    + apply Nat.eqb_eq in E2. case_bool_decide as E3.
      * split; [intros [<-|[]]; eauto|intros [-> _]; by left].
      * split; [done|]. intros [_ [?|[_ ?]]]; done.
    + apply Nat.eqb_neq in E2. split; [done|]. intros [_ [?|[? _]]]; done.
Qed.

(** What [URL_REGEX] lets through: text made of the class characters only,
    with at most one newline after them. *)
Lemma URL_REGEX_validator_spec (message code text : string) :
  run_validator (RegexValidator URL_REGEX message code) (VStr text) = [] <->
  exists body,
    Forall url_char body
    /\ (list_ascii_of_string text = body
        \/ list_ascii_of_string text = (body ++ [Re.newline])%list).
Proof.
  unfold run_validator. rewrite url_regex_compiles.
  set (r := Re.Cat _ _). 
  assert (Hs : Re.search r text = true <->
    exists j, in_class_between url_ranges (list_ascii_of_string text) 0 j
      /\ (j = List.length (list_ascii_of_string text)
          \/ (S j = List.length (list_ascii_of_string text)
              /\ list_ascii_of_string text !! j = Some Re.newline))).
  { unfold Re.search. set (s := list_ascii_of_string text).
    rewrite existsb_exists. split.
    - intros (i & _ & Hne). apply negb_true_iff, bool_decide_eq_false in Hne.
      apply nonempty_In in Hne as [k Hk]. subst r. cbn [Re.ends] in Hk.
      apply in_flat_map in Hk as (i' & Hi' & Hk).
      destruct (i =? 0)%nat eqn:Ei; [|done]. destruct Hi' as [<-|[]].
      apply Nat.eqb_eq in Ei as ->.
      apply in_flat_map in Hk as (j & Hj & Hk).
      apply in_flat_map in Hk as (k' & Hk' & _).
      apply star_ends_spec in Hj as [_ Hcls].
      apply dollar_ends in Hk' as [_ Hd]. eauto.
    - intros (j & Hcls & Hd). exists 0%nat. split; [apply in_seq; lia|].
      apply negb_true_iff, bool_decide_eq_false, nonempty_In. exists j.
      subst r. cbn [Re.ends]. apply in_flat_map. exists 0%nat. split; [by left|].
      apply in_flat_map. exists j. split.
      + apply star_ends_spec. split; [|done].
        destruct Hd as [->|[Hd _]]; lia.
      + apply in_flat_map. exists j. split; [by apply dollar_ends|by left]. }
  destruct (Re.search r text) eqn:E.
  - split; [intros _|done]. destruct (proj1 Hs eq_refl) as (j & Hcls & Hd).
    exists (take j (list_ascii_of_string text)). split.
    + apply Forall_forall. intros c [t Ht]%list_elem_of_lookup_1.
      apply lookup_take_Some in Ht as [Ht Hlt].
      destruct (Hcls t) as (c' & Hc' & Hset); [lia|]. congruence.
    + destruct Hd as [->|[Hlen Hnl]]; [left; by rewrite firstn_all|].
      right. rewrite <- (take_drop j (list_ascii_of_string text)) at 1. f_equal.
      apply list_eq. intros [|t]; simpl.
      * by rewrite lookup_drop, Nat.add_0_r.
      * rewrite lookup_drop. apply lookup_ge_None. lia.
  - split; [done|]. intros (body & Hbody & Htext). exfalso.
    assert (false = true); [|done]. apply Hs.
    exists (List.length body). split.
    + intros t Ht. destruct (lookup_lt_is_Some_2 body t) as [c Hc]; [lia|].
      exists c. split.
      * destruct Htext as [->| ->]; [done|]. by apply lookup_app_l_Some.
      * by eapply Forall_lookup_1 in Hbody.
    + destruct Htext as [->| ->]; [by left|]. right.
      rewrite length_app. simpl. split; [lia|].
      by rewrite lookup_app_r, Nat.sub_diag by lia.
Qed.

(** C10. [URL_REGEX] compiles to a starred class between the two anchors and
    matches the empty string, so the regex validator passes [''].  On
    [profile_name] and [edx_video_id] the empty string is turned down by the
    required-field rule alone (code [blank], raised by [Field.validate]
    before any validator runs); with the same validators on a field declared
    [blank=True], the empty string is clean. *)
Theorem URL_REGEX_accepts_empty :
  (exists r, Re.compile URL_REGEX = Some r /\ Re.search r "" = true)
  /\ (forall message code,
        run_validator (RegexValidator URL_REGEX message code) (VStr "") = [])
  /\ (forall d, field_clean d profile_name_field (VStr "") = ["blank"])
  /\ (forall d, field_clean d edx_video_id_field (VStr "") = ["blank"])
  /\ (forall d, field_clean d (with_blank profile_name_field) (VStr "") = [])
  /\ (forall d, field_clean d (with_blank edx_video_id_field) (VStr "") = []).
Proof.
  split; [eexists; split; reflexivity|].
  repeat split; reflexivity.
Qed.

(** ** Subtitle.content_type *)

(** C7. The content type of a subtitle is "application/json" when its format
    is exactly "sjson" and "text/plain" for every other format.  The property
    is a function of the record alone: it yields a string and has no world
    to change. *)
Theorem content_type_spec (s : Subtitle) :
  (fmt s = "sjson" -> content_type s = "application/json")
  /\ (fmt s <> "sjson" -> content_type s = "text/plain").
Proof.
  unfold content_type. split; intros Hfmt; case_bool_decide; congruence.
Qed.

Lemma content_type_spec_witness :
  content_type sjson_subtitle = "application/json"
  /\ content_type srt_subtitle = "text/plain".
Proof.
  split.
  - apply (proj1 (content_type_spec sjson_subtitle)). reflexivity.
  - apply (proj2 (content_type_spec srt_subtitle)). discriminate.
Defined.

(** ** Writing rows *)

Section Writes.
Context {M : Type} {HM : Model M}.

Lemma db_insert_inv (self : M) (w w' : World) (r : Result M) :
  db_insert self w = (r, w') ->
  let rows := objects (db w) in
  (r = Return (keyed rows self)
   /\ existsb (fun x => same_pk x (keyed rows self)) rows = false
   /\ db_constraint_violation rows (keyed rows self) = None
   /\ w' = set_db (set_objects (rows ++ [keyed rows self])%list (db w)) w)
  \/ (exists c, r = Raise (IntegrityError c) /\ w' = w).
Proof.
  unfold db_insert, bind, get_db, put_db, raise, ret. cbv beta iota.
  fold (keyed (objects (db w)) self).
  destruct (existsb _ _) eqn:Hpk; [intros [= <- <-]; right; eauto|].
  destruct (db_constraint_violation _ _) as [c|] eqn:Hc;
    intros [= <- <-]; [right; eauto|]. by left.
Qed.

Lemma db_update_inv (self : M) (w w' : World) (r : Result M) :
  db_update self w = (r, w') ->
  let rows := objects (db w) in
  (r = Return self
   /\ db_constraint_violation rows self = None
   /\ w' = set_db (set_objects (replace_row self rows) (db w)) w)
  \/ (exists c, r = Raise (IntegrityError c) /\ w' = w).
Proof.
  unfold db_update, bind, get_db, put_db, raise, ret. cbv beta iota.
  destruct (db_constraint_violation _ _) as [c|] eqn:Hc;
    intros [= <- <-]; [right; eauto|]. by left.
Qed.

Lemma replace_row_elem (self : M) (rows : list M) :
  existsb (fun r => same_pk r self) rows = true ->
  self ∈ replace_row self rows.
Proof.
  intros (r & Hr & Hpk)%existsb_exists. apply list_elem_of_In in Hr.
  unfold replace_row. apply list_elem_of_fmap. exists r. by rewrite Hpk.
Qed.

End Writes.

(** ** The post-save receiver *)

Lemma video_status_update_callback_spec (video : Video) (created : bool) (w : World) :
  video_status_update_callback video created w =
  (Return tt,
   set_log (log w ++ [info (if created then created_message video
                            else status_changed_message video)])%list w).
Proof. by destruct created. Qed.

Lemma Video_save_log (v v' : Video) (w w' : World) :
  save v w = (Return v', w') ->
  let created := negb (video_row_exists v (db w)) in
  edx_video_id v' = edx_video_id v /\ status v' = status v
  /\ v' ∈ videos (db w')
  /\ log w' = (log w ++ [info (if created then created_message v
                            else status_changed_message v)])%list.
Proof.
  assert (Hins : forall u w0 r w1,
    (self <- pre_save true u ;; self <- db_insert self ;;
     post_save self true ;;; ret self) w0 = (Return r, w1) ->
    edx_video_id r = edx_video_id u /\ status r = status u
    /\ r ∈ videos (db w1)
    /\ log w1 = (log w0 ++ [info (created_message u)])%list).
  { intros u w0 r w1. cbn [pre_save post_save Video_Model].
    unfold Video_pre_save, bind at 1 2, now, ret at 1.
    cbv beta iota. unfold bind at 1.
    destruct (db_insert _ _) as [r' w2] eqn:Hin.
    apply db_insert_inv in Hin as [(-> & _ & _ & ->)|(c & -> & ->)];
      [|simpl; discriminate].
    unfold bind. rewrite video_status_update_callback_spec. unfold ret.
    intros [= <- <-]. simpl.
    assert (Hk : forall rows x, edx_video_id (keyed rows x) = edx_video_id x
                                /\ status (keyed rows x) = status x).
    { intros rows x. unfold keyed. simpl. by destruct (video_pk x). }
    destruct (Hk (videos (db w0)) (Video_set_created (Some (clock w0 (ticks w0))) u))
      as [He Hs].
    split; [done|]. split; [done|]. split.
    - apply elem_of_app. right. by left.
    - unfold created_message. by rewrite He, Hs. }
  unfold save, save_base, video_row_exists.
  unfold bind at 1. unfold get_db. cbv beta iota.
  change (pk v) with (video_pk v).
  destruct (video_pk v) as [k|] eqn:Hk; cbv beta iota.
  - unfold negb at 1. unfold bind at 1.
    change (pre_save false v w) with (Return v, w). cbv beta iota.
    change (@objects Video _ (db w)) with (videos (db w)).
    destruct (existsb (fun r => same_pk r v) (videos (db w))) eqn:Hex.
    + unfold bind at 1.
      destruct (db_update v w) as [r w1] eqn:Hup.
      apply db_update_inv in Hup as [(-> & Hc & ->)|(c & -> & ->)];
        [|simpl; discriminate].
      unfold bind. change (post_save v false) with (video_status_update_callback v false).
      rewrite video_status_update_callback_spec. unfold ret.
      intros [= <- <-]. simpl. split; [done|]. split; [done|].
      split; [|done]. by apply (replace_row_elem (M := Video)).
    + intros Hrun. by apply Hins in Hrun.
  - intros Hrun. apply Hins in Hrun. simpl.
    assert (existsb (fun r => same_pk r v) (videos (db w)) = false) as ->; [|done].
    apply not_true_is_false. intros (r & _ & Hr)%existsb_exists.
    unfold same_pk in Hr. simpl in Hr. rewrite Hk in Hr. by destruct (video_pk r).
Qed.

(** C6. A [Video.save()] that completes has written the row and then had the
    receiver append exactly one record of level INFO to the log: after an
    insertion the "created" line with the video's [edx_video_id] and status,
    after an update the "status changed" line with the status the instance
    holds now and its [edx_video_id], and nothing about the stored status. *)
Theorem video_save_logs (v v' : Video) (w w' : World) :
  save v w = (Return v', w') ->
  v' ∈ videos (db w')
  /\ log w' =
     (log w ++ [{| levelname := "INFO";
                   message := if video_row_exists v (db w)
                              then status_changed_message v
                              else created_message v |}])%list.
Proof.
  intros (_ & _ & Hrow & Hlog)%Video_save_log. split; [done|].
  rewrite Hlog. unfold info. by destruct (video_row_exists v (db w)).
Qed.

(** C9. Saving an instance whose row is already stored logs the "status
    changed" line whatever the stored row holds: the receiver looks at the
    [created] flag only, so the line appears also when the status saved is
    the status that was stored. *)
Theorem status_changed_logged_on_every_update (old v v' : Video) (w w' : World) :
  old ∈ videos (db w) ->
  same_pk old v = true ->
  status old = status v ->
  save v w = (Return v', w') ->
  log w' =
  (log w ++ [{| levelname := "INFO";
                message := "VAL: Status changed to [" ++ status old
                           ++ "] for video [" ++ edx_video_id v ++ "]" |}])%list
  /\ forall video w0,
       video_status_update_callback video false w0 =
       (Return tt, set_log (log w0 ++ [info (status_changed_message video)])%list w0).
Proof.
  intros Hold Hpk Hstatus (_ & _ & _ & Hlog)%Video_save_log.
  split; [|intros; apply video_status_update_callback_spec].
  rewrite Hlog. unfold video_row_exists.
  assert (existsb (fun r => same_pk r v) (videos (db w)) = true) as ->.
  { apply existsb_exists. exists old. split; [by apply list_elem_of_In|done]. }
  unfold info, status_changed_message. simpl. by rewrite Hstatus.
Qed.

Lemma video_save_logs_witness :
  new_video_stored ∈ videos (db (snd (save new_video (quiet_world empty_db))))
  /\ log (snd (save new_video (quiet_world empty_db))) =
     [{| levelname := "INFO";
         message := "VAL: Video created with id [intro-2] and status [Uploading]" |}].
Proof.
  apply (video_save_logs new_video new_video_stored (quiet_world empty_db)
           (snd (save new_video (quiet_world empty_db)))).
  vm_compute. reflexivity.
Defined.

Lemma status_changed_logged_on_every_update_witness :
  log (snd (save renamed_lecture (quiet_world one_video_db))) =
  [{| levelname := "INFO";
      message := "VAL: Status changed to [Uploading] for video [lecture-1]" |}].
Proof.
  apply (status_changed_logged_on_every_update lecture_video renamed_lecture
           renamed_lecture (quiet_world one_video_db)
           (snd (save renamed_lecture (quiet_world one_video_db)))).
  - vm_compute. left.
  - reflexivity.
  - reflexivity.
  - vm_compute. reflexivity.
Defined.

(** ** Video.by_youtube_id *)

Lemma opt_Z_eqb_true (a b : option Z) :
  opt_Z_eqb a b = true <-> is_Some a /\ a = b.
Proof.
  destruct a as [x|], b as [y|]; simpl.
  - rewrite Z.eqb_eq. split; [intros ->; eauto|by intros [_ [= ->]]].
  - split; [done|by intros [_ [=]]].
  - split; [done|by intros [[? [=]] _]].
  - split; [done|by intros [[? [=]] _]].
Qed.

Lemma related_rows_elem {A} (fk : A -> option Z) (k : option Z)
    (rows : list A) (x : A) :
  is_Some k ->
  x ∈ List.filter (fun r => opt_Z_eqb (fk r) k) rows <-> x ∈ rows /\ fk x = k.
Proof.
  intros Hk. rewrite list_elem_of_In, filter_In, <- list_elem_of_In, opt_Z_eqb_true.
  split; [by intros (? & _ & ?)|]. intros [? E]. rewrite E. by repeat split.
Qed.

Lemma youtube_filter_elem (d : DB) (youtube_id : string) (v : Video) :
  v ∈ youtube_filter d youtube_id <->
  v ∈ videos d /\ has_youtube_encoding d youtube_id v.
Proof.
  unfold youtube_filter, has_youtube_encoding. rewrite list_elem_of_bind. split.
  - intros (v0 & (ev & (p & Hin & Hp)%list_elem_of_bind & Hev)%list_elem_of_bind & Hv).
    destruct (opt_Z_eqb (ev_video_id ev) (video_pk v0)
              && opt_Z_eqb (ev_profile_id ev) (profile_pk p)
              && bool_decide (profile_name p = "youtube")
              && bool_decide (url ev = youtube_id)) eqn:Hc;
      [|by apply elem_of_nil in Hin].
    apply list_elem_of_singleton in Hin as ->.
    apply andb_true_iff in Hc as [[[H1 H2]%andb_true_iff H3]%andb_true_iff H4].
    apply opt_Z_eqb_true in H1 as [Hs1 E1]. apply opt_Z_eqb_true in H2 as [Hs2 E2].
    apply bool_decide_eq_true in H3. apply bool_decide_eq_true in H4.
    split; [done|]. exists ev, p. rewrite <- E1, <- E2. by repeat split.
  - intros (Hv & ev & p & Hev & Hp & Hs1 & E1 & Hs2 & E2 & Hn & Hu).
    exists v. split; [|done]. apply list_elem_of_bind. exists ev. split; [|done].
    apply list_elem_of_bind. exists p. split; [|done].
    assert (opt_Z_eqb (ev_video_id ev) (video_pk v) = true) as ->
      by (apply opt_Z_eqb_true; rewrite E1; by split).
    assert (opt_Z_eqb (ev_profile_id ev) (profile_pk p) = true) as ->
      by (apply opt_Z_eqb_true; rewrite E2; by split).
    rewrite !bool_decide_eq_true_2 by done. by left.
Qed.

(** C3. [by_youtube_id] is total. A prefetched video is in the result exactly
    when its video is stored and has an encoding whose profile is named
    "youtube" and whose url is the id asked for; it then carries all the
    encodings, course links and subtitles stored for that video.  When no
    stored video has such an encoding the result is the empty sequence. *)
Theorem Video_by_youtube_id_spec (youtube_id : string) (d : DB) :
  (forall pv,
     pv ∈ Video_by_youtube_id youtube_id d <->
     exists v, v ∈ videos d /\ has_youtube_encoding d youtube_id v
               /\ pv = prefetch_related d v)
  /\ (forall pv, pv ∈ Video_by_youtube_id youtube_id d ->
        (forall ev, ev ∈ pv_encoded_videos pv <->
                    ev ∈ encoded_videos d /\ ev_video_id ev = video_pk (pv_video pv))
        /\ (forall cv, cv ∈ pv_courses pv <->
                    cv ∈ course_videos d /\ cv_video_id cv = video_pk (pv_video pv))
        /\ (forall s, s ∈ pv_subtitles pv <->
                    s ∈ subtitles d /\ sub_video_id s = video_pk (pv_video pv)))
  /\ ((forall v, v ∈ videos d -> ~ has_youtube_encoding d youtube_id v) ->
      Video_by_youtube_id youtube_id d = []).
Proof.
  assert (Hmem : forall pv,
     pv ∈ Video_by_youtube_id youtube_id d <->
     exists v, v ∈ videos d /\ has_youtube_encoding d youtube_id v
               /\ pv = prefetch_related d v).
  { intros pv. unfold Video_by_youtube_id.
    rewrite list_elem_of_In, in_map_iff. split.
    - intros (v & <- & [Hv Hy]%list_elem_of_In%youtube_filter_elem). eauto.
    - intros (v & Hv & Hy & ->). exists v. split; [done|].
      by apply list_elem_of_In, youtube_filter_elem. }
  split; [done|]. split.
  - intros pv (v & Hv & (ev0 & p & _ & _ & Hs & _) & ->)%Hmem. simpl.
    split; [|split]; intros x; by apply related_rows_elem.
  - intros Hnone. apply elem_of_nil_inv. intros pv Hin.
    apply Hmem in Hin as (v & Hv & Hy & _). by destruct (Hnone v Hv).
Qed.

(** ** CourseVideo: unique_together *)

Lemma CourseVideo_save_base_inv (force_insert : bool) (self : CourseVideo)
    (w w' : World) (r : Result CourseVideo) :
  save_base force_insert self w = (r, w') ->
  db_insert self w = (r, w')
  \/ (existsb (fun x => same_pk x self) (course_videos (db w)) = true
      /\ db_update self w = (r, w')).
Proof.
  unfold save_base, bind at 1, get_db. cbv beta iota.
  assert (Hins : (self0 <- pre_save true self;; self1 <- db_insert self0;;
                  post_save self1 true;;; ret self1) w = db_insert self w).
  { unfold bind. simpl. by destruct (db_insert self w) as [[a|e] w1]. }
  destruct (match pk self with Some _ => negb force_insert | None => false end).
  - unfold bind at 1. simpl pre_save. unfold ret at 1. cbv beta iota.
    change (@objects CourseVideo _ (db w)) with (course_videos (db w)).
    destruct (existsb _ _) eqn:Hex.
    + intros Hrun. right. split; [done|]. rewrite <- Hrun.
      unfold bind. simpl. by destruct (db_update self w) as [[a|e] w1].
    + rewrite Hins. by left.
  - rewrite Hins. by left.
Qed.

Lemma cv_conflict_spec (rows : list CourseVideo) (x : CourseVideo) :
  unique_conflict rows x ["course_id"; "video"] = true <->
  exists row, row ∈ rows /\ same_pk row x = false /\ cv_key row = cv_key x.
Proof.
  unfold unique_conflict. rewrite existsb_exists. 
  assert (Hkey : forall row,
    forallb (fun n => value_eqb (getattr row n) (getattr x n)) ["course_id"; "video"] = true
    <-> cv_key row = cv_key x).
  { intros row. unfold cv_key. simpl. unfold CourseVideo_getattr. simpl.
    rewrite andb_true_r, andb_true_iff, bool_decide_eq_true.
    destruct (cv_video_id row) as [a|], (cv_video_id x) as [b|]; simpl;
      rewrite ?Z.eqb_eq;
      (split; intros Hx; [destruct Hx as [E1 E2]; congruence | split; congruence]). }
  split.
  - intros (row & Hin & Hc). cbv beta in Hc.
    apply andb_true_iff in Hc as [Hpk Hk]. exists row.
    split; [by apply list_elem_of_In|]. split; [by apply negb_true_iff|by apply Hkey].
  - intros (row & Hin & Hpk & Hk). exists row. split; [by apply list_elem_of_In|].
    apply andb_true_iff. split; [by apply negb_true_iff|by apply Hkey].
Qed.

Lemma same_pk_true (a b : CourseVideo) :
  same_pk a b = true <-> is_Some (cv_pk a) /\ cv_pk a = cv_pk b.
Proof. apply opt_Z_eqb_true. Qed.

Lemma cv_no_violation (rows : list CourseVideo) (x : CourseVideo) :
  db_constraint_violation rows x = None ->
  unique_conflict rows x ["course_id"; "video"] = false.
Proof.
  unfold db_constraint_violation.
  destruct (List.filter _ meta_fields); [|discriminate].
  change (@unique_checks CourseVideo _) with [["course_id"; "video"]; ["id"]].
  simpl. by destruct (unique_conflict rows x ["course_id"; "video"]).
Qed.

Lemma cv_violation (rows : list CourseVideo) (x : CourseVideo) :
  unique_conflict rows x ["course_id"; "video"] = true ->
  is_Some (db_constraint_violation rows x)
  /\ (is_Some (cv_pk x) -> is_Some (cv_video_id x) ->
      db_constraint_violation rows x
      = Some "UNIQUE constraint failed: course_id, video").
Proof.
  intros Hc. split.
  - destruct (db_constraint_violation rows x) eqn:E; [done|].
    apply cv_no_violation in E. congruence.
  - intros [k Hk] [v Hv]. unfold db_constraint_violation.
    change (@unique_checks CourseVideo _) with [["course_id"; "video"]; ["id"]].
    simpl. unfold CourseVideo_getattr. simpl. rewrite Hk, Hv. simpl.
    by rewrite Hc.
Qed.

Lemma keyed_key (rows : list CourseVideo) (self : CourseVideo) :
  cv_key (keyed rows self) = cv_key self /\ is_Some (cv_pk (keyed rows self)).
Proof.
  unfold keyed. change (pk self) with (cv_pk self).
  destruct (cv_pk self) eqn:E; simpl; [by rewrite E|]. eauto.
Qed.

Lemma no_same_pk (rows : list CourseVideo) (x : CourseVideo) :
  existsb (fun r => same_pk r x) rows = false ->
  forall row, row ∈ rows -> same_pk row x = false.
Proof.
  intros Hex row Hin. apply not_true_is_false. intros Hpk.
  apply not_true_iff_false in Hex. apply Hex, existsb_exists.
  exists row. split; [by apply list_elem_of_In|done].
Qed.

Lemma replace_row_inv (self : CourseVideo) (rows : list CourseVideo) (r : CourseVideo) :
  r ∈ replace_row self rows ->
  (r = self /\ exists old, old ∈ rows /\ same_pk old self = true)
  \/ (r ∈ rows /\ same_pk r self = false).
Proof.
  unfold replace_row. rewrite list_elem_of_In, in_map_iff.
  intros (old & <- & Hold%list_elem_of_In).
  destruct (same_pk old self) eqn:E; [left|right]; eauto.
Qed.

Lemma replace_row_pks (self : CourseVideo) (rows : list CourseVideo) :
  map cv_pk (replace_row self rows) = map cv_pk rows.
Proof.
  induction rows as [|r rs IH]; simpl; [done|]. rewrite IH. f_equal.
  destruct (same_pk r self) eqn:E; [|done]. by apply same_pk_true in E as [_ ->].
Qed.

Lemma replace_row_keys (self : CourseVideo) (rows : list CourseVideo) :
  NoDup (map cv_pk rows) ->
  NoDup (map cv_key rows) ->
  (forall row, row ∈ rows -> same_pk row self = false -> cv_key row <> cv_key self) ->
  NoDup (map cv_key (replace_row self rows)).
Proof.
  induction rows as [|r rs IH]; intros Hpks Hkeys Hfree; simpl in *; [constructor|].
  apply NoDup_cons in Hpks as [Hpk Hpks]. apply NoDup_cons in Hkeys as [Hkey Hkeys].
  assert (Hfree' : forall row, row ∈ rs -> same_pk row self = false ->
                               cv_key row <> cv_key self)
    by (intros row Hrow; apply Hfree; by right).
  apply NoDup_cons. split; [|by apply IH].
  rewrite list_elem_of_In, in_map_iff.
  intros (r' & Hk & Hr'%list_elem_of_In%replace_row_inv).
  destruct (same_pk r self) eqn:E.
  - destruct Hr' as [[-> (old & Hold & Hpk')]|[Hin Hpk']].
    + apply Hpk. apply same_pk_true in E as [_ E].
      apply same_pk_true in Hpk' as [_ Hpk'].
      rewrite list_elem_of_In, in_map_iff. exists old.
      split; [congruence|by apply list_elem_of_In].
    + by apply (Hfree' r').
  - destruct Hr' as [[-> _]|[Hin _]].
    + apply (Hfree r); [by left|done|done].
    + apply Hkey. rewrite list_elem_of_In, in_map_iff. exists r'.
      split; [done|by apply list_elem_of_In].
Qed.

(** C8. Whatever [CourseVideo] is saved and however the save ends, the table
    still holds each (course_id, video) pair at most once; and when another
    row already holds the pair of the instance being saved, the save raises
    an [IntegrityError] and the world is left as it was, so the pair stays
    on one row. *)
Theorem CourseVideo_unique_together (force_insert : bool) (self : CourseVideo)
    (w w' : World) (r : Result CourseVideo) :
  CourseVideo_table_ok (course_videos (db w)) ->
  save_base force_insert self w = (r, w') ->
  CourseVideo_table_ok (course_videos (db w'))
  /\ (forall row,
        row ∈ course_videos (db w) -> same_pk row self = false ->
        course_id row = course_id self -> cv_video_id row = cv_video_id self ->
        (exists c, r = Raise (IntegrityError c)) /\ w' = w).
Proof.
  intros [Hkeys Hpks Hset] Hrun.
  set (rows := course_videos (db w)) in *.
  assert (Hconf : forall x row,
    row ∈ rows -> same_pk row x = false -> cv_key row = cv_key x ->
    db_constraint_violation rows x = None -> False).
  { intros x row Hin Hpk Hk Hv%cv_no_violation.
    apply not_true_iff_false in Hv. apply Hv, cv_conflict_spec. eauto. }
  apply CourseVideo_save_base_inv in Hrun as [Hrun|[Hex Hrun]].
  - apply db_insert_inv in Hrun as [(-> & Hfresh & Hv & ->)|(c & -> & ->)];
      [|split; [done|eauto]].
    fold rows in Hfresh, Hv |- *.
    destruct (keyed_key rows self) as [Hk Hsome].
    pose proof (no_same_pk _ _ Hfresh) as Hnone.
    split.
    + simpl. split.
      * rewrite map_app. simpl. apply NoDup_app. split; [done|].
        split; [|apply NoDup_singleton].
        intros k Hin ->%list_elem_of_singleton.
        apply list_elem_of_In, in_map_iff in Hin as (row & Hrk & Hrow%list_elem_of_In).
        by apply (Hconf (keyed rows self) row); [|apply Hnone|..].
      * rewrite map_app. simpl. apply NoDup_app. split; [done|].
        split; [|apply NoDup_singleton].
        intros k Hin ->%list_elem_of_singleton.
        apply list_elem_of_In, in_map_iff in Hin as (row & Hrk & Hrow%list_elem_of_In).
        assert (same_pk row (keyed rows self) = true); [|by rewrite Hnone in *].
        apply same_pk_true. split; [|done]. by rewrite Hrk.
      * apply Forall_app. split; [done|]. by apply Forall_singleton.
    + intros row Hin Hpk Hc Hvid. exfalso.
      apply (Hconf (keyed rows self) row); [done|by apply Hnone| |done].
      rewrite Hk. unfold cv_key. by rewrite Hc, Hvid.
  - apply db_update_inv in Hrun as [(-> & Hv & ->)|(c & -> & ->)];
      [|split; [done|eauto]].
    fold rows in Hv |- *. split.
    + simpl. split.
      * apply replace_row_keys; [done|done|]. intros row Hin Hpk Hk.
        by apply (Hconf self row).
      * by rewrite replace_row_pks.
      * apply Forall_forall. intros x [[-> (old & Hold & Hpk)]|[Hin _]]%replace_row_inv.
        -- apply same_pk_true in Hpk as [Hs <-]. done.
        -- by eapply Forall_forall in Hset.
    + intros row Hin Hpk Hc Hvid. exfalso.
      apply (Hconf self row); [done|done| |done]. unfold cv_key. by rewrite Hc, Hvid.
Qed.

Section SaveInversion.
Context {M : Type} {HM : Model M}.

(** The three ways a [save] completes: update of the stored row, insert after
    an update that found no row, plain insert. *)
Lemma save_base_inv (force_insert : bool) (self s' : M) (w w' : World) :
  save_base force_insert self w = (Return s', w') ->
  (exists s1 w1 w2,
     pre_save false self w = (Return s1, w1)
     /\ existsb (fun r => same_pk r s1) (objects (db w)) = true
     /\ db_update s1 w1 = (Return s', w2)
     /\ post_save s' false w2 = (Return tt, w'))
  \/ (exists s0 w0 s1 w1 w2,
     pre_save false self w = (Return s0, w0)
     /\ pre_save true s0 w0 = (Return s1, w1)
     /\ db_insert s1 w1 = (Return s', w2)
     /\ post_save s' true w2 = (Return tt, w'))
  \/ (exists s1 w1 w2,
     pre_save true self w = (Return s1, w1)
     /\ db_insert s1 w1 = (Return s', w2)
     /\ post_save s' true w2 = (Return tt, w')).
Proof.
  assert (Hins : forall u w0,
    (self <- pre_save true u ;; self <- db_insert self ;;
     post_save self true ;;; ret self) w0 = (Return s', w') ->
    exists s1 w1 w2,
      pre_save true u w0 = (Return s1, w1)
      /\ db_insert s1 w1 = (Return s', w2)
      /\ post_save s' true w2 = (Return tt, w')).
  { intros u w0. unfold bind, ret.
    destruct (pre_save true u w0) as [[s1|e] w1] eqn:E1; [|discriminate].
    destruct (db_insert s1 w1) as [[s2|e] w2] eqn:E2; [|discriminate].
    destruct (post_save s2 true w2) as [[[]|e] w3] eqn:E3; [|discriminate].
    intros [= <- <-]. eauto 10. }
  unfold save_base, bind at 1, get_db. cbv beta iota.
  destruct (match pk self with Some _ => negb force_insert | None => false end).
  - unfold bind at 1.
    destruct (pre_save false self w) as [[s0|e] w0] eqn:E0; [|discriminate].
    destruct (existsb _ _) eqn:Hex.
    + unfold bind, ret.
      destruct (db_update s0 w0) as [[s2|e] w2] eqn:E2; [|discriminate].
      destruct (post_save s2 false w2) as [[[]|e] w3] eqn:E3; [|discriminate].
      intros [= <- <-]. left. eauto 10.
    + intros (s1 & w1 & w2 & ? & ? & ?)%Hins. right. left. eauto 10.
  - intros (s1 & w1 & w2 & ? & ? & ?)%Hins. right. right. eauto 10.
Qed.

End SaveInversion.

(** What a completed [VideoImage.save()] keeps and what it stamps. *)
Lemma VideoImage_save_inv (force_insert : bool) (vi vi' : VideoImage) (w w' : World) :
  save_base force_insert vi w = (Return vi', w') ->
  image vi' = image vi
  /\ vi_course_video_id vi' = vi_course_video_id vi
  /\ vi' ∈ video_images (db w')
  /\ files w' = files w /\ streams w' = streams w /\ clock w' = clock w
  /\ (ticks w < ticks w')%nat
  /\ vi_modified vi' = Some (clock w (pred (ticks w'))).
Proof.
  intros Hrun. apply save_base_inv in Hrun as
    [(s1 & w1 & w2 & Hpre & Hex & Hup & Hpost)
    |[(s0 & w0 & s1 & w1 & w2 & Hpre0 & Hpre & Hin & Hpost)
     |(s1 & w1 & w2 & Hpre & Hin & Hpost)]];
    simpl in Hpre, Hpost; unfold VideoImage_pre_save, bind, now, ret in Hpre;
    injection Hpre as <- <-; injection Hpost as <-.
  - apply db_update_inv in Hup as [([= ->] & _ & ->)|(c & [=] & _)].
    repeat split; try done; simpl; [|lia].
    apply (replace_row_elem (M := VideoImage)). done.
  - simpl in Hpre0. unfold VideoImage_pre_save, bind, now, ret in Hpre0.
    injection Hpre0 as <- <-.
    apply db_insert_inv in Hin as [([= ->] & _ & _ & ->)|(c & [=] & _)].
    unfold keyed. simpl.
    repeat split; try (by destruct (vi_pk vi)); simpl; [|lia].
    apply elem_of_app. right. left.
  - apply db_insert_inv in Hin as [([= ->] & _ & _ & ->)|(c & [=] & _)].
    unfold keyed. simpl.
    repeat split; try (by destruct (vi_pk vi)); simpl; [|lia].
    apply elem_of_app. right. left.
Qed.

(** ** Frames: what an action leaves alone *)

Lemma keeps_ret {A} (a : A) : keeps (ret a).
Proof. by intros w. Qed.

Lemma keeps_raise {A} (e : Exception) : keeps (raise (A := A) e).
Proof. by intros w. Qed.

Lemma keeps_bind {A B} (m : Act A) (k : A -> Act B) :
  keeps m -> (forall a, keeps (k a)) -> keeps (bind m k).
Proof.
  intros Hm Hk w. unfold bind. specialize (Hm w).
  destruct (m w) as [[a|e] w1]; simpl in *; [|done].
  destruct (Hk a w1) as [-> ->]. done.
Qed.

Lemma keeps_try_except {A} (m : Act A) (handles : Exception -> bool)
    (handler : Exception -> Act A) :
  keeps m -> (forall e, keeps (handler e)) -> keeps (try_except m handles handler).
Proof.
  intros Hm Hh w. unfold try_except. specialize (Hm w).
  destruct (m w) as [[a|e] w1]; simpl in *; [done|].
  destruct (handles e); [|done]. destruct (Hh e w1) as [-> ->]. done.
Qed.

Lemma keeps_get_db : keeps get_db.
Proof. by intros w. Qed.

Lemma keeps_put_db (d : DB) : keeps (put_db d).
Proof. by intros w. Qed.

Lemma keeps_now : keeps now.
Proof. by intros w. Qed.

Lemma keeps_nows (n : nat) : keeps (nows n).
Proof. intros w. by rewrite nows_spec. Qed.

Create HintDb keeps.
#[local] Hint Resolve keeps_ret keeps_raise keeps_get_db keeps_put_db keeps_now
  keeps_nows : keeps.
#[local] Hint Extern 2 (keeps (bind _ _)) => apply keeps_bind; [|intros ?] : keeps.
#[local] Hint Extern 2 (keeps (try_except _ _ _)) =>
  apply keeps_try_except; [|intros ?] : keeps.
#[local] Hint Extern 3 (keeps (match ?x with _ => _ end)) => destruct x : keeps.
#[local] Hint Extern 3 (keeps (if ?x then _ else _)) => destruct x : keeps.

Section KeepsWrites.
Context {M : Type} {HM : Model M} {HI : ModelInit M}.
Hypothesis keeps_pre_save : forall add (self : M), keeps (pre_save add self).
Hypothesis keeps_post_save : forall (self : M) created, keeps (post_save self created).

Lemma keeps_db_insert (self : M) : keeps (db_insert self).
Proof. unfold db_insert. auto 10 with keeps. Qed.

Lemma keeps_db_update (self : M) : keeps (db_update self).
Proof. unfold db_update. auto 10 with keeps. Qed.

Lemma keeps_save_base (force_insert : bool) (self : M) :
  keeps (save_base force_insert self).
Proof.
  pose proof keeps_db_insert. pose proof keeps_db_update.
  unfold save_base. auto 20 with keeps.
Qed.

Lemma keeps_objects_get (kwargs : Kwargs) : keeps (objects_get kwargs).
Proof. unfold objects_get. apply keeps_bind; [auto with keeps|]. intros d.
  destruct (List.filter _ _) as [|r [|r' rs]]; auto with keeps. Qed.

Lemma keeps_objects_get_or_create (kwargs : Kwargs) :
  keeps (objects_get_or_create kwargs).
Proof.
  pose proof keeps_objects_get. pose proof keeps_save_base.
  unfold objects_get_or_create, objects_create, construct. auto 20 with keeps.
Qed.

End KeepsWrites.

Lemma keeps_VideoImage_save (force_insert : bool) (self : VideoImage) :
  keeps (save_base force_insert self).
Proof.
  apply keeps_save_base; intros; simpl; unfold VideoImage_pre_save;
    auto with keeps.
Qed.

Lemma keeps_VideoImage_get_or_create (course_video : CourseVideo) :
  keeps (objects_get_or_create (M := VideoImage) course_video).
Proof.
  apply keeps_objects_get_or_create; intros; simpl; unfold VideoImage_pre_save;
    auto with keeps.
Qed.

Section ImageAttach.
Variable mktime : Z -> Z.
Variable video_image_path : VideoImage -> string -> string.
Variable storage_save :
  gmap string (list Byte.byte) -> string -> UploadedFile ->
  Result string * gmap string (list Byte.byte).

#[local] Abbreviation img_save := (image_save video_image_path storage_save).
#[local] Abbreviation attach :=
  (VideoImage_create_or_update mktime video_image_path storage_save).
#[local] Abbreviation with_block :=
  (attach_body mktime video_image_path storage_save).
#[local] Abbreviation stored := (stored_under video_image_path storage_save).

Lemma keeps_backend_save (name : string) (content : nat) :
  keeps (backend_save storage_save name content).
Proof.
  intros w. unfold backend_save. destruct (streams w !! content) as [f|]; [|done].
  by destruct (storage_save _ _ _) as [[stored|e] fs].
Qed.

Lemma keeps_image_save (video_image : VideoImage) (name : string) (content : nat) :
  keeps (img_save video_image name content).
Proof.
  unfold image_save.
  apply keeps_bind; [apply keeps_backend_save|]. intros stored.
  apply keeps_VideoImage_save.
Qed.

Lemma keeps_attach_body (video_image : VideoImage) (image_data : nat)
    (file_name : string) :
  keeps (with_block video_image image_data file_name).
Proof.
  unfold attach_body. destruct (vi_modified video_image); [|apply keeps_raise].
  apply keeps_bind; [apply keeps_image_save|]. intros. apply keeps_VideoImage_save.
Qed.

Lemma create_or_update_unfold (course_video : CourseVideo) (image_data : nat)
    (file_name : string) (w : World) :
  attach course_video image_data file_name w =
  match objects_get_or_create (M := VideoImage) course_video w with
  | (Return (video_image, created), w0) =>
      match with_block video_image image_data file_name w0 with
      | (Return vi, w1) => (Return (vi, created), snd (stream_close image_data w1))
      | (Raise e, w1) => (Raise e, snd (stream_close image_data w1))
      end
  | (Raise e, w0) => (Raise e, w0)
  end.
Proof.
  unfold VideoImage_create_or_update, bind at 1.
  destruct (objects_get_or_create (HI := VideoImage_ModelInit) course_video w) as [[[vi0 created]|e] w0]; [|done].
  unfold attach_body, bind, closing, try_finally, raise, stream_close, ret.
  destruct (vi_modified vi0) as [modified|]; [|done].
  destruct (img_save vi0 _ image_data w0) as [[vi1|e] w1]; [|done].
  by destruct (save vi1 w1) as [[vi2|e] w2].
Qed.

(** C5, as the code has it. With the stream open in the world: once
    [get_or_create] has answered, the stream is closed when control returns,
    whether the block saved the image or raised; when [get_or_create] itself
    raises, the call raises the same exception before the [with] block is
    entered and the streams are as they were. *)
Theorem create_or_update_closes_stream (course_video : CourseVideo)
    (image_data : nat) (file_name : string) (w : World) :
  is_Some (streams w !! image_data) ->
  match objects_get_or_create (M := VideoImage) course_video w with
  | (Return _, _) =>
      is_closed image_data (snd (attach course_video image_data file_name w))
  | (Raise e, w0) =>
      attach course_video image_data file_name w = (Raise e, w0)
      /\ streams w0 = streams w
  end.
Proof.
  intros [f Hf]. rewrite create_or_update_unfold.
  pose proof (keeps_VideoImage_get_or_create course_video w) as [Hs0 _].
  destruct (objects_get_or_create (HI := VideoImage_ModelInit) course_video w)
    as [[[vi0 created]|e] w0]; simpl in Hs0; [|done].
  pose proof (keeps_attach_body vi0 image_data file_name w0) as [Hs1 _].
  destruct (with_block vi0 image_data file_name w0) as [[vi|e] w1]; simpl in *;
    exists {| file_bytes := file_bytes f; closed := true |};
    (split; [|done]); unfold stream_close; simpl;
    rewrite lookup_alter_eq, Hs1, Hs0, Hf; done.
Qed.

Lemma VideoImage_not_null (rows : list VideoImage) (x : VideoImage) :
  db_constraint_violation rows x = None -> is_Some (vi_course_video_id x).
Proof.
  unfold db_constraint_violation. simpl. unfold VideoImage_getattr. simpl.
  destruct (vi_pk x), (vi_created x), (vi_modified x), (vi_course_video_id x);
    simpl; try discriminate; eauto.
Qed.

Lemma VideoImage_saved_course_video (force_insert : bool) (vi vi' : VideoImage)
    (w w' : World) :
  save_base force_insert vi w = (Return vi', w') ->
  is_Some (vi_course_video_id vi').
Proof.
  intros Hrun. apply save_base_inv in Hrun as
    [(s1 & w1 & w2 & _ & _ & Hup & _)
    |[(s0 & w0 & s1 & w1 & w2 & _ & _ & Hin & _)
     |(s1 & w1 & w2 & _ & Hin & _)]].
  - apply db_update_inv in Hup as [([= ->] & Hv & _)|(c & [=] & _)].
    by apply VideoImage_not_null in Hv.
  - apply db_insert_inv in Hin as [([= ->] & _ & Hv & _)|(c & [=] & _)].
    by apply VideoImage_not_null in Hv.
  - apply db_insert_inv in Hin as [([= ->] & _ & Hv & _)|(c & [=] & _)].
    by apply VideoImage_not_null in Hv.
Qed.

Lemma filter_singleton_holds {A} (f : A -> bool) (l : list A) (x : A) :
  List.filter f l = [x] -> f x = true /\ x ∈ l.
Proof.
  intros E. assert (Hin : In x (List.filter f l)) by (rewrite E; by left).
  apply filter_In in Hin as [Hin ->]. split; [done|by apply list_elem_of_In].
Qed.

(** The record [get_or_create] answers belongs to the course video asked
    for and is stored. *)
Lemma VideoImage_get_or_create_inv (course_video : CourseVideo)
    (w w0 : World) (r : VideoImage) (created : bool) :
  objects_get_or_create (M := VideoImage) course_video w
  = (Return (r, created), w0) ->
  VideoImage_lookup course_video r = true /\ r ∈ video_images (db w0).
Proof.
  unfold objects_get_or_create, try_except at 1, bind at 1.
  rewrite objects_get_spec.
  destruct (List.filter _ _) as [|r0 [|r1 rs]] eqn:Hf; unfold ret; simpl;
    [|intros [= <- <- <-]; by apply (filter_singleton_holds _ _ _ Hf)|discriminate].
  unfold try_except at 1, bind at 1, objects_create, bind at 1.
  rewrite construct_spec. cbv beta iota.
  destruct (save_base true _ _) as [[s'|e] w1] eqn:Hsave.
  - unfold ret. intros [= <- <- <-].
    pose proof (VideoImage_saved_course_video _ _ _ _ _ Hsave) as Hs.
    apply VideoImage_save_inv in Hsave as (_ & Hcv & Hin & _).
    split; [|done]. unfold VideoImage_lookup. apply opt_Z_eqb_true.
    split; [done|]. by rewrite Hcv.
  - destruct (is_integrity_error e); [|discriminate].
    unfold try_except, bind. rewrite objects_get_spec.
    clear Hf. unfold ret, raise. simpl.
    destruct (List.filter (VideoImage_lookup course_video) (video_images (db w1)))
      as [|r0 [|r1 rs]] eqn:Hf'; simpl; try discriminate.
    intros [= <- <- <-]. by apply (filter_singleton_holds _ _ _ Hf').
Qed.

Lemma image_file_name_spec (modified : Z) (file_name : string) :
  image_file_name mktime modified file_name
  = pretty (mktime (modified `div` 1000000)) ++ snd (splitext file_name).
Proof. unfold image_file_name, strftime_s. by destruct (splitext file_name). Qed.

Lemma attach_body_inv (vi0 vi : VideoImage) (h : nat) (file_name : string)
    (w0 w1 : World) :
  with_block vi0 h file_name w0 = (Return vi, w1) ->
  exists m,
    vi_modified vi0 = Some m
    /\ stored vi0 (image_file_name mktime m file_name) h w0 vi
    /\ vi_course_video_id vi = vi_course_video_id vi0
    /\ vi ∈ video_images (db w1)
    /\ vi_modified vi = Some (clock w0 (pred (ticks w1)))
    /\ (ticks w0 + 2 <= ticks w1)%nat.
Proof.
  unfold attach_body. destruct (vi_modified vi0) as [m|]; [|discriminate].
  unfold bind at 1, image_save, bind at 1, backend_save.
  destruct (streams w0 !! h) as [up|] eqn:Hup; [|discriminate].
  destruct (storage_save (files w0) _ _) as [[stored|e] fs'] eqn:Hst; [|discriminate].
  destruct (save (VideoImage_set_image _ _) _) as [[vi1|e] w2] eqn:Hs1; [|discriminate].
  intros Hs2.
  apply VideoImage_save_inv in Hs1 as (Hi1 & Hc1 & _ & _ & _ & Hk1 & Ht1 & _).
  apply VideoImage_save_inv in Hs2 as (Hi2 & Hc2 & Hin & _ & _ & _ & Ht2 & Hm2).
  simpl in *. exists m. split; [done|]. split.
  { exists up, stored, fs'. by rewrite Hi2, Hi1. }
  rewrite Hc2, Hc1, Hm2, Hk1. repeat split; try done. lia.
Qed.

Lemma get_or_create_found {M} {HM : Model M} {HI : ModelInit M}
    (kwargs : Kwargs) (w : World) (row : M) (rows : list M) :
  List.filter (lookup kwargs) (objects (db w)) = row :: rows ->
  forall r created w0,
    objects_get_or_create kwargs w = (Return (r, created), w0) ->
    rows = [] /\ r = row /\ created = false /\ w0 = w.
Proof.
  intros Hf r created w0.
  unfold objects_get_or_create, try_except at 1, bind at 1.
  rewrite objects_get_spec, Hf. destruct rows; simpl; [|discriminate].
  unfold ret. by intros [= <- <- <-].
Qed.

Lemma attach_inv (course_video : CourseVideo) (h : nat) (file_name : string)
    (w w' : World) (vi : VideoImage) (created : bool) :
  attach course_video h file_name w = (Return (vi, created), w') ->
  exists fetched w0 m,
    objects_get_or_create (M := VideoImage) course_video w
    = (Return (fetched, created), w0)
    /\ vi_modified fetched = Some m
    /\ stored fetched (image_file_name mktime m file_name) h w0 vi
    /\ VideoImage_lookup course_video vi = true
    /\ vi ∈ video_images (db w')
    /\ (exists n, (ticks w0 < n)%nat /\ vi_modified vi = Some (clock w n)).
Proof.
  rewrite create_or_update_unfold.
  destruct (objects_get_or_create (HI := VideoImage_ModelInit) course_video w) as [[[fetched c]|e] w0] eqn:Hgoc;
    [|discriminate].
  destruct (with_block fetched h file_name w0) as [[vi'|e] w1] eqn:Hbody;
    [|discriminate].
  intros [= -> -> <-].
  pose proof (keeps_VideoImage_get_or_create course_video w) as [_ Hclock].
  rewrite Hgoc in Hclock. simpl in Hclock.
  apply VideoImage_get_or_create_inv in Hgoc as Hfetched. destruct Hfetched as [Hlook _].
  apply attach_body_inv in Hbody as (m & Hm & Hst & Hcv & Hin & Hmod & Ht).
  exists fetched, w0, m. repeat split; try done.
  - unfold VideoImage_lookup in *. by rewrite Hcv.
  - exists (pred (ticks w1)). split; [lia|]. by rewrite Hmod, Hclock.
Qed.

(** C4, as the code has it. An attach that returns has handed the stream to
    the backend under the upload path of [<seconds><ext>] and has put the
    name the backend answered on the record.  [<seconds>] is what [mktime]
    of the process answers for the whole seconds of the [modified] timestamp
    the record carried when [get_or_create] handed it over (the seconds
    since the epoch on a server on UTC), and [<ext>] is the extension of the
    file name given.  The record it returns carries the timestamp its last
    [save] stamped, a clock reading of this call.  Every further attach for
    the same course video that returns finds that very record
    ([created = False]), names its file from that timestamp in the same way
    and replaces the name on the record; the two names asked for are equal
    whenever the two timestamps fall in the same second and the extensions
    agree. *)
Theorem attach_twice_file_names (course_video : CourseVideo) (h1 : nat)
    (file_name1 : string) (w w1 : World) (vi1 : VideoImage) (created1 : bool) :
  attach course_video h1 file_name1 w = (Return (vi1, created1), w1) ->
  exists fetched w0 m1 m2,
    objects_get_or_create (M := VideoImage) course_video w
    = (Return (fetched, created1), w0)
    /\ vi_modified fetched = Some m1
    /\ stored fetched
         (pretty (mktime (m1 `div` 1000000)) ++ snd (splitext file_name1)) h1 w0 vi1
    /\ vi_modified vi1 = Some m2
    /\ (exists n, (ticks w0 < n)%nat /\ m2 = clock w n)
    /\ forall (h2 : nat) (file_name2 : string) (w2 : World) (vi2 : VideoImage)
         (created2 : bool),
         attach course_video h2 file_name2 w1 = (Return (vi2, created2), w2) ->
         objects_get_or_create (M := VideoImage) course_video w1
         = (Return (vi1, false), w1)
         /\ created2 = false
         /\ stored vi1
              (pretty (mktime (m2 `div` 1000000)) ++ snd (splitext file_name2))
              h2 w1 vi2
         /\ vi2 ∈ video_images (db w2)
         /\ (m1 `div` 1000000 = m2 `div` 1000000 ->
             snd (splitext file_name1) = snd (splitext file_name2) ->
             pretty (mktime (m1 `div` 1000000)) ++ snd (splitext file_name1)
             = pretty (mktime (m2 `div` 1000000)) ++ snd (splitext file_name2)).
Proof.
  intros (fetched & w0 & m1 & Hgoc1 & Hm1 & Hst1 & Hlook1 & Hin1 & n & Hn & Hmod)%attach_inv.
  rewrite image_file_name_spec in Hst1.
  exists fetched, w0, m1, (clock w n). do 4 (split; [done|]).
  split; [by exists n|].
  intros h2 file_name2 w2 vi2 created2
    (fetched2 & w0' & m2 & Hgoc2 & Hm2 & Hst2 & _ & Hin2 & _)%attach_inv.
  assert (Hsecond : objects_get_or_create (M := VideoImage) course_video w1
                    = (Return (vi1, false), w1)
                    /\ fetched2 = vi1 /\ created2 = false /\ w0' = w1).
  { assert (Hmem : In vi1 (List.filter (VideoImage_lookup course_video)
                                         (video_images (db w1))))
      by (apply filter_In; split; [by apply list_elem_of_In|done]).
    destruct (List.filter (VideoImage_lookup course_video) (video_images (db w1)))
      as [|r0 rs] eqn:Hf; [done|].
    destruct (get_or_create_found (HI := VideoImage_ModelInit) _ _ _ _ Hf _ _ _ Hgoc2)
      as (-> & -> & -> & ->).
    destruct Hmem as [->|[]]. by rewrite <- Hgoc2. }
  destruct Hsecond as (Hgoc2' & -> & -> & ->).
  rewrite image_file_name_spec in Hst2.
  assert (m2 = clock w n) as -> by congruence.
  repeat split; try done. by intros -> ->.
Qed.

End ImageAttach.

Lemma first_attach_eq :
  VideoImage_create_or_update utc flat_path overwriting_storage lecture_row 1 "a.png"
    (attach_world [])
  = (Return (created_image, true), snd first_attach).
Proof.
  transitivity (fst first_attach, snd first_attach); [apply surjective_pairing|].
  f_equal; vm_compute; reflexivity.
Qed.

Lemma second_attach_eq :
  VideoImage_create_or_update utc flat_path overwriting_storage lecture_row 2 "b.png"
    (snd first_attach)
  = (Return (replaced_image, false), snd second_attach).
Proof.
  transitivity (fst second_attach, snd second_attach); [apply surjective_pairing|].
  f_equal; vm_compute; reflexivity.
Qed.

Lemma attach_twice_file_names_witness :
  exists fetched w0 m1 m2,
    objects_get_or_create (M := VideoImage) lecture_row (attach_world [])
    = (Return (fetched, true), w0)
    /\ vi_modified fetched = Some m1
    /\ stored_under flat_path overwriting_storage fetched
         (pretty (utc (m1 `div` 1000000)) ++ snd (splitext "a.png")) 1 w0
         created_image
    /\ vi_modified created_image = Some m2
    /\ (exists n, (ticks w0 < n)%nat /\ m2 = clock (attach_world []) n)
    /\ objects_get_or_create (M := VideoImage) lecture_row (snd first_attach)
       = (Return (created_image, false), snd first_attach)
    /\ false = false
    /\ stored_under flat_path overwriting_storage created_image
         (pretty (utc (m2 `div` 1000000)) ++ snd (splitext "b.png")) 2
         (snd first_attach) replaced_image
    /\ replaced_image ∈ video_images (db (snd second_attach))
    /\ (m1 `div` 1000000 = m2 `div` 1000000 ->
        snd (splitext "a.png") = snd (splitext "b.png") ->
        pretty (utc (m1 `div` 1000000)) ++ snd (splitext "a.png")
        = pretty (utc (m2 `div` 1000000)) ++ snd (splitext "b.png")).
Proof.
  destruct (attach_twice_file_names utc flat_path overwriting_storage lecture_row 1
              "a.png" (attach_world []) (snd first_attach) created_image true
              first_attach_eq)
    as (fetched & w0 & m1 & m2 & Hgoc & Hm1 & Hst1 & Hm2 & Hn & Hsecond).
  exists fetched, w0, m1, m2. do 5 (split; [assumption|]).
  exact (Hsecond 2%nat "b.png" (snd second_attach) replaced_image false
           second_attach_eq).
Defined.

(** The same attach on a server five hours west of UTC: the record's
    timestamp is in second 100 after the epoch, and the file is named from
    second 18100. *)
Example attach_name_five_hours_west :
  fst (VideoImage_create_or_update five_hours_west flat_path overwriting_storage
         lecture_row 1 "a.png" (attach_world []))
  = Return ({| vi_pk := Some 1; vi_created := Some 100000000;
               vi_modified := Some 100400000; vi_course_video_id := Some 1;
               image := Some "18100.png" |}, true).
Proof. vm_compute. reflexivity. Qed.

(** C4 as stated fails: the record was last modified in second 50; two
    attaches follow whose every clock reading falls in second 100, and they
    name their files "50.png" and "100.png". *)
Lemma attach_same_second_names_differ :
  let w := attach_world [old_image] in
  let first := VideoImage_create_or_update utc flat_path overwriting_storage
                 lecture_row 1 "a.png" w in
  let second := VideoImage_create_or_update utc flat_path overwriting_storage
                  lecture_row 2 "b.png" (snd first) in
  ticks w = 0%nat /\ ticks (snd second) = 4%nat
  /\ (forall n, (n < 4)%nat -> clock w n `div` 1000000 = 100)
  /\ exists vi1 vi2,
       fst first = Return (vi1, false) /\ fst second = Return (vi2, false)
       /\ image vi1 = Some "50.png" /\ image vi2 = Some "100.png"
       /\ image vi1 <> image vi2.
Proof.
  split; [reflexivity|]. split; [vm_compute; reflexivity|]. split.
  - intros n Hn. do 4 (destruct n as [|n]; [reflexivity|]). lia.
  - eexists _, _. split; [vm_compute; reflexivity|].
    split; [vm_compute; reflexivity|]. by repeat split.
Qed.

Lemma create_or_update_closes_stream_witness :
  is_closed 1 (snd (VideoImage_create_or_update utc flat_path full_storage
                      lecture_row 1 "a.png" (attach_world [old_image])))
  /\ is_closed 1 (snd first_attach).
Proof.
  split.
  - apply (create_or_update_closes_stream utc flat_path full_storage lecture_row 1
             "a.png" (attach_world [old_image])).
    eexists. vm_compute. reflexivity.
  - apply (create_or_update_closes_stream utc flat_path overwriting_storage lecture_row 1
             "a.png" (attach_world [])).
    eexists. vm_compute. reflexivity.
Defined.

(** C5 as stated fails: for a course video that was never saved,
    [get_or_create] raises (here the insert's NOT NULL violation; a later
    release of the framework refuses the unsaved relation with a
    [ValueError] at the same point), the call raises, and the stream is
    still open. *)
Lemma attach_unsaved_course_video_leaves_stream_open :
  let run := VideoImage_create_or_update utc flat_path overwriting_storage
               unsaved_course 1 "a.png" (attach_world []) in
  fst run = Raise (IntegrityError "NOT NULL constraint failed: course_video")
  /\ streams (snd run) !! 1%nat = Some (upload Byte.x01)
  /\ ~ is_closed 1 (snd run).
Proof.
  split; [vm_compute; reflexivity|].
  assert (Hs : streams (snd (VideoImage_create_or_update utc flat_path overwriting_storage
                 unsaved_course 1 "a.png" (attach_world []))) !! 1%nat
               = Some (upload Byte.x01)) by (vm_compute; reflexivity).
  split; [exact Hs|]. intros (f & Hf & Hc). rewrite Hs in Hf.
  by injection Hf as <-.
Qed.

Lemma Video_by_youtube_id_spec_witness :
  prefetch_related youtube_db lecture_video ∈ Video_by_youtube_id "abc123" youtube_db
  /\ (youtube_encoding ∈ pv_encoded_videos (prefetch_related youtube_db lecture_video)
      /\ lecture_row ∈ pv_courses (prefetch_related youtube_db lecture_video)
      /\ srt_subtitle ∈ pv_subtitles (prefetch_related youtube_db lecture_video))
  /\ Video_by_youtube_id "abc123" empty_db = [].
Proof.
  destruct (Video_by_youtube_id_spec "abc123" youtube_db) as (Hmem & Heager & _).
  assert (Hin : prefetch_related youtube_db lecture_video
                ∈ Video_by_youtube_id "abc123" youtube_db).
  { apply Hmem. exists lecture_video. split; [left|]. split; [|reflexivity].
    exists youtube_encoding, youtube_profile.
    split; [left|]. split; [left|]. by repeat split; eauto. }
  split; [exact Hin|]. split.
  - destruct (Heager _ Hin) as (He & Hc & Hs).
    split; [apply He; split; [left|reflexivity]|].
    split; [apply Hc; split; [left|reflexivity]|].
    apply Hs; split; [left|reflexivity].
  - apply (proj2 (proj2 (Video_by_youtube_id_spec "abc123" empty_db))).
    intros v Hv. by apply elem_of_nil in Hv.
Defined.

(** The query joins, so a video comes back once per matching encoding. *)
Example by_youtube_id_repeats_video :
  let d := {| profiles := [youtube_profile]; videos := [lecture_video];
              course_videos := [];
              encoded_videos := [youtube_encoding; youtube_encoding];
              video_images := []; subtitles := [] |} in
  map pv_video (Video_by_youtube_id "abc123" d) = [lecture_video; lecture_video].
Proof. reflexivity. Qed.

Lemma CourseVideo_unique_together_witness :
  CourseVideo_table_ok
    (course_videos (db (snd (save duplicate_link (quiet_world linked_db)))))
  /\ (exists c, fst (save duplicate_link (quiet_world linked_db))
               = Raise (IntegrityError c))
  /\ snd (save duplicate_link (quiet_world linked_db)) = quiet_world linked_db.
Proof.
  assert (Hok : CourseVideo_table_ok (course_videos (db (quiet_world linked_db)))).
  { split; simpl; [apply NoDup_singleton|apply NoDup_singleton|].
    apply Forall_singleton. by eexists. }
  destruct (CourseVideo_unique_together false duplicate_link (quiet_world linked_db)
              (snd (save duplicate_link (quiet_world linked_db)))
              (fst (save duplicate_link (quiet_world linked_db)))
              Hok (surjective_pairing _)) as [Hinv Hdup].
  split; [exact Hinv|].
  apply (Hdup lecture_row); [left|reflexivity|reflexivity|reflexivity].
Defined.

(** On the validated path the same duplicate is caught one step earlier, by
    [validate_unique] inside [full_clean]. *)
Example duplicate_link_validated :
  fst (create_with_validation (M := CourseVideo)
         {| kw_course_id := Some "course-v1:edX+Demo+2017";
            kw_video := Some lecture_video; kw_is_hidden := Some true |}
         (quiet_world linked_db))
  = Raise (ValidationError [("__all__", ["unique_together"])]).
Proof. reflexivity. Qed.

Example duplicate_link_integrity_error :
  fst (save duplicate_link (quiet_world linked_db))
  = Raise (IntegrityError "UNIQUE constraint failed: course_id, video").
Proof. reflexivity. Qed.

(** * Further properties *)

(** ** Validation of the declared models *)

(** No stored row with another key shares the value of a key column. *)
Lemma id_never_conflicts {M} {HM : Model M} (rows : list M) (self : M) :
  (forall r : M, getattr r "id" = opt_value VInt (pk r)) ->
  is_Some (pk self) ->
  unique_conflict rows self ["id"] = false.
Proof.
  intros Hid [k Hk]. apply not_true_is_false. unfold unique_conflict.
  intros (r & _ & [Hpk Hagree]%andb_true_iff)%existsb_exists.
  apply negb_true_iff in Hpk. simpl in Hagree. rewrite andb_true_r, !Hid in Hagree.
  unfold same_pk in Hpk. rewrite Hk in *. destruct (pk r); simpl in *; congruence.
Qed.

Lemma Profile_clean_fields (d : DB) (p : Profile) :
  clean_fields d p =
  match field_errors d p profile_name_field with
  | [] => []
  | errs => [("profile_name", errs)]
  end.
Proof.
  unfold clean_fields. simpl.
  assert (field_errors d p id_field = []) as ->; [|done].
  unfold field_errors. simpl. unfold Profile_getattr. simpl.
  by destruct (profile_pk p).
Qed.

Lemma profile_name_errors (d : DB) (p : Profile) :
  field_errors d p profile_name_field =
  if bool_decide (profile_name p = "") then ["blank"]
  else (run_validator (RegexValidator URL_REGEX "profile_name has invalid characters"
                         "invalid profile_name") (VStr (profile_name p))
        ++ run_validator (MaxLengthValidator 50) (VStr (profile_name p)))%list.
Proof.
  unfold field_errors, field_clean, field_validate, field_run_validators.
  simpl. unfold Profile_getattr. simpl.
  case_bool_decide; [done|]. simpl. by rewrite app_nil_r.
Qed.

Lemma full_clean_passes_iff {M} {HM : Model M} (adding : bool) (self : M)
    (w : World) :
  full_clean adding self w = (Return tt, w) <->
  clean_fields (db w) self = [] /\ validate_unique (db w) self adding [] = [].
Proof.
  unfold full_clean, bind, get_db. cbv beta iota.
  destruct (clean_fields (db w) self) as [|e es] eqn:Hcf; simpl.
  - destruct (validate_unique (db w) self adding []); [by split|].
    split; [discriminate|]. by intros [_ [=]].
  - split; [discriminate|]. by intros [[=] _].
Qed.

(** [full_clean] has two outcomes, and neither writes. *)
Lemma full_clean_outcome {M} {HM : Model M} (adding : bool) (self : M) (w : World) :
  full_clean adding self w = (Return tt, w)
  \/ exists errors, errors <> []
       /\ full_clean adding self w = (Raise (ValidationError errors), w).
Proof.
  unfold full_clean, bind, get_db. cbv beta iota.
  destruct (_ ++ _)%list as [|e es] eqn:E; [by left|]. right.
  exists (e :: es). by split.
Qed.

(** For an instance without a key the query of [validate_unique] is the
    test of the index, whatever its state. *)
Lemma unique_lookup_unkeyed {M} {HM : Model M} (rows : list M) (self : M)
    (adding : bool) (check : list string) :
  pk self = None ->
  unique_lookup rows self adding check = unique_conflict rows self check.
Proof.
  intros Hpk. unfold unique_lookup, unique_conflict.
  induction rows as [|r rows IH]; simpl; [done|]. rewrite IH. f_equal. f_equal.
  unfold same_pk. rewrite Hpk. destruct (pk r); by destruct adding.
Qed.

(** The check of the key column: skipped on an instance being edited or
    without a key; on an instance being added it fails exactly when a
    stored row has the key. *)
Lemma id_check_spec {M} {HM : Model M} (d : DB) (self : M) (adding : bool) :
  (forall r : M, getattr r "id" = opt_value VInt (pk r)) ->
  is_primary_key "id" = true ->
  unique_check_errors d self adding [] ["id"] = [] <->
  (adding = true -> forall q, q ∈ objects d -> same_pk q self = false).
Proof.
  intros Hid Hprimary. unfold unique_check_errors. cbn [existsb].
  rewrite bool_decide_eq_false_2 by apply not_elem_of_nil. cbn [orb].
  rewrite Hid, Hprimary. cbn [orb].
  destruct (pk self) as [k|] eqn:Hk; cbn [opt_value value_eqb].
  2:{ split; [|done]. intros _ _ q _. unfold same_pk. rewrite Hk. by destruct (pk q). }
  destruct adding; cbn [negb andb]; [|by split].
  destruct (unique_lookup (objects d) self true ["id"]) eqn:Hl.
  - split; [discriminate|]. intros Hfree.
    apply existsb_exists in Hl as (q & Hq%list_elem_of_In & Hagree).
    cbn [orb andb forallb] in Hagree. rewrite andb_true_r, !Hid, Hk in Hagree.
    specialize (Hfree eq_refl q Hq). unfold same_pk in Hfree. rewrite Hk in Hfree.
    destruct (pk q); simpl in *; congruence.
  - split; [|done]. intros _ _ q Hq. apply not_true_is_false. intros Hsame.
    apply not_true_iff_false in Hl. apply Hl, existsb_exists. exists q.
    split; [by apply list_elem_of_In|]. cbn [orb andb forallb].
    rewrite andb_true_r, !Hid, Hk. unfold same_pk in Hsame. rewrite Hk in Hsame.
    by destruct (pk q).
Qed.

Lemma Profile_name_lookup (rows : list Profile) (p : Profile) (adding : bool) :
  unique_lookup rows p adding ["profile_name"] = false <->
  forall q, q ∈ rows -> adding = true \/ same_pk q p = false ->
            profile_name q <> profile_name p.
Proof.
  unfold unique_lookup. split.
  - intros Hex q Hq Hother Hname. apply not_true_iff_false in Hex. apply Hex.
    apply existsb_exists. exists q. split; [by apply list_elem_of_In|].
    apply andb_true_iff. split.
    + destruct Hother as [-> | ->]; [done|by destruct adding].
    + simpl. unfold Profile_getattr. simpl. by rewrite Hname, bool_decide_eq_true_2.
  - intros Hfree. apply not_true_is_false.
    intros (q & Hq%list_elem_of_In & [Hother Hagree]%andb_true_iff)%existsb_exists.
    simpl in Hagree. unfold Profile_getattr in Hagree.
    simpl in Hagree. rewrite andb_true_r in Hagree.
    apply bool_decide_eq_true in Hagree. apply (Hfree q); [done| |done].
    destruct adding; [by left|right]. by apply negb_true_iff in Hother.
Qed.

Lemma Profile_validate_unique (d : DB) (p : Profile) (adding : bool) :
  validate_unique d p adding [] = [] <->
  (adding = true -> forall q, q ∈ profiles d -> same_pk q p = false)
  /\ unique_lookup (profiles d) p adding ["profile_name"] = false.
Proof.
  unfold validate_unique.
  change (@unique_checks Profile _) with [["id"]; ["profile_name"]].
  cbn [flat_map]. rewrite app_nil_r.
  pose proof (id_check_spec (M := Profile) d p adding (fun _ => eq_refl) eq_refl)
    as Hid.
  change (@objects Profile _ d) with (profiles d) in Hid. rewrite <- Hid.
  assert (unique_check_errors d p adding [] ["profile_name"] = [] <->
          unique_lookup (profiles d) p adding ["profile_name"] = false) as <-.
  { unfold unique_check_errors. cbn [existsb].
    rewrite bool_decide_eq_false_2 by apply not_elem_of_nil. cbn [orb].
    change (value_eqb (getattr p "profile_name") VNone) with false.
    change (is_primary_key (M := Profile) "profile_name") with false.
    rewrite andb_false_r. cbv iota.
    change (@objects Profile _ d) with (profiles d).
    by destruct (unique_lookup (profiles d) p adding ["profile_name"]). }
  split.
  - intros [H1 H2]%app_eq_nil. by split.
  - intros [-> ->]. done.
Qed.

(** X1. A [Profile] passes [full_clean] exactly when its name is not empty,
    consists of characters of the class [[a-zA-Z0-9_-]] (a single trailing
    newline is let through by the pattern's [$]), has at most 50 characters
    and is not the name of a stored profile it is compared with: every
    stored profile for an instance being added ([_state.adding], as on a
    freshly built one), the profiles with another key for one being edited.
    An instance being added must also have a key no stored profile has.
    Otherwise [full_clean] raises a [ValidationError].  Either way nothing is
    written. *)
Theorem Profile_full_clean_spec (adding : bool) (p : Profile) (w : World) :
  (full_clean adding p w = (Return tt, w)
   \/ exists errors, errors <> []
        /\ full_clean adding p w = (Raise (ValidationError errors), w))
  /\ (full_clean adding p w = (Return tt, w) <->
      profile_name p <> ""
      /\ url_text (profile_name p)
      /\ (String.length (profile_name p) <= 50)%nat
      /\ (forall q, q ∈ profiles (db w) -> adding = true \/ same_pk q p = false ->
                    profile_name q <> profile_name p)
      /\ (adding = true -> forall q, q ∈ profiles (db w) -> same_pk q p = false)).
Proof.
  split; [apply full_clean_outcome|].
  rewrite full_clean_passes_iff, Profile_validate_unique, Profile_name_lookup,
    Profile_clean_fields, profile_name_errors.
  pose proof (URL_REGEX_validator_spec "profile_name has invalid characters"
                "invalid profile_name" (profile_name p)) as Hre.
  fold (url_text (profile_name p)) in Hre.
  case_bool_decide as Hblank.
  { split; [by intros [[=] _]|]. by intros [? _]. }
  destruct (run_validator (RegexValidator _ _ _) _) as [|e es] eqn:Ere.
  - cbn [app run_validator]. destruct (50 <? String.length (profile_name p))%nat eqn:Elen.
    + apply Nat.ltb_lt in Elen. split; [by intros [[=] _]|]. intros (_ & _ & ? & _). lia.
    + apply Nat.ltb_ge in Elen. split.
      * intros [_ [Hk Hu]]. repeat split; try done. by apply Hre.
      * intros (_ & _ & _ & Hu & Hk). by split.
  - split; [by intros [[=] _]|]. intros (_ & Hurl & _). by apply Hre in Hurl.
Qed.

Lemma Profile_full_clean_spec_witness :
  full_clean true {| profile_pk := None; profile_name := "mobile_low" |}
    (quiet_world youtube_db)
  = (Return tt, quiet_world youtube_db).
Proof.
  apply (proj2 (Profile_full_clean_spec true
                  {| profile_pk := None; profile_name := "mobile_low" |}
                  (quiet_world youtube_db))).
  split; [discriminate|]. split.
  { exists (list_ascii_of_string "mobile_low"). split; [|by left].
    repeat constructor. }
  split; [simpl; lia|]. split.
  - intros q [->|[->|Hq%elem_of_nil]%elem_of_cons]%elem_of_cons _;
      [discriminate|discriminate|done].
  - intros _ q _. unfold same_pk. simpl. by destruct (profile_pk q).
Defined.

(** A freshly built profile given the key of a stored row is refused on the
    key; the stored row itself, loaded and checked again, passes. *)
Example Profile_full_clean_stored_key :
  fst (full_clean true {| profile_pk := Some 1; profile_name := "desktop" |}
         (quiet_world youtube_db))
  = Raise (ValidationError [("id", ["unique"])])
  /\ fst (full_clean true youtube_profile (quiet_world youtube_db))
     = Raise (ValidationError [("id", ["unique"]); ("profile_name", ["unique"])])
  /\ fst (full_clean false youtube_profile (quiet_world youtube_db)) = Return tt.
Proof. vm_compute. by repeat split. Qed.

Lemma clean_fields_loop_nil {M} {HM : Model M} (d : DB) (self : M) (fs : list Field) :
  clean_fields_loop d self fs = [] <->
  Forall (fun f => field_errors d self f = []) fs.
Proof.
  induction fs as [|f fs IH]; simpl; [by split|].
  rewrite Forall_cons.
  destruct (field_errors d self f); [by rewrite IH; split; [|intros [_ ?]]|].
  split; [discriminate|]. by intros [[=] _].
Qed.

Lemma max_length_passes (limit : nat) (s : string) :
  run_validator (MaxLengthValidator limit) (VStr s) = [] <->
  (String.length s <= limit)%nat.
Proof.
  simpl. destruct (limit <? String.length s)%nat eqn:E.
  - apply Nat.ltb_lt in E. split; [discriminate|lia].
  - apply Nat.ltb_ge in E. by split.
Qed.

Lemma Video_id_lookup (rows : list Video) (v : Video) (adding : bool) :
  unique_lookup rows v adding ["edx_video_id"] = false <->
  forall q, q ∈ rows -> adding = true \/ same_pk q v = false ->
            edx_video_id q <> edx_video_id v.
Proof.
  unfold unique_lookup. split.
  - intros Hex q Hq Hother Hname. apply not_true_iff_false in Hex. apply Hex.
    apply existsb_exists. exists q. split; [by apply list_elem_of_In|].
    apply andb_true_iff. split.
    + destruct Hother as [-> | ->]; [done|by destruct adding].
    + simpl. unfold Video_getattr. simpl. by rewrite Hname, bool_decide_eq_true_2.
  - intros Hfree. apply not_true_is_false.
    intros (q & Hq%list_elem_of_In & [Hother Hagree]%andb_true_iff)%existsb_exists.
    simpl in Hagree. unfold Video_getattr in Hagree.
    simpl in Hagree. rewrite andb_true_r in Hagree.
    apply bool_decide_eq_true in Hagree. apply (Hfree q); [done| |done].
    destruct adding; [by left|right]. by apply negb_true_iff in Hother.
Qed.

Lemma Video_validate_unique (d : DB) (v : Video) (adding : bool) :
  validate_unique d v adding [] = [] <->
  (adding = true -> forall q, q ∈ videos d -> same_pk q v = false)
  /\ unique_lookup (videos d) v adding ["edx_video_id"] = false.
Proof.
  unfold validate_unique.
  change (@unique_checks Video _) with [["id"]; ["edx_video_id"]].
  cbn [flat_map]. rewrite app_nil_r.
  pose proof (id_check_spec (M := Video) d v adding (fun _ => eq_refl) eq_refl)
    as Hid.
  change (@objects Video _ d) with (videos d) in Hid. rewrite <- Hid.
  assert (unique_check_errors d v adding [] ["edx_video_id"] = [] <->
          unique_lookup (videos d) v adding ["edx_video_id"] = false) as <-.
  { unfold unique_check_errors. cbn [existsb].
    rewrite bool_decide_eq_false_2 by apply not_elem_of_nil. cbn [orb].
    change (value_eqb (getattr v "edx_video_id") VNone) with false.
    change (is_primary_key (M := Video) "edx_video_id") with false.
    rewrite andb_false_r. cbv iota.
    change (@objects Video _ d) with (videos d).
    by destruct (unique_lookup (videos d) v adding ["edx_video_id"]). }
  split.
  - intros [H1 H2]%app_eq_nil. by split.
  - intros [-> ->]. done.
Qed.

Lemma Video_clean_fields (d : DB) (v : Video) :
  clean_fields d v = [] <->
  edx_video_id v <> ""
  /\ run_validator (RegexValidator URL_REGEX "edx_video_id has invalid characters"
                      "invalid edx_video_id") (VStr (edx_video_id v)) = []
  /\ (String.length (edx_video_id v) <= 100)%nat
  /\ (String.length (client_video_id v) <= 255)%nat
  /\ (exists f, duration v = Some f /\ PrimFloat.ltb f 0 = false)
  /\ status v <> ""
  /\ (String.length (status v) <= 255)%nat.
Proof.
  unfold clean_fields. rewrite clean_fields_loop_nil.
  change (@meta_fields Video _) with Video_fields. unfold Video_fields.
  rewrite !Forall_cons, Forall_nil.
  assert (H1 : field_errors d v id_field = []).
  { unfold field_errors. simpl. unfold Video_getattr. simpl. by destruct (video_pk v). }
  assert (H2 : field_errors d v (DateTimeField "created" false true) = []).
  { unfold field_errors. simpl. unfold Video_getattr. simpl. by destruct (video_created v). }
  assert (H3 : field_errors d v edx_video_id_field = [] <->
               edx_video_id v <> ""
               /\ run_validator (RegexValidator URL_REGEX "edx_video_id has invalid characters"
                      "invalid edx_video_id") (VStr (edx_video_id v)) = []
               /\ (String.length (edx_video_id v) <= 100)%nat).
  { unfold field_errors, field_clean, field_validate, field_run_validators.
    simpl name. simpl blank. simpl null. simpl editable. simpl ftype. simpl validators.
    change (getattr v "edx_video_id") with (VStr (edx_video_id v)).
    cbn [negb andb value_eqb is_empty_value flat_map].
    case_bool_decide as Hb; [split; [discriminate|by intros [? _]]|].
    rewrite app_nil_r, app_nil, max_length_passes. tauto. }
  assert (H4 : field_errors d v (CharField "client_video_id" 255 false true []) = [] <->
               (String.length (client_video_id v) <= 255)%nat).
  { unfold field_errors, field_clean, field_validate, field_run_validators.
    simpl name. simpl blank. simpl null. simpl editable. simpl ftype. simpl validators.
    change (getattr v "client_video_id") with (VStr (client_video_id v)).
    cbn [negb andb value_eqb is_empty_value flat_map app].
    case_bool_decide as Hb; [rewrite Hb; simpl; split; [lia|done]|].
    by rewrite app_nil_r, max_length_passes. }
  assert (H5 : field_errors d v (FloatField "duration" [MinValueValidator 0]) = [] <->
               exists f, duration v = Some f /\ PrimFloat.ltb f 0 = false).
  { unfold field_errors, field_clean, field_validate, field_run_validators.
    simpl name. simpl blank. simpl null. simpl editable. simpl ftype. simpl validators.
    change (getattr v "duration") with (opt_value VFloat (duration v)).
    destruct (duration v) as [f|]; simpl.
    - change (float_of_Z 0) with 0%float.
      destruct (PrimFloat.ltb f 0) eqn:E; simpl.
      + split; [discriminate|]. intros (g & [= <-] & Hg). congruence.
      + split; [eauto|done].
    - split; [discriminate|]. by intros (? & [=] & _). }
  assert (H6 : field_errors d v (CharField "status" 255 false false []) = [] <->
               status v <> "" /\ (String.length (status v) <= 255)%nat).
  { unfold field_errors, field_clean, field_validate, field_run_validators.
    simpl name. simpl blank. simpl null. simpl editable. simpl ftype. simpl validators.
    change (getattr v "status") with (VStr (status v)).
    cbn [negb andb value_eqb is_empty_value flat_map app].
    case_bool_decide as Hb; [split; [discriminate|by intros [? _]]|].
    rewrite app_nil_r, max_length_passes. tauto. }
  rewrite H3, H4, H5, H6. tauto.
Qed.

(** X2. A [Video] passes [full_clean] exactly when its [edx_video_id] is not
    empty, is text of the class [[a-zA-Z0-9_-]] of at most 100 characters and
    is not the id of a stored video it is compared with (every stored video
    for an instance being added, the videos with another key for one being
    edited), its [client_video_id] (which may be blank) has at most 255
    characters, its [duration] is set and not below zero, its [status] is
    not empty and has at most 255 characters, and, for an instance being
    added, no stored video has its key; otherwise [full_clean] raises a
    [ValidationError], and nothing is written either way. *)
Theorem Video_full_clean_spec (adding : bool) (v : Video) (w : World) :
  (full_clean adding v w = (Return tt, w)
   \/ exists errors, errors <> []
        /\ full_clean adding v w = (Raise (ValidationError errors), w))
  /\ (full_clean adding v w = (Return tt, w) <->
      edx_video_id v <> ""
      /\ url_text (edx_video_id v)
      /\ (String.length (edx_video_id v) <= 100)%nat
      /\ (String.length (client_video_id v) <= 255)%nat
      /\ (exists f, duration v = Some f /\ PrimFloat.ltb f 0 = false)
      /\ status v <> ""
      /\ (String.length (status v) <= 255)%nat
      /\ (forall q, q ∈ videos (db w) -> adding = true \/ same_pk q v = false ->
                    edx_video_id q <> edx_video_id v)
      /\ (adding = true -> forall q, q ∈ videos (db w) -> same_pk q v = false)).
Proof.
  split; [apply full_clean_outcome|].
  rewrite full_clean_passes_iff, Video_validate_unique, Video_id_lookup,
    Video_clean_fields.
  pose proof (URL_REGEX_validator_spec "edx_video_id has invalid characters"
                "invalid edx_video_id" (edx_video_id v)) as Hre.
  fold (url_text (edx_video_id v)) in Hre. rewrite Hre. tauto.
Qed.

Lemma Video_full_clean_spec_witness :
  full_clean true new_video (quiet_world one_video_db)
  = (Return tt, quiet_world one_video_db).
Proof.
  apply (proj2 (Video_full_clean_spec true new_video (quiet_world one_video_db))).
  split; [discriminate|]. split.
  { exists (list_ascii_of_string "intro-2"). split; [|by left]. repeat constructor. }
  split; [simpl; lia|]. split; [simpl; lia|].
  split; [exists 3%float; by split|].
  split; [discriminate|]. split; [simpl; lia|]. split.
  - intros q [->|Hq%elem_of_nil]%elem_of_cons _; [discriminate|done].
  - intros _ q _. unfold same_pk. simpl. by destruct (video_pk q).
Defined.

(** The stored lecture built afresh with its key and another client file
    name is refused on the key and on the id; loaded from the table and
    edited, it passes. *)
Example Video_full_clean_stored_key :
  fst (full_clean true renamed_lecture (quiet_world one_video_db))
  = Raise (ValidationError [("id", ["unique"]); ("edx_video_id", ["unique"])])
  /\ fst (full_clean false renamed_lecture (quiet_world one_video_db)) = Return tt.
Proof. vm_compute. by repeat split. Qed.

(** ** The validated factory on CourseVideo *)

Lemma le_foldr_max (l : list Z) (k : Z) : k ∈ l -> k <= foldr Z.max 0 l.
Proof.
  induction l as [|x l IH]; [by intros ?%elem_of_nil|].
  intros [->|Hin]%elem_of_cons; cbn [foldr]; [lia|]. specialize (IH Hin). lia.
Qed.

(** The key an insert hands out is above every key in the table. *)
Lemma next_pk_above {M} {HM : Model M} (rows : list M) (r : M) (k : Z) :
  r ∈ rows -> pk r = Some k -> k < next_pk rows.
Proof.
  intros Hin Hk. unfold next_pk.
  assert (k <= foldr Z.max 0 (omap pk rows)); [|lia].
  apply le_foldr_max, list_elem_of_omap. eauto.
Qed.

Lemma CourseVideo_clean_fields (d : DB) (c : CourseVideo) :
  clean_fields d c = [] <->
  course_id c <> ""
  /\ (String.length (course_id c) <= 255)%nat
  /\ (exists k, cv_video_id c = Some k /\ k ∈ table_pks d MVideo).
Proof.
  unfold clean_fields. rewrite clean_fields_loop_nil.
  change (@meta_fields CourseVideo _) with CourseVideo_fields.
  unfold CourseVideo_fields. rewrite !Forall_cons, Forall_nil.
  assert (H1 : field_errors d c id_field = []).
  { unfold field_errors. simpl. unfold CourseVideo_getattr. simpl.
    by destruct (cv_pk c). }
  assert (H2 : field_errors d c (CharField "course_id" 255 false false []) = [] <->
               course_id c <> "" /\ (String.length (course_id c) <= 255)%nat).
  { unfold field_errors, field_clean, field_validate, field_run_validators.
    simpl name. simpl blank. simpl null. simpl editable. simpl ftype. simpl validators.
    change (getattr c "course_id") with (VStr (course_id c)).
    cbn [negb andb value_eqb is_empty_value flat_map app].
    case_bool_decide as Hb; [split; [discriminate|by intros [? _]]|].
    rewrite app_nil_r, max_length_passes. tauto. }
  assert (H3 : field_errors d c (ForeignKey "video" MVideo) = [] <->
               exists k, cv_video_id c = Some k /\ k ∈ table_pks d MVideo).
  { unfold field_errors, field_clean, field_validate, field_run_validators.
    simpl name. simpl blank. simpl null. simpl editable. simpl ftype. simpl validators.
    change (getattr c "video") with (opt_value VInt (cv_video_id c)).
    destruct (cv_video_id c) as [k|]; simpl.
    - case_bool_decide as Hk; simpl.
      + split; [eauto|done].
      + split; [discriminate|]. by intros (? & [= <-] & ?).
    - split; [discriminate|]. by intros (? & [=] & _). }
  assert (H4 : field_errors d c (BooleanField "is_hidden") = []).
  { unfold field_errors. simpl. unfold CourseVideo_getattr. by simpl. }
  rewrite H2, H3. tauto.
Qed.

Lemma CourseVideo_validate_unique (d : DB) (c : CourseVideo) :
  cv_pk c = None ->
  is_Some (cv_video_id c) ->
  validate_unique d c true [] = [] <->
  unique_conflict (course_videos d) c ["course_id"; "video"] = false.
Proof.
  intros Hpk [k Hk]. unfold validate_unique.
  change (@unique_checks CourseVideo _) with [["course_id"; "video"]; ["id"]].
  cbn [flat_map]. rewrite app_nil_r.
  assert (unique_check_errors d c true [] ["id"] = []) as ->.
  { pose proof (id_check_spec (M := CourseVideo) d c true (fun _ => eq_refl)
                  eq_refl) as Hid.
    apply Hid. intros _ q _. unfold same_pk. change (pk c) with (cv_pk c). rewrite Hpk.
    by destruct (pk q). }
  rewrite app_nil_r. unfold unique_check_errors. cbn [existsb].
  rewrite !bool_decide_eq_false_2 by apply not_elem_of_nil. cbn [orb].
  change (getattr c "course_id") with (VStr (course_id c)).
  change (getattr c "video") with (opt_value VInt (cv_video_id c)).
  rewrite Hk. cbn [opt_value value_eqb orb negb andb].
  change (@objects CourseVideo _ d) with (course_videos d).
  rewrite (unique_lookup_unkeyed (HM := CourseVideo_Model) (course_videos d) c true
             ["course_id"; "video"] Hpk).
  by destruct (unique_conflict (course_videos d) c ["course_id"; "video"]).
Qed.

Lemma cv_conflict_free (rows : list CourseVideo) (c : CourseVideo) :
  unique_conflict rows c ["course_id"; "video"] = false <->
  forall q, q ∈ rows -> same_pk q c = false -> cv_key q <> cv_key c.
Proof.
  split.
  - intros Hc q Hq Hpk Hk. apply not_true_iff_false in Hc.
    apply Hc, cv_conflict_spec. eauto.
  - intros Hfree. apply not_true_is_false.
    intros (q & Hq & Hpk & Hk)%cv_conflict_spec. by apply (Hfree q).
Qed.

(** A freshly built [CourseVideo] without a key passes [full_clean] exactly
    when it is valid. *)
Lemma CourseVideo_full_clean_iff (c : CourseVideo) (w : World) :
  cv_pk c = None ->
  full_clean true c w = (Return tt, w) <-> valid_course_video (db w) c.
Proof.
  intros Hpk.
  rewrite full_clean_passes_iff, CourseVideo_clean_fields. unfold valid_course_video.
  split.
  - intros [(Hb & Hl & k & Hk & Hin) Hu]. repeat split; eauto.
    apply cv_conflict_free, CourseVideo_validate_unique; eauto.
  - intros (Hb & Hl & (k & Hk & Hin) & Hu). split; [eauto|].
    apply CourseVideo_validate_unique; [done|eauto|]. by apply cv_conflict_free.
Qed.

(** An unsaved, valid candidate is inserted under a fresh key. *)
Lemma CourseVideo_save_valid (c : CourseVideo) (w : World) :
  cv_pk c = None ->
  valid_course_video (db w) c ->
  save c w =
  (Return (keyed (course_videos (db w)) c),
   set_db (set_objects (course_videos (db w) ++ [keyed (course_videos (db w)) c])%list
             (db w)) w).
Proof.
  intros Hpk (Hb & Hl & (k & Hk & Hin) & Hu).
  set (rows := course_videos (db w)).
  assert (Hkeyed : keyed rows c = set_pk (Some (next_pk rows)) c)
    by (unfold keyed; change (pk c) with (cv_pk c); by rewrite Hpk).
  assert (Hfresh : existsb (fun r => same_pk r (keyed rows c)) rows = false).
  { apply not_true_is_false. intros (r & Hr%list_elem_of_In & Hsame)%existsb_exists.
    apply same_pk_true in Hsame as [[j Hj] Heq]. rewrite Hkeyed in Heq. simpl in Heq.
    pose proof (next_pk_above rows r j Hr Hj) as Hlt. rewrite Hj in Heq.
    injection Heq as ->. lia. }
  assert (Hviol : db_constraint_violation rows (keyed rows c) = None).
  { assert (Hnn : List.filter
                    (fun f => negb (null f)
                              && value_eqb (getattr (keyed rows c) (name f)) VNone)
                    (meta_fields (M := CourseVideo)) = []).
    { rewrite Hkeyed. simpl. unfold CourseVideo_getattr. simpl. by rewrite Hk. }
    assert (Hc1 : unique_conflict rows (keyed rows c) ["course_id"; "video"] = false).
    { apply cv_conflict_free. intros q Hq _.
      destruct (keyed_key rows c) as [-> _]. apply Hu; [done|].
      unfold same_pk. change (pk c) with (cv_pk c). rewrite Hpk.
      by destruct (pk q). }
    assert (Hc2 : unique_conflict rows (keyed rows c) ["id"] = false).
    { apply id_never_conflicts; [done|]. rewrite Hkeyed. by eexists. }
    unfold db_constraint_violation. rewrite Hnn.
    change (@unique_checks CourseVideo _) with [["course_id"; "video"]; ["id"]].
    cbn [List.filter]. by rewrite Hc1, Hc2. }
  unfold save, save_base, bind at 1, get_db. cbv beta iota.
  change (pk c) with (cv_pk c). rewrite Hpk. cbv iota.
  unfold bind at 1. simpl pre_save. unfold ret at 1. cbv beta iota.
  unfold bind at 1, db_insert, bind at 1, get_db. cbv beta iota.
  change (@objects CourseVideo _ (db w)) with rows. cbv zeta.
  rewrite Hfresh, Hviol. by unfold bind, put_db, ret.
Qed.

Lemma CourseVideo_construct (kwargs : CourseVideoKwargs) (w : World) :
  construct (M := CourseVideo) kwargs w = (Return (CourseVideo_init kwargs []), w).
Proof. rewrite construct_spec. simpl. by rewrite Nat.add_0_r, set_ticks_same. Qed.

(** A valid candidate passes [full_clean] and is inserted. *)
Lemma CourseVideo_create_valid (kwargs : CourseVideoKwargs) (w : World) :
  valid_course_video (db w) (CourseVideo_init kwargs []) ->
  create_with_validation (M := CourseVideo) kwargs w =
  (Return None,
   set_db (set_objects
             (course_videos (db w)
              ++ [keyed (course_videos (db w)) (CourseVideo_init kwargs [])])%list
             (db w)) w).
Proof.
  intros Hvalid. unfold create_with_validation.
  rewrite (bind_Return _ _ _ _ _ (CourseVideo_construct kwargs w)).
  rewrite (bind_Return _ _ _ _ _
             (proj2 (CourseVideo_full_clean_iff (CourseVideo_init kwargs []) w eq_refl)
                    Hvalid)).
  by rewrite (bind_Return _ _ _ _ _
                (CourseVideo_save_valid (CourseVideo_init kwargs []) w eq_refl Hvalid)).
Qed.

(** A candidate [full_clean] rejects is not saved. *)
Lemma CourseVideo_create_rejected (kwargs : CourseVideoKwargs) (w : World)
    (e : Exception) :
  full_clean true (CourseVideo_init kwargs []) w = (Raise e, w) ->
  create_with_validation (M := CourseVideo) kwargs w = (Raise e, w).
Proof.
  intros Herr. unfold create_with_validation.
  rewrite (bind_Return _ _ _ _ _ (CourseVideo_construct kwargs w)).
  by rewrite (bind_Raise _ _ _ _ _ Herr).
Qed.



Lemma CourseVideo_lookup_init (kwargs : CourseVideoKwargs) (rows : list CourseVideo) :
  is_Some (cv_video_id (CourseVideo_init kwargs [])) ->
  CourseVideo_lookup kwargs (keyed rows (CourseVideo_init kwargs [])) = true.
Proof.
  intros [k Hk]. unfold keyed. simpl. unfold CourseVideo_lookup. simpl in *.
  destruct (kw_course_id kwargs), (kw_video kwargs) as [v|], (kw_is_hidden kwargs);
    simpl in *; rewrite ?bool_decide_eq_true_2; try done; split; eauto.
Qed.

(** X4. When [get_or_create_with_validation] on [CourseVideo] answers
    [created = True], it has appended exactly one row, that row matches the
    keywords, and the same call made again finds it: it answers
    [(row, False)] and writes nothing. *)
Theorem CourseVideo_get_or_create_with_validation_again
    (kwargs : CourseVideoKwargs) (w w1 : World) (obj : option CourseVideo) :
  get_or_create_with_validation (M := CourseVideo) kwargs w
  = (Return (obj, true), w1) ->
  exists row,
    course_videos (db w1) = (course_videos (db w) ++ [row])%list
    /\ CourseVideo_lookup kwargs row = true
    /\ get_or_create_with_validation (M := CourseVideo) kwargs w1
       = (Return (Some row, false), w1).
Proof.
  intros Hrun.
  destruct (get_or_create_with_validation_created _ _ _ _ Hrun) as [-> Hnone].
  revert Hrun. unfold get_or_create_with_validation at 1, try_except, bind at 1.
  rewrite objects_get_spec, Hnone. cbn [is_DoesNotExist]. unfold bind at 1.
  set (candidate := CourseVideo_init kwargs []).
  destruct (full_clean_outcome true candidate w) as [Hok|(errors & _ & Herr)].
  - apply CourseVideo_full_clean_iff in Hok as Hvalid; [|done].
    rewrite (CourseVideo_create_valid kwargs w Hvalid).
    unfold ret. intros [= <-].
    set (row := keyed (course_videos (db w)) candidate).
    assert (Hlook : CourseVideo_lookup kwargs row = true).
    { apply CourseVideo_lookup_init. destruct Hvalid as (_ & _ & (k & Hk & _) & _).
      exists k. exact Hk. }
    exists row. split; [done|]. split; [done|].
    apply get_or_create_with_validation_existing. simpl.
    change (List.filter (CourseVideo_lookup kwargs)
              (course_videos (db w) ++ [row])%list = [row]).
    rewrite List.filter_app.
    change (List.filter (CourseVideo_lookup kwargs) (course_videos (db w)) = [])
      in Hnone.
    rewrite Hnone. simpl. by rewrite Hlook.
  - rewrite (CourseVideo_create_rejected kwargs w _ Herr). discriminate.
Qed.

Lemma CourseVideo_get_or_create_with_validation_again_witness :
  exists row,
    course_videos (db (snd lecture_first_call))
    = (course_videos (db (quiet_world one_video_db)) ++ [row])%list
    /\ CourseVideo_lookup lecture_kwargs row = true
    /\ get_or_create_with_validation (M := CourseVideo) lecture_kwargs
         (snd lecture_first_call)
       = (Return (Some row, false), snd lecture_first_call).
Proof.
  apply (CourseVideo_get_or_create_with_validation_again lecture_kwargs
           (quiet_world one_video_db) (snd lecture_first_call) None).
  transitivity (fst lecture_first_call, snd lecture_first_call);
    [apply surjective_pairing|].
  f_equal; vm_compute; reflexivity.
Defined.

(** ** The file name of an attached image *)

Lemma rfind_from_spec (c : ascii) (p : list ascii) (i acc : Z) :
  (rfind_from c p i acc = acc /\ c ∉ p)
  \/ exists n : nat,
       rfind_from c p i acc = i + Z.of_nat n
       /\ p !! n = Some c /\ c ∉ drop (S n) p.
Proof.
  revert i acc. induction p as [|x p IH]; intros i acc; simpl.
  { left. split; [done|]. apply not_elem_of_nil. }
  destruct (IH (i + 1) (if Ascii.eqb x c then i else acc))
    as [[Hr Hnot]|(n & Hr & Hn & Hnot)].
  - destruct (Ascii.eqb x c) eqn:E.
    + apply Ascii.eqb_eq in E as ->. right. exists 0%nat.
      split; [rewrite Hr; lia|]. by split.
    + apply Ascii.eqb_neq in E. left. split; [done|].
      intros [->|?]%elem_of_cons; done.
  - right. exists (S n). split; [rewrite Hr; lia|]. by split.
Qed.

Lemma string_of_list_ascii_app (a b : list ascii) :
  string_of_list_ascii (a ++ b) = string_of_list_ascii a ++ string_of_list_ascii b.
Proof. induction a as [|x a IH]; simpl; [done|]. by rewrite IH. Qed.

Lemma list_ascii_of_string_app (a b : string) :
  list_ascii_of_string (a ++ b)
  = (list_ascii_of_string a ++ list_ascii_of_string b)%list.
Proof. induction a as [|x a IH]; simpl; [done|]. by rewrite IH. Qed.

Lemma string_app_nil_r (s : string) : s ++ "" = s.
Proof.
  induction s as [|x s IH]; [done|].
  change (String x (s ++ "") = String x s). by rewrite IH.
Qed.

Lemma string_app_inv_tail (a b e : string) : a ++ e = b ++ e -> a = b.
Proof.
  intros H. apply (f_equal list_ascii_of_string) in H.
  rewrite !list_ascii_of_string_app in H. apply app_inv_tail in H.
  apply (f_equal string_of_list_ascii) in H.
  by rewrite !string_of_list_ascii_of_string in H.
Qed.

Lemma rfind_from_notin (c : ascii) (p : list ascii) (i acc : Z) :
  c ∉ p -> rfind_from c p i acc = acc.
Proof.
  intros Hnot. destruct (rfind_from_spec c p i acc) as [[? _]|(n & _ & Hn & _)];
    [done|]. destruct Hnot. by eapply list_elem_of_lookup_2.
Qed.

Lemma rfind_from_last (c : ascii) (a b : list ascii) (i acc : Z) :
  c ∉ b -> rfind_from c (a ++ c :: b) i acc = i + Z.of_nat (List.length a).
Proof.
  intros Hb. revert i acc. induction a as [|x a IH]; intros i acc.
  - cbn [app rfind_from]. rewrite Ascii.eqb_refl, rfind_from_notin by done.
    simpl. lia.
  - cbn [app rfind_from]. rewrite IH. simpl List.length. lia.
Qed.

(** The index of the last occurrence. *)
Lemma rfind_last (c : ascii) (a b : list ascii) :
  c ∉ b -> rfind c (a ++ c :: b) = Z.of_nat (List.length a).
Proof. intros Hb. unfold rfind. by rewrite rfind_from_last. Qed.

Lemma rfind_notin (c : ascii) (p : list ascii) : c ∉ p -> rfind c p = -1.
Proof. apply rfind_from_notin. Qed.

Lemma split_at_last (c : ascii) (l : list ascii) :
  c ∉ l \/ exists a b, l = (a ++ c :: b)%list /\ c ∉ b.
Proof.
  induction l as [|x l IH]; [left; apply not_elem_of_nil|].
  destruct IH as [Hnot|(a & b & -> & Hb)].
  - destruct (decide (x = c)) as [->|Hx].
    + right. by exists [], l.
    + left. by intros [->|?]%elem_of_cons.
  - right. by exists (x :: a), b.
Qed.

Lemma rfind_app_notin (c : ascii) (a b : list ascii) :
  c ∉ b -> rfind c (a ++ b) = rfind c a.
Proof.
  intros Hb. destruct (split_at_last c a) as [Ha|(a1 & a2 & -> & Ha2)].
  - rewrite !rfind_notin; [done|done|]. by intros [?|?]%elem_of_app.
  - rewrite <- app_assoc. cbn [app]. rewrite !rfind_last; [done|done|].
    by intros [?|?]%elem_of_app.
Qed.

Lemma rfind_bounds (c : ascii) (p : list ascii) :
  -1 <= rfind c p < Z.of_nat (List.length p).
Proof.
  destruct (split_at_last c p) as [Hp|(a & b & -> & Hb)].
  - rewrite rfind_notin by done. lia.
  - rewrite rfind_last by done. rewrite length_app. simpl. lia.
Qed.

(** [os.path.splitext] finds an extension: the last component has a dot
    with a character other than a dot before it. *)
Lemma splitext_ext (ld ls lr : list ascii) :
  "/"%char ∉ ls -> "/"%char ∉ lr -> "."%char ∉ lr ->
  Exists (fun c => c <> "."%char) ls ->
  splitext (string_of_list_ascii (ld ++ ls ++ "."%char :: lr))
  = (string_of_list_ascii (ld ++ ls), string_of_list_ascii ("."%char :: lr)).
Proof.
  intros Hs Hr Hdot (c & Hc & Hne)%Exists_exists.
  apply list_elem_of_lookup in Hc as [j Hj].
  pose proof (lookup_lt_Some _ _ _ Hj) as Hjlt.
  unfold splitext. rewrite list_ascii_of_string_of_list_ascii.
  assert (Hd : rfind "." (ld ++ ls ++ "."%char :: lr)
               = Z.of_nat (List.length (ld ++ ls)))
    by (rewrite app_assoc; by apply rfind_last).
  assert (Hsep : rfind "/" (ld ++ ls ++ "."%char :: lr) = rfind "/" ld).
  { apply rfind_app_notin. intros [?|[?|?]%elem_of_cons]%elem_of_app; done. }
  pose proof (rfind_bounds "/" ld) as Hb.
  rewrite Hd, Hsep, length_app.
  assert ((rfind "/" ld <? Z.of_nat (List.length ld + List.length ls)) = true)
    as -> by (apply Z.ltb_lt; lia).
  set (n0 := Z.to_nat (rfind "/" ld + 1)).
  assert (existsb (fun c => negb (Ascii.eqb c "."))
            (take (Z.to_nat (Z.of_nat (List.length ld + List.length ls)
                             - (rfind "/" ld + 1)))
               (drop n0 (ld ++ ls ++ "."%char :: lr))) = true) as ->.
  { apply existsb_exists. exists c. split.
    - apply list_elem_of_In, list_elem_of_lookup.
      exists (List.length ld + j - n0)%nat.
      rewrite lookup_take_lt by (unfold n0; lia). rewrite lookup_drop.
      replace (n0 + (List.length ld + j - n0))%nat with (List.length ld + j)%nat
        by (unfold n0; lia).
      rewrite lookup_app_r by lia.
      replace (List.length ld + j - List.length ld)%nat with j by lia.
      by rewrite lookup_app_l.
    - apply negb_true_iff. by apply Ascii.eqb_neq. }
  cbn [andb]. rewrite Nat2Z.id, <- length_app, app_assoc.
  by rewrite take_app_length, drop_app_length.
Qed.

(** [os.path.splitext] finds no extension: after its leading dots the last
    component has no dot. *)
Lemma splitext_no_ext (ld ldots ls : list ascii) :
  ld = [] \/ (exists d, ld = (d ++ ["/"%char])%list) ->
  Forall (fun c => c = "."%char) ldots ->
  "."%char ∉ ls -> "/"%char ∉ ls ->
  splitext (string_of_list_ascii (ld ++ ldots ++ ls))
  = (string_of_list_ascii (ld ++ ldots ++ ls), "").
Proof.
  intros Hdir Hdots Hdot Hsl.
  assert (Hnd : "/"%char ∉ ldots).
  { intros Hin. pose proof (proj1 (Forall_forall _ _) Hdots _ Hin) as E.
    discriminate E. }
  assert (Hsep : rfind "/" (ld ++ ldots ++ ls) + 1 = Z.of_nat (List.length ld)).
  { rewrite rfind_app_notin by (by intros [?|?]%elem_of_app).
    destruct Hdir as [->|[d ->]]; [done|].
    rewrite rfind_last by apply not_elem_of_nil. rewrite length_app. simpl. lia. }
  unfold splitext. rewrite list_ascii_of_string_of_list_ascii.
  destruct (ldots) as [|x dd _] using rev_ind.
  - cbn [app]. cbn [app] in Hsep.
    assert (rfind "." (ld ++ ls) <= rfind "/" (ld ++ ls)); [|
      by assert ((rfind "/" (ld ++ ls) <? rfind "." (ld ++ ls)) = false) as ->
        by (apply Z.ltb_ge; lia)].
    rewrite (rfind_app_notin "." ld ls Hdot).
    destruct Hdir as [->|[d ->]]; [rewrite rfind_notin by apply not_elem_of_nil;
      pose proof (rfind_bounds "/" ([] ++ ls)); lia|].
    rewrite (rfind_app_notin "." d ["/"%char])
      by (by intros [?|?%elem_of_nil]%elem_of_cons).
    pose proof (rfind_bounds "." d). rewrite length_app in Hsep. simpl in Hsep. lia.
  - apply Forall_app in Hdots as [Hdd Hx]. apply Forall_singleton in Hx as ->.
    assert (Hd : rfind "." (ld ++ (dd ++ ["."%char]) ++ ls)
                 = Z.of_nat (List.length (ld ++ dd))).
    { rewrite <- (app_assoc dd), app_assoc. cbn [app]. by apply rfind_last. }
    rewrite Hd.
    replace (Z.to_nat (rfind "/" (ld ++ (dd ++ ["."%char]) ++ ls) + 1))
      with (List.length ld) by lia.
    replace (Z.to_nat (Z.of_nat (List.length (ld ++ dd))
                       - (rfind "/" (ld ++ (dd ++ ["."%char]) ++ ls) + 1)))
      with (List.length dd) by (rewrite length_app; lia).
    rewrite drop_app_length, <- (app_assoc dd), take_app_length.
    assert (existsb (fun c => negb (Ascii.eqb c ".")) dd = false) as ->.
    { apply not_true_is_false. intros (c & Hc%list_elem_of_In & Hn)%existsb_exists.
      eapply Forall_forall in Hdd; [|done]. subst c. by rewrite Ascii.eqb_refl in Hn. }
    by rewrite andb_false_r.
Qed.

(** The leading dots of a text, and what follows them. *)
Lemma split_leading_dots (l : list ascii) :
  exists dots rest,
    l = (dots ++ rest)%list /\ Forall (fun c => c = "."%char) dots
    /\ (rest = [] \/ exists x t, rest = x :: t /\ x <> "."%char).
Proof.
  induction l as [|x l (dots & rest & -> & Hdots & Hrest)].
  - exists [], []. split; [done|]. split; [constructor|by left].
  - destruct (decide (x = "."%char)) as [->|Hx].
    + exists ("."%char :: dots), rest. split; [done|]. split; [by constructor|done].
    + exists [], (x :: dots ++ rest)%list. split; [done|]. split; [constructor|].
      right. eauto.
Qed.

(** X5. The name [create_or_update] gives the file is the decimal seconds
    [strftime("%s")] answers for the timestamp ([mktime] of its whole
    seconds) followed by the extension [os.path.splitext] finds in the name
    it was given.  When the last path component has a dot with a character
    other than a dot somewhere before it, the extension is the last dot of
    the component and what follows; directories and earlier extensions are
    dropped.  When the last component has no dot after its leading dots,
    there is no extension and the name is the seconds alone.  Every file
    name is of one of these two shapes. *)
Theorem image_file_name_shape (mktime : Z -> Z) (modified : Z) :
  let seconds := pretty (mktime (modified `div` 1000000)) in
  (forall dir stem rest,
     ~ has_char "/" stem -> ~ only_dots stem ->
     ~ has_char "/" rest -> ~ has_char "." rest ->
     image_file_name mktime modified (dir ++ stem ++ String "." rest)
     = seconds ++ String "." rest)
  /\ (forall dir dots stem,
        dir = "" \/ (exists d, dir = d ++ "/") ->
        only_dots dots -> ~ has_char "." stem -> ~ has_char "/" stem ->
        image_file_name mktime modified (dir ++ dots ++ stem) = seconds)
  /\ (forall file_name,
        (exists dir stem rest,
           file_name = dir ++ stem ++ String "." rest
           /\ ~ has_char "/" stem /\ ~ only_dots stem
           /\ ~ has_char "/" rest /\ ~ has_char "." rest)
        \/ (exists dir dots stem,
              file_name = dir ++ dots ++ stem
              /\ (dir = "" \/ exists d, dir = d ++ "/")
              /\ only_dots dots /\ ~ has_char "." stem /\ ~ has_char "/" stem)).
Proof.
  intros seconds. split; [|split].
  - intros dir stem rest Hs Hnd Hr Hdot.
    rewrite image_file_name_spec.
    rewrite <- (string_of_list_ascii_of_string (dir ++ stem ++ String "." rest)).
    rewrite !list_ascii_of_string_app. cbn [list_ascii_of_string].
    rewrite splitext_ext; try done.
    + cbn [snd string_of_list_ascii]. by rewrite string_of_list_ascii_of_string.
    + apply not_Forall_Exists in Hnd; [|intros x; apply _].
      eapply Exists_impl; [exact Hnd|]. by intros x Hx.
  - intros dir dots stem Hdir Hdots Hdot Hs.
    rewrite image_file_name_spec.
    rewrite <- (string_of_list_ascii_of_string (dir ++ dots ++ stem)).
    rewrite !list_ascii_of_string_app.
    rewrite splitext_no_ext; try done.
    + cbn [snd]. apply string_app_nil_r.
    + destruct Hdir as [->|[d ->]]; [by left|right].
      exists (list_ascii_of_string d). by rewrite list_ascii_of_string_app.
  - intros file_name. set (l := list_ascii_of_string file_name).
    assert (Hdir : exists ld base,
              l = (ld ++ base)%list /\ ("/"%char ∉ base)
              /\ (ld = [] \/ exists d, ld = (d ++ ["/"%char])%list)).
    { destruct (split_at_last "/" l) as [Hl|(a & b & Hl & Hb)].
      - exists [], l. split; [done|]. split; [done|by left].
      - exists (a ++ ["/"%char])%list, b. rewrite <- app_assoc. split; [done|].
        split; [done|right; eauto]. }
    destruct Hdir as (ld & base & Hl & Hbase & Hld).
    assert (Hdir' : string_of_list_ascii ld = ""
                    \/ exists d, string_of_list_ascii ld = d ++ "/").
    { destruct Hld as [->|[d ->]]; [by left|right].
      exists (string_of_list_ascii d). by rewrite string_of_list_ascii_app. }
    destruct (split_leading_dots base) as (dots & rest & -> & Hdots & Hrest).
    destruct (split_at_last "." rest) as [Hnodot|(s & r & -> & Hr)].
    + right. exists (string_of_list_ascii ld), (string_of_list_ascii dots),
        (string_of_list_ascii rest).
      rewrite <- !string_of_list_ascii_app, <- Hl.
      unfold l, only_dots, has_char.
      rewrite string_of_list_ascii_of_string, !list_ascii_of_string_of_list_ascii.
      repeat split; try done. intros ?. apply Hbase, elem_of_app. by right.
    + left. exists (string_of_list_ascii ld), (string_of_list_ascii (dots ++ s)),
        (string_of_list_ascii r).
      change (String "." (string_of_list_ascii r))
        with (string_of_list_ascii ("."%char :: r)).
      rewrite <- !string_of_list_ascii_app, <- (app_assoc dots), <- Hl.
      unfold l, only_dots, has_char.
      rewrite string_of_list_ascii_of_string, !list_ascii_of_string_of_list_ascii.
      split; [done|]. split; [|split; [|split; [|done]]].
      * intros [?|?]%elem_of_app; apply Hbase; rewrite !elem_of_app; eauto.
      * destruct Hrest as [Hnil|(x & t & Hxt & Hx)].
        { by destruct s. }
        destruct s as [|y s]; [simpl in Hxt; congruence|].
        injection Hxt as <- _. intros [_ Hall]%Forall_app.
        by apply Forall_cons in Hall as [? _].
      * intros ?. apply Hbase. rewrite !elem_of_app, elem_of_cons. eauto.
Qed.

Lemma image_file_name_shape_witness :
  image_file_name five_hours_west 100000000 "dir.d/b.c.png" = "18100.png"
  /\ image_file_name utc 100000000 "media/.hidden" = "100".
Proof.
  destruct (image_file_name_shape five_hours_west 100000000) as (Hext & _ & _).
  destruct (image_file_name_shape utc 100000000) as (_ & Hnone & _).
  split.
  - apply (Hext "dir.d/" "b.c" "png"); unfold has_char, only_dots;
      apply (bool_decide_unpack _); vm_compute; reflexivity.
  - apply (Hnone "media/" "." "hidden").
    + right. by exists "media".
    + repeat constructor.
    + unfold has_char. apply (bool_decide_unpack _). vm_compute. reflexivity.
    + unfold has_char. apply (bool_decide_unpack _). vm_compute. reflexivity.
Defined.

(** X6. Two attaches whose file names have the same extension are given the
    same file name exactly when [mktime] answers the same number for the
    whole seconds of their timestamps; in a process whose zone has a fixed
    offset from UTC, that is exactly when the timestamps fall in the same
    second. *)
Theorem image_file_name_collision (m1 m2 : Z) (file_name1 file_name2 : string) :
  snd (splitext file_name1) = snd (splitext file_name2) ->
  (forall mktime,
     image_file_name mktime m1 file_name1 = image_file_name mktime m2 file_name2 <->
     mktime (m1 `div` 1000000) = mktime (m2 `div` 1000000))
  /\ (forall utcoff,
        image_file_name (fixed_offset_mktime utcoff) m1 file_name1
        = image_file_name (fixed_offset_mktime utcoff) m2 file_name2 <->
        m1 `div` 1000000 = m2 `div` 1000000).
Proof.
  intros Hext.
  assert (Hany : forall mktime,
     image_file_name mktime m1 file_name1 = image_file_name mktime m2 file_name2 <->
     mktime (m1 `div` 1000000) = mktime (m2 `div` 1000000)).
  { intros mktime. rewrite !image_file_name_spec, Hext. split.
    - intros H%string_app_inv_tail. by apply (inj pretty).
    - by intros ->. }
  split; [done|]. intros utcoff. rewrite Hany. unfold fixed_offset_mktime. lia.
Qed.

Lemma image_file_name_collision_witness :
  image_file_name utc 100000000 "a.png"
  = image_file_name utc 100999999 "dir/b.c.png"
  /\ image_file_name five_hours_west 100000000 "a.png"
     <> image_file_name five_hours_west 101000000 "a.png".
Proof.
  split.
  - apply (proj2 (proj2 (image_file_name_collision 100000000 100999999 "a.png"
                           "dir/b.c.png" eq_refl) 0)). reflexivity.
  - intros H. by apply (proj1 (proj2 (image_file_name_collision 100000000 101000000
                                        "a.png" "a.png" eq_refl) (-18000))) in H.
Defined.

(** ** More on attaching an image *)

(** A [VideoImage.save()] that raises has written no row. *)
Lemma VideoImage_save_raise (force_insert : bool) (vi : VideoImage)
    (w w' : World) (e : Exception) :
  save_base force_insert vi w = (Raise e, w') ->
  db w' = db w /\ is_integrity_error e = true.
Proof.
  assert (Hins : forall u w0,
    (self <- pre_save true u ;; self <- db_insert self ;;
     post_save self true ;;; ret self) w0 = (Raise e, w') ->
    db w' = db w0 /\ is_integrity_error e = true).
  { intros u w0. unfold bind at 1. simpl pre_save.
    unfold VideoImage_pre_save, bind at 1, now, ret at 1. cbv beta iota.
    unfold bind at 1.
    destruct (db_insert _ _) as [[s|e'] w2] eqn:Hin.
    - unfold bind, ret. simpl. discriminate.
    - apply db_insert_inv in Hin as [([=] & _)|(c & [= ->] & ->)].
      by intros [= <- <-]. }
  unfold save_base, bind at 1, get_db. cbv beta iota.
  destruct (match pk vi with Some _ => negb force_insert | None => false end).
  - unfold bind at 1. simpl pre_save.
    unfold VideoImage_pre_save, bind at 1, now, ret at 1. cbv beta iota.
    destruct (existsb _ _).
    + unfold bind at 1.
      destruct (db_update _ _) as [[s|e'] w2] eqn:Hup.
      * unfold bind, ret. simpl. discriminate.
      * apply db_update_inv in Hup as [([=] & _)|(c & [= ->] & ->)].
        by intros [= <- <-].
    + intros Hrun. by apply Hins in Hrun.
  - intros Hrun. by apply Hins in Hrun.
Qed.

(** [get_or_create] answers [created = True] exactly when no row was stored
    for the course video. *)
Lemma VideoImage_get_or_create_created (course_video : CourseVideo)
    (w w0 : World) (r : VideoImage) (created : bool) :
  objects_get_or_create (M := VideoImage) course_video w
  = (Return (r, created), w0) ->
  (created = true <->
   List.filter (VideoImage_lookup course_video) (video_images (db w)) = [])
  /\ (created = false -> w0 = w).
Proof.
  intros Hgoc.
  destruct (List.filter (VideoImage_lookup course_video) (video_images (db w)))
    as [|r0 rs] eqn:Hf.
  - revert Hgoc. unfold objects_get_or_create, try_except at 1, bind at 1.
    rewrite objects_get_spec.
    change (List.filter (lookup (ModelInit := VideoImage_ModelInit) course_video)
              (objects (db w)))
      with (List.filter (VideoImage_lookup course_video) (video_images (db w))).
    rewrite Hf. cbn [is_DoesNotExist].
    unfold try_except at 1, bind at 1, objects_create, bind at 1.
    rewrite construct_spec. cbv beta iota.
    destruct (save_base true _ _) as [[s'|e] w1] eqn:Hsave.
    + unfold ret. intros [= <- <- <-]. by split.
    + apply VideoImage_save_raise in Hsave as [Hdb _].
      destruct (is_integrity_error e); [|discriminate].
      unfold try_except, bind. rewrite objects_get_spec.
      change (List.filter (lookup (ModelInit := VideoImage_ModelInit) course_video)
                (objects (db w1)))
        with (List.filter (VideoImage_lookup course_video) (video_images (db w1))).
      rewrite Hdb. simpl db. rewrite Hf. simpl. discriminate.
  - destruct (get_or_create_found (HI := VideoImage_ModelInit) _ _ _ _ Hf _ _ _ Hgoc)
      as (_ & _ & -> & ->). split; [|done]. split; discriminate.
Qed.

Section ImageAttachOutcomes.
Variable mktime : Z -> Z.
Variable video_image_path : VideoImage -> string -> string.
Variable storage_save :
  gmap string (list Byte.byte) -> string -> UploadedFile ->
  Result string * gmap string (list Byte.byte).

#[local] Abbreviation attach' :=
  (VideoImage_create_or_update mktime video_image_path storage_save).
#[local] Abbreviation with_block' :=
  (attach_body mktime video_image_path storage_save).

(** X7. An attach that returns answers [created = True] exactly when no
    [VideoImage] was stored for the course video before the call; the record
    it returns belongs to that course video and is stored when the call
    ends. *)
Theorem create_or_update_created_flag (course_video : CourseVideo) (h : nat)
    (file_name : string) (w w' : World) (vi : VideoImage) (created : bool) :
  attach' course_video h file_name w = (Return (vi, created), w') ->
  (created = true <->
   List.filter (VideoImage_lookup course_video) (video_images (db w)) = [])
  /\ vi_course_video_id vi = cv_pk course_video
  /\ is_Some (cv_pk course_video)
  /\ vi ∈ video_images (db w').
Proof.
  intros (fetched & w0 & m & Hgoc & _ & _ & Hlook & Hin & _)%attach_inv.
  apply VideoImage_get_or_create_created in Hgoc as [Hcreated _].
  split; [done|]. apply opt_Z_eqb_true in Hlook as [Hs Heq].
  repeat split; try done. by rewrite <- Heq.
Qed.

(** X8. When the storage backend raises on the stream it is handed, open
    or already closed, the attach raises the backend's exception with the
    stream closed; the stored files are as the backend left them and the
    database is as [get_or_create] left it, so a record created by this very
    call stays behind without an image. *)
Theorem create_or_update_storage_failure (course_video : CourseVideo) (h : nat)
    (file_name : string) (w w0 : World) (fetched : VideoImage) (created : bool)
    (m : Z) (up : UploadedFile) (e : Exception)
    (fs' : gmap string (list Byte.byte)) :
  objects_get_or_create (M := VideoImage) course_video w
  = (Return (fetched, created), w0) ->
  vi_modified fetched = Some m ->
  streams w0 !! h = Some up ->
  storage_save (files w0)
    (video_image_path fetched (image_file_name mktime m file_name)) up
  = (Raise e, fs') ->
  exists w',
    attach' course_video h file_name w = (Raise e, w')
    /\ db w' = db w0 /\ files w' = fs' /\ is_closed h w'
    /\ fetched ∈ video_images (db w').
Proof.
  intros Hgoc Hm Hup Hst.
  exists (snd (stream_close h (set_files fs' w0))).
  rewrite create_or_update_unfold, Hgoc. unfold attach_body. rewrite Hm.
  unfold bind at 1, image_save, bind at 1, backend_save. rewrite Hup, Hst.
  split; [done|]. split; [done|]. split; [done|].
  split.
  - exists {| file_bytes := file_bytes up; closed := true |}. split; [|done].
    simpl. by rewrite lookup_alter_eq, Hup.
  - by apply VideoImage_get_or_create_inv in Hgoc as [_ ?].
Qed.

End ImageAttachOutcomes.

Lemma objects_get_or_create_existing {M} {HM : Model M} {HI : ModelInit M}
    (kwargs : Kwargs) (w : World) (row : M) :
  List.filter (lookup kwargs) (objects (db w)) = [row] ->
  objects_get_or_create kwargs w = (Return (row, false), w).
Proof.
  intros Hrow. unfold objects_get_or_create, try_except at 1, bind at 1.
  by rewrite objects_get_spec, Hrow.
Qed.

Lemma fresh_image_run_eq :
  objects_get_or_create (M := VideoImage) lecture_row (attach_world [])
  = (Return (fresh_image, true), snd fresh_image_run).
Proof.
  transitivity (fst fresh_image_run, snd fresh_image_run);
    [apply surjective_pairing|].
  f_equal; vm_compute; reflexivity.
Qed.

Lemma create_or_update_created_flag_witness :
  (true = true <->
   List.filter (VideoImage_lookup lecture_row) (video_images (db (attach_world [])))
   = [])
  /\ vi_course_video_id created_image = cv_pk lecture_row
  /\ is_Some (cv_pk lecture_row)
  /\ created_image ∈ video_images (db (snd first_attach)).
Proof.
  exact (create_or_update_created_flag utc flat_path overwriting_storage lecture_row 1
           "a.png" (attach_world []) (snd first_attach) created_image true
           first_attach_eq).
Defined.

Lemma create_or_update_storage_failure_witness :
  (exists w',
     VideoImage_create_or_update utc flat_path full_storage lecture_row 1 "a.png"
       (attach_world [])
     = (Raise (IOError "No space left on device"), w')
     /\ db w' = db (snd fresh_image_run)
     /\ files w' = files (snd fresh_image_run)
     /\ is_closed 1 w'
     /\ fresh_image ∈ video_images (db w'))
  /\ (exists w',
        VideoImage_create_or_update utc flat_path overwriting_storage lecture_row 1
          "b.png" (snd first_attach)
        = (Raise (ValueError "I/O operation on closed file"), w')
        /\ db w' = db (snd first_attach)
        /\ files w'
           = <[flat_path created_image (image_file_name utc 100400000 "b.png") := []]>
               (files (snd first_attach))
        /\ is_closed 1 w'
        /\ created_image ∈ video_images (db w')).
Proof.
  split.
  - apply (create_or_update_storage_failure utc flat_path full_storage lecture_row 1
             "a.png" (attach_world []) (snd fresh_image_run) fresh_image true
             100200000 (upload Byte.x01) (IOError "No space left on device")
             (files (snd fresh_image_run)) fresh_image_run_eq).
    + reflexivity.
    + vm_compute. reflexivity.
    + reflexivity.
  - apply (create_or_update_storage_failure utc flat_path overwriting_storage
             lecture_row 1 "b.png" (snd first_attach) (snd first_attach)
             created_image false 100400000
             {| file_bytes := [Byte.x01]; closed := true |}).
    + apply (objects_get_or_create_existing (HI := VideoImage_ModelInit)).
      vm_compute. reflexivity.
    + reflexivity.
    + vm_compute. reflexivity.
    + reflexivity.
Defined.

(** The name asked for in the second case is that of the image stored by the
    first attach: the backend of the sample has emptied it. *)
Example closed_stream_empties_stored_image :
  files (snd first_attach) !! "100.png" = Some [Byte.x01]
  /\ flat_path created_image (image_file_name utc 100400000 "b.png") = "100.png".
Proof. split; vm_compute; reflexivity. Qed.

(** ** The declared constraints as invariants of [save] *)

Lemma db_inv_ret {A} (I : DB -> Prop) (a : A) : db_inv I (ret a).
Proof. by intros w. Qed.

Lemma db_inv_raise {A} (I : DB -> Prop) (e : Exception) : db_inv I (raise (A := A) e).
Proof. by intros w. Qed.

Lemma db_inv_bind {A B} (I : DB -> Prop) (m : Act A) (k : A -> Act B) :
  db_inv I m -> (forall a, db_inv I (k a)) -> db_inv I (bind m k).
Proof.
  intros Hm Hk w Hw. unfold bind. specialize (Hm w Hw).
  destruct (m w) as [[a|e] w1]; simpl in *; [|done]. by apply Hk.
Qed.

Lemma db_inv_try_except {A} (I : DB -> Prop) (m : Act A)
    (handles : Exception -> bool) (handler : Exception -> Act A) :
  db_inv I m -> (forall e, db_inv I (handler e)) ->
  db_inv I (try_except m handles handler).
Proof.
  intros Hm Hh w Hw. unfold try_except. specialize (Hm w Hw).
  destruct (m w) as [[a|e] w1]; simpl in *; [done|].
  destruct (handles e); [|done]. by apply Hh.
Qed.

Lemma db_inv_try_finally {A} (I : DB -> Prop) (m : Act A) (cleanup : Act unit) :
  db_inv I m -> db_inv I cleanup -> db_inv I (try_finally m cleanup).
Proof.
  intros Hm Hc w Hw. unfold try_finally. specialize (Hm w Hw).
  destruct (m w) as [r w1]. simpl in Hm. specialize (Hc w1 Hm).
  by destruct (cleanup w1) as [[[]|e] w2].
Qed.

(** An action that leaves the database alone keeps every property of it. *)
Lemma db_inv_frame {A} (I : DB -> Prop) (m : Act A) :
  (forall w, db (snd (m w)) = db w) -> db_inv I m.
Proof. intros Hm w Hw. by rewrite Hm. Qed.

Lemma value_eqb_sym (a b : Value) :
  (forall f, a <> VFloat f) -> (forall f, b <> VFloat f) ->
  value_eqb a b = value_eqb b a.
Proof.
  intros Ha Hb. destruct a as [|s|x|x|f], b as [|t|y|y|g]; simpl; try done.
  - apply bool_decide_ext. by split.
  - apply Z.eqb_sym.
  - apply bool_decide_ext. by split.
  - by destruct (Ha f).
Qed.

Lemma same_pk_sym {M} {HM : Model M} (a b : M) : same_pk a b = same_pk b a.
Proof. unfold same_pk. destruct (pk a), (pk b); try done. apply Z.eqb_sym. Qed.

Lemma same_pk_iff {M} {HM : Model M} (a b : M) :
  same_pk a b = true <-> is_Some (pk a) /\ pk a = pk b.
Proof. apply opt_Z_eqb_true. Qed.

Section UniqueInvariant.
Context {M : Type} {HM : Model M}.

(** What the four model classes of the module satisfy: agreement on a check
    does not depend on the order of the two rows, a table read back after
    being written is the table written, and assigning a key assigns it. *)
Hypothesis agree_sym : forall check (a b : M),
  check ∈ unique_checks -> agree check a b = agree check b a.
Hypothesis objects_set : forall rows d, objects (set_objects rows d) = rows.
Hypothesis pk_set : forall k (s : M), pk (set_pk k s) = k.

Lemma no_conflict_agree (rows : list M) (x : M) (check : list string) :
  check ∈ unique_checks ->
  db_constraint_violation rows x = None ->
  forall r, r ∈ rows -> same_pk r x = false -> agree check r x = false.
Proof.
  intros Hcheck Hv r Hr Hpk. unfold db_constraint_violation in Hv.
  destruct (List.filter _ meta_fields); [|discriminate].
  destruct (List.filter (unique_conflict rows x) unique_checks) as [|c cs] eqn:Hf;
    [|discriminate].
  destruct (unique_conflict rows x check) eqn:Hc.
  - assert (Hin : In check (List.filter (unique_conflict rows x) unique_checks))
      by (apply filter_In; split; [by apply list_elem_of_In|done]).
    by rewrite Hf in Hin.
  - apply not_true_is_false. intros Hagree. apply not_true_iff_false in Hc.
    apply Hc. unfold unique_conflict. apply existsb_exists. exists r.
    split; [by apply list_elem_of_In|]. by rewrite Hpk.
Qed.

Lemma keyed_pk (rows : list M) (self : M) : is_Some (pk (keyed rows self)).
Proof.
  unfold keyed. destruct (pk self) eqn:E; [by rewrite E|]. rewrite pk_set. eauto.
Qed.

Lemma table_ok_insert (rows : list M) (x : M) :
  table_ok rows -> is_Some (pk x) ->
  existsb (fun r => same_pk r x) rows = false ->
  db_constraint_violation rows x = None ->
  table_ok (rows ++ [x]).
Proof.
  intros [Hpks Hset Huniq] Hx Hfresh Hv.
  assert (Hnone : forall r, r ∈ rows -> same_pk r x = false).
  { intros r Hr. apply not_true_is_false. intros Hpk.
    apply not_true_iff_false in Hfresh. apply Hfresh, existsb_exists.
    exists r. split; [by apply list_elem_of_In|done]. }
  split.
  - rewrite map_app. simpl. apply NoDup_app. split; [done|].
    split; [|apply NoDup_singleton].
    intros k Hin ->%list_elem_of_singleton.
    apply list_elem_of_In, in_map_iff in Hin as (r & Hrk & Hr%list_elem_of_In).
    assert (same_pk r x = true); [|by rewrite Hnone in *].
    apply same_pk_iff. split; [|done]. by rewrite Hrk.
  - apply Forall_app. split; [done|]. by apply Forall_singleton.
  - intros check a b Hcheck [Ha| ->%list_elem_of_singleton]%elem_of_app
      [Hb| ->%list_elem_of_singleton]%elem_of_app Hpk.
    + by apply Huniq.
    + by apply (no_conflict_agree rows x).
    + rewrite agree_sym by done. apply (no_conflict_agree rows x); try done.
      by rewrite same_pk_sym.
    + destruct Hx as [k Hk]. unfold same_pk in Hpk. rewrite Hk in Hpk.
      by rewrite Z.eqb_refl in Hpk.
Qed.

Lemma replace_row_cases (self : M) (rows : list M) (r : M) :
  r ∈ replace_row self rows ->
  (r = self /\ exists old, old ∈ rows /\ same_pk old self = true)
  \/ (r ∈ rows /\ same_pk r self = false).
Proof.
  unfold replace_row. rewrite list_elem_of_In, in_map_iff.
  intros (old & <- & Hold%list_elem_of_In).
  destruct (same_pk old self) eqn:E; [left|right]; eauto.
Qed.

Lemma replace_row_map_pk (self : M) (rows : list M) :
  map pk (replace_row self rows) = map pk rows.
Proof.
  induction rows as [|r rs IH]; simpl; [done|]. rewrite IH. f_equal.
  destruct (same_pk r self) eqn:E; [|done]. by apply same_pk_iff in E as [_ ->].
Qed.

Lemma table_ok_update (rows : list M) (x : M) :
  table_ok rows ->
  db_constraint_violation rows x = None ->
  table_ok (replace_row x rows).
Proof.
  intros [Hpks Hset Huniq] Hv. split.
  - by rewrite replace_row_map_pk.
  - apply Forall_forall. intros r [[-> (old & _ & Hpk)]|[Hr _]]%replace_row_cases.
    + apply same_pk_iff in Hpk as [Hs <-]. done.
    + by eapply Forall_forall in Hset.
  - intros check a b Hcheck
      [[-> (old & _ & Hold)]|[Ha Hax]]%replace_row_cases
      [[-> _]|[Hb Hbx]]%replace_row_cases Hpk.
    + apply same_pk_iff in Hold as [[k Hk] Heq]. unfold same_pk in Hpk.
      rewrite <- Heq, Hk in Hpk. by rewrite Z.eqb_refl in Hpk.
    + rewrite agree_sym by done. by apply (no_conflict_agree rows x).
    + by apply (no_conflict_agree rows x).
    + by apply Huniq.
Qed.

Lemma db_inv_db_insert (self : M) :
  db_inv (fun d => table_ok (objects d)) (db_insert self).
Proof.
  intros w Hw. destruct (db_insert self w) as [r w'] eqn:Hrun.
  apply db_insert_inv in Hrun as [(-> & Hfresh & Hv & ->)|(c & -> & ->)]; [|done].
  simpl. rewrite objects_set. apply table_ok_insert; try done. apply keyed_pk.
Qed.

Lemma db_inv_db_update (self : M) :
  db_inv (fun d => table_ok (objects d)) (db_update self).
Proof.
  intros w Hw. destruct (db_update self w) as [r w'] eqn:Hrun.
  apply db_update_inv in Hrun as [(-> & Hv & ->)|(c & -> & ->)]; [|done].
  simpl. rewrite objects_set. by apply table_ok_update.
Qed.

Hypothesis pre_save_db : forall add (s : M) w, db (snd (pre_save add s w)) = db w.
Hypothesis post_save_db : forall (s : M) created w,
  db (snd (post_save s created w)) = db w.

(** Every [save], however it ends, leaves the table within its declared
    constraints. *)
Lemma db_inv_save_base (force_insert : bool) (self : M) :
  db_inv (fun d => table_ok (objects d)) (save_base force_insert self).
Proof.
  assert (Hins : forall u,
    db_inv (fun d => table_ok (objects d))
      (self <- pre_save true u ;; self <- db_insert self ;;
       post_save self true ;;; ret self)).
  { intros u. apply db_inv_bind; [apply db_inv_frame, pre_save_db|]. intros s.
    apply db_inv_bind; [apply db_inv_db_insert|]. intros s'.
    apply db_inv_bind; [apply db_inv_frame, post_save_db|]. intros _.
    apply db_inv_ret. }
  unfold save_base. apply db_inv_bind; [by apply db_inv_frame|]. intros d.
  destruct (match pk self with Some _ => negb force_insert | None => false end);
    [|apply Hins].
  apply db_inv_bind; [apply db_inv_frame, pre_save_db|]. intros s.
  destruct (existsb _ _); [|apply Hins].
  apply db_inv_bind; [apply db_inv_db_update|]. intros s'.
  apply db_inv_bind; [apply db_inv_frame, post_save_db|]. intros _.
  apply db_inv_ret.
Qed.

End UniqueInvariant.

Lemma db_inv_now (I : DB -> Prop) : db_inv I now.
Proof. by apply db_inv_frame. Qed.

Lemma db_inv_nows (I : DB -> Prop) (n : nat) : db_inv I (nows n).
Proof.
  induction n as [|n IH]; simpl; [apply db_inv_ret|].
  apply db_inv_bind; [apply db_inv_now|]. intros t.
  apply db_inv_bind; [done|]. intros ts. apply db_inv_ret.
Qed.

Lemma db_inv_construct {M} {HM : Model M} {HI : ModelInit M} (I : DB -> Prop)
    (kwargs : Kwargs) :
  db_inv I (construct kwargs).
Proof.
  unfold construct. apply db_inv_bind; [apply db_inv_nows|]. intros ts.
  apply db_inv_ret.
Qed.

Lemma db_inv_objects_get {M} {HM : Model M} {HI : ModelInit M} (I : DB -> Prop)
    (kwargs : Kwargs) :
  db_inv I (objects_get kwargs).
Proof.
  unfold objects_get. apply db_inv_bind; [by apply db_inv_frame|]. intros d.
  destruct (List.filter _ _) as [|r [|r' rs]];
    [apply db_inv_raise|apply db_inv_ret|apply db_inv_raise].
Qed.

Lemma db_inv_objects_get_or_create {M} {HM : Model M} {HI : ModelInit M}
    (I : DB -> Prop) (kwargs : Kwargs) :
  (forall force_insert self, db_inv I (save_base force_insert self)) ->
  db_inv I (objects_get_or_create kwargs).
Proof.
  intros Hsave. unfold objects_get_or_create.
  assert (Hget : db_inv I (obj <- objects_get kwargs ;; ret (obj, false))).
  { apply db_inv_bind; [apply db_inv_objects_get|]. intros r. apply db_inv_ret. }
  apply db_inv_try_except; [done|]. intros _.
  apply db_inv_try_except.
  - apply db_inv_bind; [|intros r; apply db_inv_ret].
    unfold objects_create. apply db_inv_bind; [apply db_inv_construct|]. intros obj.
    apply Hsave.
  - intros exc. apply db_inv_try_except; [done|]. intros _. apply db_inv_raise.
Qed.

Lemma db_inv_full_clean {M} {HM : Model M} (I : DB -> Prop) (adding : bool)
    (self : M) :
  db_inv I (full_clean adding self).
Proof.
  unfold full_clean. apply db_inv_bind; [by apply db_inv_frame|]. intros d.
  cbv zeta. destruct (_ ++ _)%list; [apply db_inv_ret|apply db_inv_raise].
Qed.

Lemma db_inv_create_with_validation {M} {HM : Model M} {HI : ModelInit M}
    (I : DB -> Prop) (kwargs : Kwargs) :
  (forall force_insert self, db_inv I (save_base force_insert self)) ->
  db_inv I (create_with_validation kwargs).
Proof.
  intros Hsave. unfold create_with_validation.
  apply db_inv_bind; [apply db_inv_construct|]. intros obj.
  apply db_inv_bind; [apply db_inv_full_clean|]. intros _.
  apply db_inv_bind; [apply Hsave|]. intros _. apply db_inv_ret.
Qed.

Lemma db_inv_get_or_create_with_validation {M} {HM : Model M} {HI : ModelInit M}
    (I : DB -> Prop) (kwargs : Kwargs) :
  (forall force_insert self, db_inv I (save_base force_insert self)) ->
  db_inv I (get_or_create_with_validation kwargs).
Proof.
  intros Hsave. unfold get_or_create_with_validation.
  apply db_inv_try_except.
  - apply db_inv_bind; [apply db_inv_objects_get|]. intros r. apply db_inv_ret.
  - intros _. apply db_inv_bind; [by apply db_inv_create_with_validation|].
    intros r. apply db_inv_ret.
Qed.

(** Under a key held once, two rows with the same key are one row. *)
Lemma NoDup_map_eq {A B} (f : A -> B) (l : list A) (a b : A) :
  NoDup (map f l) -> a ∈ l -> b ∈ l -> f a = f b -> a = b.
Proof.
  induction l as [|x l IH]; simpl; [by intros _ ?%elem_of_nil|].
  intros [Hx Hl]%NoDup_cons [->|Ha]%elem_of_cons [->|Hb]%elem_of_cons Heq;
    try done; [| |by apply IH].
  - destruct Hx. rewrite Heq. apply list_elem_of_In, in_map, list_elem_of_In, Hb.
  - destruct Hx. rewrite <- Heq. apply list_elem_of_In, in_map, list_elem_of_In, Ha.
Qed.

(** In a table within its constraints, two rows that agree on a unique
    field, or on a [unique_together] tuple, are one row. *)
Lemma table_ok_distinct {M} {HM : Model M} (rows : list M) (check : list string)
    (a b : M) :
  table_ok rows -> check ∈ unique_checks -> a ∈ rows -> b ∈ rows ->
  agree check a b = true -> a = b.
Proof.
  intros [Hpks Hset Huniq] Hcheck Ha Hb Hagree.
  destruct (same_pk a b) eqn:Hpk.
  - apply same_pk_iff in Hpk as [_ Hpk]. by apply (NoDup_map_eq pk rows).
  - by rewrite (Huniq check a b) in Hagree.
Qed.

Lemma table_ok_nil {M} {HM : Model M} : table_ok (M := M) [].
Proof.
  split; [apply NoDup_nil_2|done|]. by intros check a b _ ?%elem_of_nil.
Qed.

(** *** Profile: [profile_name] is unique *)

Lemma Profile_agree_sym (check : list string) (a b : Profile) :
  check ∈ unique_checks (M := Profile) -> agree check a b = agree check b a.
Proof.
  change (unique_checks (M := Profile)) with [["id"]; ["profile_name"]].
  intros [->|[->|[]%elem_of_nil]%elem_of_cons]%elem_of_cons;
    unfold agree; cbn [forallb]; f_equal; apply value_eqb_sym; intros f;
    simpl; unfold Profile_getattr; simpl; try done; by destruct (profile_pk _).
Qed.

Lemma Profile_db_inv_save_base (force_insert : bool) (self : Profile) :
  db_inv (fun d => table_ok (profiles d)) (save_base force_insert self).
Proof.
  change (db_inv (fun d => table_ok (objects (M := Profile) d))
            (save_base force_insert self)).
  apply db_inv_save_base; try done. apply Profile_agree_sym.
Qed.

(** X10. However a [Profile] is saved and however the save ends, a table
    that held every key and every [profile_name] once still does: two stored
    profiles of the same name are one row. *)
Theorem Profile_names_stay_unique (force_insert : bool) (self : Profile)
    (w : World) :
  table_ok (profiles (db w)) ->
  let rows := profiles (db (snd (save_base force_insert self w))) in
  table_ok rows
  /\ forall a b, a ∈ rows -> b ∈ rows -> profile_name a = profile_name b -> a = b.
Proof.
  intros Hok rows.
  assert (Hrows : table_ok rows) by by apply Profile_db_inv_save_base.
  split; [done|]. intros a b Ha Hb Hname.
  apply (table_ok_distinct rows ["profile_name"]); try done.
  - change (unique_checks (M := Profile)) with [["id"]; ["profile_name"]].
    set_solver.
  - unfold agree. simpl. unfold Profile_getattr. simpl.
    by rewrite Hname, bool_decide_eq_true_2.
Qed.

(** *** Video: [edx_video_id] is unique *)

Lemma Video_agree_sym (check : list string) (a b : Video) :
  check ∈ unique_checks (M := Video) -> agree check a b = agree check b a.
Proof.
  change (unique_checks (M := Video)) with [["id"]; ["edx_video_id"]].
  intros [->|[->|[]%elem_of_nil]%elem_of_cons]%elem_of_cons;
    unfold agree; cbn [forallb]; f_equal; apply value_eqb_sym; intros f;
    simpl; unfold Video_getattr; simpl; try done; by destruct (video_pk _).
Qed.

Lemma Video_db_inv_save_base (force_insert : bool) (self : Video) :
  db_inv (fun d => table_ok (videos d)) (save_base force_insert self).
Proof.
  change (db_inv (fun d => table_ok (objects (M := Video) d))
            (save_base force_insert self)).
  apply db_inv_save_base; try done.
  - apply Video_agree_sym.
  - intros [] s w; simpl; done.
  - intros s [] w; simpl; done.
Qed.

(** X11. However a [Video] is saved and however the save ends, a table that
    held every key and every [edx_video_id] once still does: two stored
    videos with the same [edx_video_id] are one row. *)
Theorem Video_ids_stay_unique (force_insert : bool) (self : Video) (w : World) :
  table_ok (videos (db w)) ->
  let rows := videos (db (snd (save_base force_insert self w))) in
  table_ok rows
  /\ forall a b, a ∈ rows -> b ∈ rows -> edx_video_id a = edx_video_id b -> a = b.
Proof.
  intros Hok rows.
  assert (Hrows : table_ok rows) by by apply Video_db_inv_save_base.
  split; [done|]. intros a b Ha Hb Hname.
  apply (table_ok_distinct rows ["edx_video_id"]); try done.
  - change (unique_checks (M := Video)) with [["id"]; ["edx_video_id"]].
    set_solver.
  - unfold agree. simpl. unfold Video_getattr. simpl.
    by rewrite Hname, bool_decide_eq_true_2.
Qed.

(** *** VideoImage: one image per course video *)

Lemma VideoImage_agree_sym (check : list string) (a b : VideoImage) :
  check ∈ unique_checks (M := VideoImage) -> agree check a b = agree check b a.
Proof.
  change (unique_checks (M := VideoImage)) with [["id"]; ["course_video"]].
  intros [->|[->|[]%elem_of_nil]%elem_of_cons]%elem_of_cons;
    unfold agree; cbn [forallb]; f_equal; apply value_eqb_sym; intros f;
    simpl; unfold VideoImage_getattr; simpl.
  - by destruct (vi_pk a).
  - by destruct (vi_pk b).
  - by destruct (vi_course_video_id a).
  - by destruct (vi_course_video_id b).
Qed.

Lemma VideoImage_db_inv_save_base (force_insert : bool) (self : VideoImage) :
  db_inv (fun d => table_ok (video_images d)) (save_base force_insert self).
Proof.
  change (db_inv (fun d => table_ok (objects (M := VideoImage) d))
            (save_base force_insert self)).
  apply db_inv_save_base; try done. apply VideoImage_agree_sym.
Qed.

(** In a table within its constraints the rows of one course video are one
    row. *)
Lemma VideoImage_same_course_video (rows : list VideoImage) (a b : VideoImage) :
  table_ok rows -> a ∈ rows -> b ∈ rows ->
  vi_course_video_id a = vi_course_video_id b -> a = b.
Proof.
  intros Hok Ha Hb Hcv. apply (table_ok_distinct rows ["course_video"]); try done.
  - change (unique_checks (M := VideoImage)) with [["id"]; ["course_video"]].
    set_solver.
  - unfold agree. simpl. unfold VideoImage_getattr. simpl. rewrite Hcv.
    destruct (vi_course_video_id b); simpl; [by rewrite Z.eqb_refl|done].
Qed.

Lemma NoDup_map_NoDup {A B} (f : A -> B) (l : list A) : NoDup (map f l) -> NoDup l.
Proof.
  induction l as [|x l IH]; simpl; [intros _; apply NoDup_nil_2|].
  intros [Hx Hl]%NoDup_cons. apply NoDup_cons. split; [|by apply IH].
  intros Hin. apply Hx, list_elem_of_In, in_map, list_elem_of_In, Hin.
Qed.

(** A filter whose matches are all one stored row answers that row alone. *)
Lemma filter_only {A} (f : A -> bool) (l : list A) (x : A) :
  NoDup l -> x ∈ l -> f x = true -> (forall y, y ∈ l -> f y = true -> y = x) ->
  List.filter f l = [x].
Proof.
  induction l as [|y l IH]; [by intros _ ?%elem_of_nil|].
  intros [Hy Hl]%NoDup_cons Hx Hfx Hall. simpl.
  destruct (f y) eqn:Hfy.
  - assert (y = x) as -> by (apply Hall; [left|done]). f_equal.
    destruct (List.filter f l) as [|z zs] eqn:Hf; [done|].
    assert (Hz : In z (List.filter f l)) by (rewrite Hf; by left).
    apply filter_In in Hz as [Hz%list_elem_of_In Hfz].
    assert (z = x) as -> by (apply Hall; [by right|done]). done.
  - apply elem_of_cons in Hx as [->|Hx]; [congruence|].
    apply IH; try done. intros z Hz. apply Hall. by right.
Qed.

Section ImageTable.
Variable mktime : Z -> Z.
Variable video_image_path : VideoImage -> string -> string.
Variable storage_save :
  gmap string (list Byte.byte) -> string -> UploadedFile ->
  Result string * gmap string (list Byte.byte).

Lemma db_inv_image_save (I : DB -> Prop) (video_image : VideoImage)
    (name : string) (content : nat) :
  (forall force_insert self, db_inv I (save_base (M := VideoImage) force_insert self)) ->
  db_inv I (image_save video_image_path storage_save video_image name content).
Proof.
  intros Hsave. unfold image_save.
  apply db_inv_bind.
  { apply db_inv_frame. intros w. unfold backend_save.
    destruct (streams w !! content) as [up|]; [|done].
    by destruct (storage_save _ _ _) as [[?|?] ?]. }
  intros stored. apply Hsave.
Qed.

Lemma db_inv_create_or_update (I : DB -> Prop) (course_video : CourseVideo)
    (image_data : nat) (file_name : string) :
  (forall force_insert self, db_inv I (save_base (M := VideoImage) force_insert self)) ->
  db_inv I (VideoImage_create_or_update mktime video_image_path storage_save
              course_video image_data file_name).
Proof.
  intros Hsave. unfold VideoImage_create_or_update.
  apply db_inv_bind; [by apply db_inv_objects_get_or_create|].
  intros [video_image created].
  apply db_inv_bind; [|intros vi; apply db_inv_ret].
  apply db_inv_try_finally; [|by apply db_inv_frame].
  destruct (vi_modified video_image) as [m|]; [|apply db_inv_raise].
  apply db_inv_bind; [by apply db_inv_image_save|]. intros vi. apply Hsave.
Qed.

(** X12. However an attach ends (a record created or replaced, a storage
    failure, a closed stream, a constraint failure), the [VideoImage] table
    stays within its constraints: every key once, and at most one image row
    per course video. *)
Theorem create_or_update_one_image_per_course_video (course_video : CourseVideo)
    (image_data : nat) (file_name : string) (w : World) :
  table_ok (video_images (db w)) ->
  let rows :=
    video_images
      (db (snd (VideoImage_create_or_update mktime video_image_path storage_save
                  course_video image_data file_name w))) in
  table_ok rows
  /\ forall a b, a ∈ rows -> b ∈ rows ->
       vi_course_video_id a = vi_course_video_id b -> a = b.
Proof.
  intros Hok rows.
  assert (Hrows : table_ok rows).
  { apply (db_inv_create_or_update (fun d => table_ok (video_images d))); [|done].
    apply VideoImage_db_inv_save_base. }
  split; [done|]. intros a b. by apply VideoImage_same_course_video.
Qed.

(** X13. After an attach that returns, on a table that was within its
    constraints, looking the course video's image up again finds exactly the
    record the attach returned. *)
Theorem create_or_update_then_get (course_video : CourseVideo)
    (image_data : nat) (file_name : string) (w w' : World) (vi : VideoImage)
    (created : bool) :
  table_ok (video_images (db w)) ->
  VideoImage_create_or_update mktime video_image_path storage_save
    course_video image_data file_name w = (Return (vi, created), w') ->
  objects_get (M := VideoImage) course_video w' = (Return vi, w').
Proof.
  intros Hok Hrun.
  assert (Hrows : table_ok (video_images (db w'))).
  { pose proof (db_inv_create_or_update (fun d => table_ok (video_images d))
                  course_video image_data file_name
                  VideoImage_db_inv_save_base w Hok) as H.
    by rewrite Hrun in H. }
  apply attach_inv in Hrun as (_ & _ & _ & _ & _ & _ & Hlook & Hin & _).
  rewrite objects_get_spec.
  change (List.filter (lookup (ModelInit := VideoImage_ModelInit) course_video)
            (objects (db w')))
    with (List.filter (VideoImage_lookup course_video) (video_images (db w'))).
  rewrite (filter_only _ _ vi); try done.
  - eapply NoDup_map_NoDup, Hrows.
  - intros r Hr Hlr. apply (VideoImage_same_course_video (video_images (db w')));
      try done.
    apply opt_Z_eqb_true in Hlr as [_ ->]. by apply opt_Z_eqb_true in Hlook as [_ ->].
Qed.

End ImageTable.

(** *** The sample tables are within their constraints *)

(** The constraints of a given table can be checked by evaluation. *)
Lemma table_ok_check {M} {HM : Model M} (rows : list M) :
  NoDup (map pk rows) ->
  forallb (fun r => bool_decide (is_Some (pk r))) rows = true ->
  forallb (fun check =>
             forallb (fun a =>
                        forallb (fun b => same_pk a b || negb (agree check a b)) rows)
                     rows)
          unique_checks = true ->
  table_ok rows.
Proof.
  intros Hpks Hset Huniq. split; [done| |].
  - apply Forall_forall. intros r Hr%list_elem_of_In.
    rewrite forallb_forall in Hset. exact (proj1 (bool_decide_eq_true _) (Hset r Hr)).
  - intros check a b Hc%list_elem_of_In Ha%list_elem_of_In Hb%list_elem_of_In Hpk.
    rewrite forallb_forall in Huniq. specialize (Huniq check Hc).
    rewrite forallb_forall in Huniq. specialize (Huniq a Ha).
    rewrite forallb_forall in Huniq. specialize (Huniq b Hb).
    rewrite Hpk in Huniq. by apply negb_true_iff in Huniq.
Qed.

Ltac table_ok_by_evaluation :=
  apply table_ok_check;
  [ apply (bool_decide_unpack _); vm_compute; reflexivity
  | vm_compute; reflexivity
  | vm_compute; reflexivity ].

Lemma youtube_db_profiles_ok : table_ok (profiles youtube_db).
Proof. table_ok_by_evaluation. Qed.

Lemma youtube_db_videos_ok : table_ok (videos youtube_db).
Proof. table_ok_by_evaluation. Qed.

Lemma old_image_table_ok : table_ok [old_image].
Proof. table_ok_by_evaluation. Qed.

Lemma replacing_attach_eq :
  VideoImage_create_or_update utc flat_path overwriting_storage lecture_row 1 "a.png"
    (attach_world [old_image])
  = (Return (replaced_old_image, false), snd replacing_attach).
Proof.
  transitivity (fst replacing_attach, snd replacing_attach);
    [apply surjective_pairing|].
  f_equal; vm_compute; reflexivity.
Qed.

Lemma Profile_names_stay_unique_witness :
  let rows :=
    profiles (db (snd (save_base false second_youtube_profile
                         (quiet_world youtube_db)))) in
  table_ok rows
  /\ forall a b, a ∈ rows -> b ∈ rows -> profile_name a = profile_name b -> a = b.
Proof.
  exact (Profile_names_stay_unique false second_youtube_profile
           (quiet_world youtube_db) youtube_db_profiles_ok).
Defined.

Lemma Video_ids_stay_unique_witness :
  let rows := videos (db (snd (save_base false new_video (quiet_world youtube_db)))) in
  table_ok rows
  /\ forall a b, a ∈ rows -> b ∈ rows -> edx_video_id a = edx_video_id b -> a = b.
Proof.
  exact (Video_ids_stay_unique false new_video (quiet_world youtube_db)
           youtube_db_videos_ok).
Defined.

Lemma create_or_update_one_image_per_course_video_witness :
  let rows :=
    video_images
      (db (snd (VideoImage_create_or_update utc flat_path overwriting_storage
                  lecture_row 1 "a.png" (attach_world [old_image])))) in
  table_ok rows
  /\ forall a b, a ∈ rows -> b ∈ rows ->
       vi_course_video_id a = vi_course_video_id b -> a = b.
Proof.
  exact (create_or_update_one_image_per_course_video utc flat_path overwriting_storage
           lecture_row 1 "a.png" (attach_world [old_image]) old_image_table_ok).
Defined.

Lemma create_or_update_then_get_witness :
  objects_get (M := VideoImage) lecture_row (snd replacing_attach)
  = (Return replaced_old_image, snd replacing_attach).
Proof.
  exact (create_or_update_then_get utc flat_path overwriting_storage lecture_row 1
           "a.png" (attach_world [old_image]) (snd replacing_attach)
           replaced_old_image false old_image_table_ok replacing_attach_eq).
Defined.

(** ** How often [by_youtube_id] answers a video *)

Lemma length_bind_sum {A B} (f : A -> list B) (l : list A) :
  List.length (l ≫= f) = sum_list_with (fun x => List.length (f x)) l.
Proof.
  induction l as [|x l IH]; [done|].
  change ((x :: l) ≫= f) with (f x ++ (l ≫= f))%list.
  rewrite length_app, IH. done.
Qed.

Lemma sum_list_with_ext {A} (f g : A -> nat) (l : list A) :
  (forall x, x ∈ l -> f x = g x) -> sum_list_with f l = sum_list_with g l.
Proof.
  induction l as [|x l IH]; intros H; simpl; [done|].
  rewrite H by left. rewrite IH; [done|]. intros y Hy. apply H. by right.
Qed.

Lemma sum_list_with_zero {A} (l : list A) : sum_list_with (fun _ => 0%nat) l = 0%nat.
Proof. by induction l. Qed.

Lemma sum_list_with_plus {A} (f g : A -> nat) (l : list A) :
  sum_list_with (fun x => (f x + g x)%nat) l
  = (sum_list_with f l + sum_list_with g l)%nat.
Proof. induction l as [|x l IH]; simpl; [done|]. rewrite IH. lia. Qed.

(** Summing over two tables in either order. *)
Lemma sum_list_with_swap {A B} (f : A -> B -> nat) (l : list A) (k : list B) :
  sum_list_with (fun x => sum_list_with (fun y => f x y) k) l
  = sum_list_with (fun y => sum_list_with (fun x => f x y) l) k.
Proof.
  induction l as [|x l IH]; simpl.
  - by rewrite sum_list_with_zero.
  - by rewrite IH, sum_list_with_plus.
Qed.

Lemma length_filter_sum {A} (f : A -> bool) (l : list A) :
  List.length (List.filter f l) = sum_list_with (fun x => if f x then 1%nat else 0%nat) l.
Proof.
  induction l as [|x l IH]; simpl; [done|]. destruct (f x); simpl; by rewrite IH.
Qed.

(** Under a key held once, the rows a key selects are one row or none. *)
Lemma sum_by_key {A} (key : A -> option Z) (q : A -> bool) (k : option Z)
    (l : list A) :
  NoDup (map key l) ->
  sum_list_with (fun x => if opt_Z_eqb k (key x) && q x then 1%nat else 0%nat) l
  = if existsb (fun x => opt_Z_eqb k (key x) && q x) l then 1%nat else 0%nat.
Proof.
  induction l as [|x l IH]; simpl; [done|].
  intros [Hx Hl]%NoDup_cons. rewrite (IH Hl).
  destruct (opt_Z_eqb k (key x)) eqn:Hk; simpl; [|done].
  apply opt_Z_eqb_true in Hk as [Hs Hk].
  assert (Hnone : existsb (fun y => opt_Z_eqb k (key y) && q y) l = false).
  { apply not_true_is_false.
    intros (y & Hy & [[_ Hky]%opt_Z_eqb_true _]%andb_true_iff)%existsb_exists.
    apply Hx. rewrite <- Hk, Hky. by apply list_elem_of_In, in_map. }
  rewrite Hnone. by destruct (q x).
Qed.

Lemma existsb_pointwise {A} (f g : A -> bool) (l : list A) :
  (forall x, f x = g x) -> existsb f l = existsb g l.
Proof. intros H. induction l as [|x l IH]; simpl; [done|]. by rewrite H, IH. Qed.

Lemma existsb_andb_const {A} (f : A -> bool) (c : bool) (l : list A) :
  existsb (fun x => f x && c) l = existsb f l && c.
Proof.
  induction l as [|x l IH]; simpl; [done|]. rewrite IH.
  by destruct (f x), c, (existsb f l).
Qed.

(** X14. [by_youtube_id] answers one entry per matching encoding, not one
    per video: with keys held once in the [Video] and [Profile] tables, the
    result is as long as the list of stored encodings whose url is the id
    asked for, whose video is stored and whose profile is named "youtube". *)
Theorem by_youtube_id_one_per_encoding (youtube_id : string) (d : DB) :
  NoDup (map video_pk (videos d)) ->
  NoDup (map profile_pk (profiles d)) ->
  List.length (Video_by_youtube_id youtube_id d)
  = List.length (List.filter (youtube_match d youtube_id) (encoded_videos d)).
Proof.
  intros Hv Hp. unfold Video_by_youtube_id. cbv zeta. rewrite length_map.
  unfold youtube_filter. rewrite length_bind_sum.
  set (named := fun ev : EncodedVideo =>
         existsb (fun p => opt_Z_eqb (ev_profile_id ev) (profile_pk p)
                           && bool_decide (profile_name p = "youtube"))
           (profiles d)).
  rewrite (sum_list_with_ext _
    (fun v => sum_list_with
       (fun ev =>
          if opt_Z_eqb (ev_video_id ev) (video_pk v)
             && (named ev && bool_decide (url ev = youtube_id))
          then 1%nat else 0%nat)
       (encoded_videos d))).
  2:{ intros v _. rewrite length_bind_sum. apply sum_list_with_ext. intros ev _.
      rewrite length_bind_sum.
      set (c := opt_Z_eqb (ev_video_id ev) (video_pk v)
                && bool_decide (url ev = youtube_id)).
      rewrite (sum_list_with_ext _
        (fun p => if opt_Z_eqb (ev_profile_id ev) (profile_pk p)
                     && (bool_decide (profile_name p = "youtube") && c)
                  then 1%nat else 0%nat)).
      2:{ intros p _. unfold c.
          destruct (opt_Z_eqb (ev_video_id ev) (video_pk v)),
            (opt_Z_eqb (ev_profile_id ev) (profile_pk p)),
            (bool_decide (profile_name p = "youtube")),
            (bool_decide (url ev = youtube_id)); done. }
      rewrite (sum_by_key profile_pk _ (ev_profile_id ev) (profiles d) Hp).
      rewrite (existsb_pointwise _
        (fun p => opt_Z_eqb (ev_profile_id ev) (profile_pk p)
                  && bool_decide (profile_name p = "youtube") && c))
        by (intros p; by rewrite andb_assoc).
      rewrite existsb_andb_const. fold (named ev). unfold c.
      by destruct (named ev), (opt_Z_eqb (ev_video_id ev) (video_pk v)),
        (bool_decide (url ev = youtube_id)). }
  rewrite sum_list_with_swap, length_filter_sum. apply sum_list_with_ext.
  intros ev _.
  rewrite (sum_by_key video_pk _ (ev_video_id ev) (videos d) Hv).
  rewrite existsb_andb_const. unfold youtube_match. fold (named ev).
  by destruct (existsb _ (videos d)), (named ev), (bool_decide (url ev = youtube_id)).
Qed.

Lemma by_youtube_id_one_per_encoding_witness :
  List.length (Video_by_youtube_id "abc123" twice_encoded_db)
  = List.length (List.filter (youtube_match twice_encoded_db "abc123")
                   (encoded_videos twice_encoded_db)).
Proof.
  apply (by_youtube_id_one_per_encoding "abc123" twice_encoded_db);
    apply (bool_decide_unpack _); vm_compute; reflexivity.
Defined.
